(** * HyperIT: the pairwise information-theoretic engine, in Rocq

    A shallow embedding of [HyperIT/it.py] (class [HyperIT]) and of the
    estimator helpers it shares with [IT-Hyperscanning/it.py].

    Modelling conventions.
    - Python values that are inspected with [isinstance] (ROI lists,
      channel-name lists, the initialise parameter) are values of [pyval].
    - A numpy array of samples is a nested array [ndarray] over [Q]: every
      finite float64 is a rational, and arithmetic on samples is taken
      exact.  Quantities that pass through a logarithm or a fractional
      power are exact reals ([R]); IEEE infinities and NaN are kept where
      the source can produce them (the Freedman-Diaconis division).
      Arrays with a zero-length axis followed by further axes are outside
      the model.
    - A raised exception is a [Raise e] result; code that mutates the
      object before raising runs in a state monad that keeps the mutated
      object next to the exception.
    - The JIDT calculators behind [jpype] and the JVM are an interface
      ([JIDT]); the engine threads the one calculator handle through all
      pairs, as the source reuses [self.Calc]. *)

From Stdlib Require Import Reals QArith Qround Qreals Psatz Lia ZArith Ascii.
From stdpp Require Import base option list sorting strings pretty.

Set Warnings "-register-all".

Local Open Scope string_scope.
Local Open Scope list_scope.
Local Open Scope nat_scope.

(** ** Exceptions and results *)

Inductive exn : Type :=
  | ValueError (msg : string)
  | IndexError
  | TypeError
  | AttributeError
  | OverflowError
  | UnboundLocalError.

Inductive result (A : Type) : Type :=
  | Ok (a : A)
  | Raise (e : exn).
Arguments Ok {A} a.
Arguments Raise {A} e.

Definition rbind {A B} (m : result A) (k : A -> result B) : result B :=
  match m with
  | Ok a => k a
  | Raise e => Raise e
  end.

Notation "'let*' x ':=' c1 'in' c2" := (rbind c1 (fun x => c2))
  (at level 10, x pattern, c1 at level 100, c2 at level 200).

Definition of_option {A} (e : exn) (o : option A) : result A :=
  match o with
  | Some a => Ok a
  | None => Raise e
  end.

Definition is_ok {A} (r : result A) : bool :=
  match r with Ok _ => true | Raise _ => false end.

(** Two calls agree: both return the same value, or both raise. *)
Definition same_outcome {A} (r1 r2 : result A) : Prop :=
  match r1, r2 with
  | Ok a, Ok b => a = b
  | Raise _, Raise _ => True
  | _, _ => False
  end.

(** [for x in l: st = f st x], stopping at the first exception. *)
Fixpoint foldM {St X} (f : St -> X -> result St) (st : St) (l : list X) : result St :=
  match l with
  | [] => Ok st
  | x :: l' => let* st' := f st x in foldM f st' l'
  end.

(** [[f x for x in l]], stopping at the first exception. *)
Fixpoint mapR {X Y} (f : X -> result Y) (l : list X) : result (list Y) :=
  match l with
  | [] => Ok []
  | x :: l' => let* y := f x in let* ys := mapR f l' in Ok (y :: ys)
  end.

(** ** Python values *)

Inductive pyval : Type :=
  | PStr (s : string)
  | PInt (z : Z)
  | PList (l : list pyval).

(** Induction on Python values, through the lists they nest. *)
Section pyval_induction.
Variable P : pyval -> Prop.
Hypothesis Hstr : forall s, P (PStr s).
Hypothesis Hint : forall z, P (PInt z).
Hypothesis Hlist : forall l, Forall P l -> P (PList l).

End pyval_induction.

(** [isinstance(v, list)] and [isinstance(v, str)]. *)
Definition is_list (v : pyval) : bool :=
  match v with PList _ => true | _ => false end.
Definition is_str (v : pyval) : bool :=
  match v with PStr _ => true | _ => false end.

(** The items of a value already known to be a list. *)
Definition items (v : pyval) : list pyval :=
  match v with PList l => l | _ => [] end.

(** [len(v)]. *)
Definition py_len (v : pyval) : result nat :=
  match v with
  | PList l => Ok (length l)
  | PStr s => Ok (String.length s)
  | PInt _ => Raise TypeError
  end.

Fixpoint chars (s : string) : list pyval :=
  match s with
  | EmptyString => []
  | String c s' => PStr (String c EmptyString) :: chars s'
  end.

(** [v[i]] for a non-negative [i]. *)
Definition py_getitem (v : pyval) (i : nat) : result pyval :=
  match v with
  | PList l => of_option IndexError (l !! i)
  | PStr s => of_option IndexError (chars s !! i)
  | PInt _ => Raise TypeError
  end.

(** Truth value of [v] in [if v]. *)
Definition truthy (v : pyval) : bool :=
  match v with
  | PList l => negb (bool_decide (l = []))
  | PStr s => negb (bool_decide (s = ""))
  | PInt z => negb (z =? 0)%Z
  end.

(** [np.arange(n)], as the list of its entries. *)
Definition arange (n : nat) : pyval := PList (map (fun i => PInt (Z.of_nat i)) (seq 0 n)).

Fixpoint find_index (name : string) (l : list pyval) : option nat :=
  match l with
  | [] => None
  | PStr s :: l' => if bool_decide (s = name) then Some 0 else S <$> find_index name l'
  | _ :: l' => S <$> find_index name l'
  end.

(** [container.index(name)] for a string [name]: [list.index] or
    [str.index]. *)
Definition py_index (container : pyval) (name : string) : result nat :=
  match container with
  | PList l => of_option (ValueError ("'" +:+ name +:+ "' is not in list")) (find_index name l)
  | PStr s => of_option (ValueError "substring not found") (String.index 0 name s)
  | PInt _ => Raise AttributeError
  end.

Definition lower_ascii (c : ascii) : ascii :=
  let n := nat_of_ascii c in
  if (65 <=? n) && (n <=? 90) then ascii_of_nat (n + 32) else c.

(** [s.lower()] on ASCII text. *)
Fixpoint lower (s : string) : string :=
  match s with
  | EmptyString => EmptyString
  | String c s' => String (lower_ascii c) (lower s')
  end.

(** ** numpy arrays *)

Inductive ndarray : Type :=
  | Sc (x : Q)
  | Ar (l : list ndarray).

Fixpoint shape (a : ndarray) : list nat :=
  match a with
  | Sc _ => []
  | Ar l => length l :: match l with [] => [] | x :: _ => shape x end
  end.

Definition ndim (a : ndarray) : nat := length (shape a).

(** A nested list is an array when the entries along every axis have one
    shape. *)
Fixpoint rect (a : ndarray) : bool :=
  match a with
  | Sc _ => true
  | Ar l => forallb rect l
            && forallb (fun x => bool_decide (shape x = shape (hd (Sc 0) l))) l
  end.

(** [np.array_equal(a, b)]. *)
Fixpoint array_equal (a b : ndarray) : bool :=
  match a, b with
  | Sc x, Sc y => Qeq_bool x y
  | Ar l, Ar m =>
      (fix go (l m : list ndarray) : bool :=
         match l, m with
         | [], [] => true
         | x :: l', y :: m' => array_equal x y && go l' m'
         | _, _ => false
         end) l m
  | _, _ => false
  end.

(** The entries in C order ([a.ravel()]). *)
Fixpoint ravel (a : ndarray) : list Q :=
  match a with
  | Sc x => [x]
  | Ar l => flat_map ravel l
  end.

(** A one-dimensional array as the list of its samples. *)
Definition as_1d (a : ndarray) : option (list Q) :=
  match a with
  | Sc _ => None
  | Ar l => mapM (fun x => match x with Sc q => Some q | Ar _ => None end) l
  end.

(** [a[i]] along the first axis, for [i] from a [range]. *)
Definition take0 (a : ndarray) (i : nat) : result ndarray :=
  match a with
  | Sc _ => Raise IndexError
  | Ar l => of_option IndexError (l !! i)
  end.

(** [a[i, :]]: one further axis must exist. *)
Definition row (a : ndarray) (i : nat) : result ndarray :=
  let* r := take0 a i in
  match r with
  | Sc _ => Raise IndexError
  | Ar _ => Ok r
  end.

(** numpy's treatment of a signed index on an axis of the given length. *)
Definition wrap_index (len : nat) (z : Z) : option nat :=
  if (0 <=? z)%Z && (z <? Z.of_nat len)%Z then Some (Z.to_nat z)
  else if (z <? 0)%Z && (- Z.of_nat len <=? z)%Z then Some (Z.to_nat (z + Z.of_nat len))
  else None.

(** [a[idx]] along the first axis, [idx] a (nested) list of integers:
    the result has the shape of [idx] followed by the remaining axes. *)
Fixpoint fancy (rows : list ndarray) (idx : pyval) : result ndarray :=
  match idx with
  | PInt z => of_option IndexError (wrap_index (length rows) z ≫= fun i => rows !! i)
  | PStr _ => Raise IndexError
  | PList l =>
      rbind ((fix go (l : list pyval) : result (list ndarray) :=
                match l with
                | [] => Ok []
                | x :: l' => let* y := fancy rows x in let* ys := go l' in Ok (y :: ys)
                end) l) (fun ys => Ok (Ar ys))
  end.

(** [a[idx, :]]. *)
Definition rows_at (a : ndarray) (idx : pyval) : result ndarray :=
  match a with
  | Sc _ => Raise IndexError
  | Ar rows =>
      match rows with
      | Sc _ :: _ => Raise IndexError
      | _ => fancy rows idx
      end
  end.

(** [a[:, idx, :]]. *)
Definition cols_at (a : ndarray) (idx : pyval) : result ndarray :=
  match a with
  | Sc _ => Raise IndexError
  | Ar epochs => let* es := mapR (fun ep => rows_at ep idx) epochs in Ok (Ar es)
  end.

(** Entry at a full index, and the array with a given shape and entries. *)
Fixpoint entry (a : ndarray) (idx : list nat) : Q :=
  match idx, a with
  | [], Sc x => x
  | i :: idx', Ar l => match l !! i with Some x => entry x idx' | None => 0%Q end
  | _, _ => 0%Q
  end.

Fixpoint build (sh : list nat) (f : list nat -> Q) : ndarray :=
  match sh with
  | [] => Sc (f [])
  | d :: sh' => Ar (map (fun i => build sh' (fun idx => f (i :: idx))) (seq 0 d))
  end.

(** [a.T]: the axes reversed. *)
Definition T (a : ndarray) : ndarray :=
  build (rev (shape a)) (fun idx => entry a (rev idx)).

(** ** The object *)

(** The attributes of a [HyperIT] instance that the engine reads.
    [_soi_groups] is [None] until the first grouped ROI creates the
    attribute; [_initialise_parameter] is [None], a tuple [(n, n)] (a
    [PList]) or the integer [2]. *)
Record HyperIT : Type := mkHyperIT {
  _channel_names : pyval;
  _channel_indices1 : pyval;
  _channel_indices2 : pyval;
  _all_data : ndarray * ndarray;
  _data1 : ndarray;
  _data2 : ndarray;
  _roi : list pyval;
  _roi_specified : bool;
  _scale_of_organisation : nat;
  _soi_groups : option nat;
  _inter_brain : bool;
  _is_epoched : bool;
  _initialise_parameter : option pyval;
  verbose : bool;
  n_epo : nat;
  n_chan : nat;
  n_samples : nat
}.

Definition set_channel_names v h :=
  mkHyperIT v (_channel_indices1 h) (_channel_indices2 h) (_all_data h) (_data1 h) (_data2 h)
    (_roi h) (_roi_specified h) (_scale_of_organisation h) (_soi_groups h) (_inter_brain h)
    (_is_epoched h) (_initialise_parameter h) (verbose h) (n_epo h) (n_chan h) (n_samples h).
Definition set_channel_indices1 v h :=
  mkHyperIT (_channel_names h) v (_channel_indices2 h) (_all_data h) (_data1 h) (_data2 h)
    (_roi h) (_roi_specified h) (_scale_of_organisation h) (_soi_groups h) (_inter_brain h)
    (_is_epoched h) (_initialise_parameter h) (verbose h) (n_epo h) (n_chan h) (n_samples h).
Definition set_channel_indices2 v h :=
  mkHyperIT (_channel_names h) (_channel_indices1 h) v (_all_data h) (_data1 h) (_data2 h)
    (_roi h) (_roi_specified h) (_scale_of_organisation h) (_soi_groups h) (_inter_brain h)
    (_is_epoched h) (_initialise_parameter h) (verbose h) (n_epo h) (n_chan h) (n_samples h).
Definition set_data1 v h :=
  mkHyperIT (_channel_names h) (_channel_indices1 h) (_channel_indices2 h) (_all_data h) v (_data2 h)
    (_roi h) (_roi_specified h) (_scale_of_organisation h) (_soi_groups h) (_inter_brain h)
    (_is_epoched h) (_initialise_parameter h) (verbose h) (n_epo h) (n_chan h) (n_samples h).
Definition set_data2 v h :=
  mkHyperIT (_channel_names h) (_channel_indices1 h) (_channel_indices2 h) (_all_data h) (_data1 h) v
    (_roi h) (_roi_specified h) (_scale_of_organisation h) (_soi_groups h) (_inter_brain h)
    (_is_epoched h) (_initialise_parameter h) (verbose h) (n_epo h) (n_chan h) (n_samples h).
Definition set_roi v h :=
  mkHyperIT (_channel_names h) (_channel_indices1 h) (_channel_indices2 h) (_all_data h) (_data1 h) (_data2 h)
    v (_roi_specified h) (_scale_of_organisation h) (_soi_groups h) (_inter_brain h)
    (_is_epoched h) (_initialise_parameter h) (verbose h) (n_epo h) (n_chan h) (n_samples h).
Definition set_roi_specified v h :=
  mkHyperIT (_channel_names h) (_channel_indices1 h) (_channel_indices2 h) (_all_data h) (_data1 h) (_data2 h)
    (_roi h) v (_scale_of_organisation h) (_soi_groups h) (_inter_brain h)
    (_is_epoched h) (_initialise_parameter h) (verbose h) (n_epo h) (n_chan h) (n_samples h).
Definition set_scale_of_organisation v h :=
  mkHyperIT (_channel_names h) (_channel_indices1 h) (_channel_indices2 h) (_all_data h) (_data1 h) (_data2 h)
    (_roi h) (_roi_specified h) v (_soi_groups h) (_inter_brain h)
    (_is_epoched h) (_initialise_parameter h) (verbose h) (n_epo h) (n_chan h) (n_samples h).
Definition set_soi_groups v h :=
  mkHyperIT (_channel_names h) (_channel_indices1 h) (_channel_indices2 h) (_all_data h) (_data1 h) (_data2 h)
    (_roi h) (_roi_specified h) (_scale_of_organisation h) v (_inter_brain h)
    (_is_epoched h) (_initialise_parameter h) (verbose h) (n_epo h) (n_chan h) (n_samples h).
Definition set_initialise_parameter v h :=
  mkHyperIT (_channel_names h) (_channel_indices1 h) (_channel_indices2 h) (_all_data h) (_data1 h) (_data2 h)
    (_roi h) (_roi_specified h) (_scale_of_organisation h) (_soi_groups h) (_inter_brain h)
    (_is_epoched h) v (verbose h) (n_epo h) (n_chan h) (n_samples h).
Definition set_dims e c s h :=
  mkHyperIT (_channel_names h) (_channel_indices1 h) (_channel_indices2 h) (_all_data h) (_data1 h) (_data2 h)
    (_roi h) (_roi_specified h) (_scale_of_organisation h) (_soi_groups h) (_inter_brain h)
    (_is_epoched h) (_initialise_parameter h) (verbose h) e c s.
Definition set_n_chan c h := set_dims (n_epo h) c (n_samples h) h.

(** Methods mutate [self] and may raise: the object as it is when the
    method returns or raises, next to the outcome. *)
Definition method (A : Type) : Type := HyperIT -> HyperIT * result A.

Definition ret {A} (a : A) : method A := fun h => (h, Ok a).
Definition raise {A} (e : exn) : method A := fun h => (h, Raise e).
Definition lift {A} (r : result A) : method A := fun h => (h, r).
Definition self : method HyperIT := fun h => (h, Ok h).
Definition assign (f : HyperIT -> HyperIT) : method unit := fun h => (f h, Ok tt).
Definition bind {A B} (m : method A) (k : A -> method B) : method B :=
  fun h => match m h with
           | (h', Ok a) => k a h'
           | (h', Raise e) => (h', Raise e)
           end.

Notation "'let!' x ':=' c1 'in' c2" := (bind c1 (fun x => c2))
  (at level 10, x pattern, c1 at level 100, c2 at level 200).
Notation "c1 ';;' c2" := (bind c1 (fun _ => c2))
  (at level 100, c2 at level 200, right associativity).

(** *** Construction: [__init__] and [__check_data] *)

(** [any(len(names) != n for names in channel_names)], left to right. *)
Fixpoint any_len_differs (n : nat) (l : list pyval) : result bool :=
  match l with
  | [] => Ok false
  | names :: l' =>
      let* k := py_len names in
      if negb (k =? n) then Ok true else any_len_differs n l'
  end.

Definition check_data : method unit :=
  let! h := self in
  (* both arguments are arrays by their type *)
  if negb (bool_decide (shape (_data1 h) = shape (_data2 h))) then
    raise (ValueError "Time-series data must have the same shape for both participants.")
  else if negb ((ndim (_data1 h) =? 2) || (ndim (_data1 h) =? 3)) then
    raise (ValueError ("Unexpected number of dimensions in time-series data: "
                        +:+ pretty (ndim (_data1 h))
                        +:+ ". Expected 2 dimensions (channels, time_points) or 3 dimensions (epochs, channels, time_points)."))
  else
    let names_error :=
      ValueError "Channel names must be a list of strings or a list of lists of strings for inter-brain analysis." in
    if negb (is_list (_channel_names h)) then raise names_error else
    let! first := lift (py_getitem (_channel_names h) 0) in
    if is_str first then raise names_error else
    (if negb (_inter_brain h) && is_list first
     then assign (set_channel_names (PList [_channel_names h; _channel_names h]))
     else ret tt) ;;
    let! dims := lift (match _is_epoched h, shape (_data1 h) with
                       | true, [e; c; s] => Ok (e, c, s)
                       | false, [c; s] => Ok (1, c, s)
                       | _, _ => Raise (ValueError "unpack")
                       end) in
    let '(e, c, s) := dims in
    assign (set_dims e c s) ;;
    let n_channels := c in
    let! h := self in
    let! mismatch := lift (any_len_differs n_channels (items (_channel_names h))) in
    if mismatch then
      raise (ValueError "The number of channels in time-series data does not match the length of channel_names.")
    else
      let! names0 := lift (py_getitem (_channel_names h) 0) in
      let! len0 := lift (py_len names0) in
      assign (set_channel_indices1 (arange len0)) ;;
      let! count := lift (py_len (_channel_names h)) in
      if 1 <? count then
        let! names1 := lift (py_getitem (_channel_names h) 1) in
        let! len1 := lift (py_len names1) in
        assign (set_channel_indices2 (arange len1))
      else
        (* [self._channel_indices2.copy()] *)
        ret tt.

(** [HyperIT(data1, data2, channel_names, verbose)]; starting the JVM is
    outside the model.  [n_epo], [n_chan] and [n_samples] do not exist
    before [__check_data] assigns them; they are read only afterwards. *)
Definition init (data1 data2 : ndarray) (channel_names : pyval) (verbose : bool)
  : result HyperIT :=
  let h0 := {| _channel_names := channel_names;
               _channel_indices1 := PList [];
               _channel_indices2 := PList [];
               _all_data := (data1, data2);
               _data1 := data1;
               _data2 := data2;
               _roi := [];
               _roi_specified := false;
               _scale_of_organisation := 1;
               _soi_groups := None;
               _inter_brain := negb (array_equal data1 data2);
               _is_epoched := ndim data1 =? 3;
               _initialise_parameter := None;
               verbose := verbose;
               n_epo := 0; n_chan := 0; n_samples := 0 |} in
  match check_data h0 with
  | (h, Ok _) => Ok h
  | (_, Raise e) => Raise e
  end.

(** *** Region of interest *)

(** [channel_names.index(name) if isinstance(name, str) else name]. *)
Definition name_to_index (channel_names name : pyval) : result pyval :=
  match name with
  | PStr s => let* i := py_index channel_names s in Ok (PInt (Z.of_nat i))
  | _ => Ok name
  end.

Definition convert_names_to_indices (h : HyperIT) (roi_part : pyval) (participant : nat)
  : result pyval :=
  let* channel_names := py_getitem (_channel_names h) participant in
  match roi_part with
  | PList l =>
      if forallb is_list l then
        (* a list of groups *)
        let* groups :=
          mapR (fun group => let* g := mapR (name_to_index channel_names) (items group) in
                             Ok (PList g)) l in
        Ok (PList groups)
      else
        (* a simple list *)
        let* idx := mapR (name_to_index channel_names) l in Ok (PList idx)
  | PStr s =>
      if bool_decide (s = "") then Ok (PList [])
      else let* i := py_index channel_names s in Ok (PList [PInt (Z.of_nat i)])
  | PInt _ => Raise TypeError
  end.

(** [roi1, roi2 = roi_list]. *)
Definition unpack2 (roi_list : list pyval) : result (pyval * pyval) :=
  match roi_list with
  | [roi1; roi2] => Ok (roi1, roi2)
  | [] | [_] =>
      Raise (ValueError ("not enough values to unpack (expected 2, got "
                         +:+ pretty (length roi_list) +:+ ")"))
  | _ => Raise (ValueError "too many values to unpack (expected 2)")
  end.

(** The two structural tests of the setter. *)
Definition pointwise_structure (roi_list : list pyval) : bool :=
  forallb (fun sublist => is_list sublist && negb (existsb is_list (items sublist))) roi_list.
Definition grouped_structure (roi_list : list pyval) : bool :=
  forallb (fun sublist => is_list sublist && forallb is_list (items sublist)) roi_list.

(** [[len(group) for half in roi_list for group in half]]. *)
Definition group_lengths (roi_list : list pyval) : list nat :=
  flat_map (fun half => map (fun group => length (items group)) (items half)) roi_list.

(** The setter [HyperIT.roi = roi_list]. *)
Definition roi_setter (roi_list : list pyval) : method unit :=
  assign (set_roi_specified true) ;;
  (if pointwise_structure roi_list then
     assign (set_scale_of_organisation 1)
   else if grouped_structure roi_list then
     let! half_x := lift (of_option IndexError (roi_list !! 0)) in
     let num_groups_x := length (items half_x) in
     let! half_y := lift (of_option IndexError (roi_list !! 1)) in
     let num_groups_y := length (items half_y) in
     if num_groups_x =? num_groups_y then
       assign (set_soi_groups (Some num_groups_x)) ;;
       if length (remove_dups (group_lengths roi_list)) =? 1 then
         let! g := lift (of_option IndexError (group_lengths roi_list !! 0)) in
         assign (set_scale_of_organisation g) ;;
         assign (set_initialise_parameter
                   (Some (PList [PInt (Z.of_nat g); PInt (Z.of_nat g)])))
       else
         raise (ValueError "Not all groups have the same number of channels.")
     else
       raise (ValueError "ROI halves do not have the same number of channel groups per participant.")
   else
     raise (ValueError "ROI structure is not recognised.")) ;;
  let! h := self in
  (* the verbose report reads [self._soi_groups] *)
  (if verbose h
   then match _soi_groups h with None => raise AttributeError | Some _ => ret tt end
   else ret tt) ;;
  let! parts := lift (unpack2 roi_list) in
  let '(roi1, roi2) := parts in
  let! h := self in
  let! ci1 := lift (convert_names_to_indices h roi1 0) in
  assign (set_channel_indices1 ci1) ;;
  let! ci2 := lift (convert_names_to_indices h roi2 1) in
  assign (set_channel_indices2 ci2) ;;
  let! h := self in
  (if _scale_of_organisation h =? 1 then
     (if _is_epoched h then
        let! d1 := lift (cols_at (_data1 h) ci1) in
        assign (set_data1 d1) ;;
        let! h := self in
        let! d2 := lift (cols_at (_data2 h) ci2) in
        assign (set_data2 d2)
      else
        let! d1 := lift (rows_at (_data1 h) ci1) in
        assign (set_data1 d1) ;;
        let! h := self in
        let! d2 := lift (rows_at (_data2 h) ci2) in
        assign (set_data2 d2)) ;;
     let! n := lift (py_len ci1) in
     assign (set_n_chan n)
   else ret tt) ;;
  assign (set_roi [ci1; ci2]).

Definition reset_roi : method unit :=
  assign (set_roi_specified false) ;;
  assign (set_scale_of_organisation 1) ;;
  let! h := self in
  let! names0 := lift (py_getitem (_channel_names h) 0) in
  let! len0 := lift (py_len names0) in
  assign (set_channel_indices1 (arange len0)) ;;
  let! count := lift (py_len (_channel_names h)) in
  let! len1 := (if 1 <? count
                then let! names1 := lift (py_getitem (_channel_names h) 1) in lift (py_len names1)
                else ret len0) in
  assign (set_channel_indices2 (arange len1)) ;;
  assign (set_roi [arange len0; arange len1]) ;;
  assign (fun h => set_data2 (snd (_all_data h)) (set_data1 (fst (_all_data h)) h)) ;;
  assign (set_n_chan len0).

(** Small inputs used in the examples below. *)
Definition names (l : list string) : pyval := PList (map PStr l).
Definition ints (l : list Z) : pyval := PList (map PInt l).
(** A sequence of samples as a one-dimensional array. *)
Definition array1 (x : list Q) : ndarray := Ar (map Sc x).
Definition vec (l : list Z) : ndarray := array1 (map inject_Z l).
Definition mat (l : list (list Z)) : ndarray := Ar (map vec l).

Definition demo_a : ndarray := mat [[0; 1; 2; 3]; [4; 6; 8; 9]; [1; 0; 1; 5]]%Z.
Definition demo_b : ndarray := mat [[3; 1; 4; 1]; [5; 9; 2; 6]; [5; 3; 5; 8]]%Z.
Definition demo_names : pyval := PList [names ["C1"; "C2"; "C3"]; names ["C1"; "C2"; "C3"]].

(** ** Numerics shared by the histogram and symbolic estimators *)

(** A float64 result: an exact real, or one of the IEEE special values. *)
Inductive npfloat : Type :=
  | Fin (r : R)
  | PInf
  | NInf
  | NaN.

(** [x / y] on floats; the sign of a zero divisor is taken positive. *)
Definition fdiv (x y : npfloat) : npfloat :=
  match x, y with
  | NaN, _ | _, NaN => NaN
  | Fin a, Fin b =>
      if Req_EM_T b 0 then
        if Req_EM_T a 0 then NaN else if Rlt_dec 0 a then PInf else NInf
      else Fin (a / b)
  | Fin _, _ => Fin 0
  | PInf, Fin b => if Rlt_dec b 0 then NInf else PInf
  | NInf, Fin b => if Rlt_dec b 0 then PInf else NInf
  | _, _ => NaN
  end.

Definition fadd (x y : npfloat) : npfloat :=
  match x, y with
  | NaN, _ | _, NaN => NaN
  | Fin a, Fin b => Fin (a + b)
  | PInf, NInf | NInf, PInf => NaN
  | PInf, _ | _, PInf => PInf
  | NInf, _ | _, NInf => NInf
  end.

(** [np.ceil]. *)
Definition fceil (x : npfloat) : npfloat :=
  match x with
  | Fin r => Fin (IZR (Zceil r))
  | _ => x
  end.

(** [int(x)]: truncation; infinities and NaN cannot be converted. *)
Definition to_int (x : npfloat) : result Z :=
  match x with
  | Fin r => Ok (if Rlt_dec r 0 then Zceil r else Zfloor r)
  | PInf | NInf => Raise OverflowError
  | NaN => Raise (ValueError "cannot convert float NaN to integer")
  end.

#[local] Instance Qle_dec (x y : Q) : Decision (Qle x y) :=
  match Qlt_le_dec y x with
  | left H => right (Qlt_not_le y x H)
  | right H => left H
  end.

Definition Qmaximum (x : Q) (l : list Q) : Q := fold_left (fun a b => if Qle_bool a b then b else a) l x.
Definition Qminimum (x : Q) (l : list Q) : Q := fold_left (fun a b => if Qle_bool b a then b else a) l x.

(** [np.ptp(X)]: the range of all entries. *)
Definition ptp (X : ndarray) : result Q :=
  match ravel X with
  | [] => Raise (ValueError "zero-size array to reduction operation maximum which has no identity")
  | x :: l => Ok (Qmaximum x l - Qminimum x l)%Q
  end.

(** [np.percentile(s, q)] with linear interpolation, [s] already sorted
    and [q] a whole percentage: the virtual index [q/100 * (n - 1)], the
    entries on either side of it, and the interpolation between them. *)
Definition vindex (n : nat) (q : Z) : Q := ((q # 100) * inject_Z (Z.of_nat (n - 1)))%Q.
Definition lo_index (n : nat) (q : Z) : nat := Z.to_nat (Qfloor (vindex n q)).
Definition hi_index (n : nat) (q : Z) : nat := Nat.min (lo_index n q + 1) (n - 1).

Definition percentile (s : list Q) (q : Z) : Q :=
  let n := length s in
  let lo := nth (lo_index n q) s 0%Q in
  let hi := nth (hi_index n q) s 0%Q in
  let gamma := (vindex n q - inject_Z (Z.of_nat (lo_index n q)))%Q in
  (lo + (hi - lo) * gamma)%Q.

(** [scipy.stats.iqr(X)]: 75th minus 25th percentile of all entries. *)
Definition iqr (X : ndarray) : Q :=
  let s := merge_sort Qle (ravel X) in
  (percentile s 75 - percentile s 25)%Q.

(** [len(X)]. *)
Definition np_len (X : ndarray) : result nat :=
  match X with
  | Sc _ => Raise TypeError
  | Ar l => Ok (length l)
  end.

(** The divisor [2.0 * stats.iqr(X) * len(X)**(-1/3)]. *)
Definition fd_divisor (X : ndarray) (n : nat) : R :=
  (2 * Q2R (iqr X) * Rpower (INR n) (- 1 / 3))%R.

(** [np.ceil(np.ptp(X) / (2.0 * stats.iqr(X) * len(X)**(-1/3)))]. *)
Definition fd_bins_of (X : ndarray) : result npfloat :=
  let* range := ptp X in
  let* n := np_len X in
  Ok (fceil (fdiv (Fin (Q2R range)) (Fin (fd_divisor X n)))).

(** The Freedman-Diaconis bin count of a pair of sequences. *)
Definition calc_fd_bins (X Y : ndarray) : result Z :=
  let* fd_bins_X := fd_bins_of X in
  let* fd_bins_Y := fd_bins_of Y in
  to_int (fceil (fdiv (fadd fd_bins_X fd_bins_Y) (Fin 2))).

(** [np.linspace(lo, hi, bins + 1)]. *)
Definition linspace (lo hi : Q) (bins : nat) : list Q :=
  map (fun k => (lo + inject_Z (Z.of_nat k) * (hi - lo) / inject_Z (Z.of_nat bins))%Q)
      (seq 0 (bins + 1)).

(** The bin edges numpy derives from the data range. *)
Definition bin_edges (x : list Q) (bins : nat) : list Q :=
  let '(lo, hi) := match x with
                   | [] => (0, 1)%Q
                   | a :: l => (Qminimum a l, Qmaximum a l)
                   end in
  if Qeq_bool lo hi then linspace (lo - (1 # 2)) (hi + (1 # 2)) bins
  else linspace lo hi bins.

(** The bin of a sample: [searchsorted(edges, v, side='right')], the
    right-most edge counted into the last bin. *)
Definition bin_of (edges : list Q) (v : Q) : nat :=
  let c := length (filter (fun e => Qle e v) edges) in
  let c := if Qeq_bool v (List.last edges 0%Q) then c - 1 else c in
  c - 1.

Definition count_pairs (bx by_ : list nat) (i j : nat) : nat :=
  length (filter (fun p => p = (i, j)) (zip bx by_)).

(** A [b] by [b] array given by its entries. *)
Definition table {A} (b : nat) (F : nat -> nat -> A) : list (list A) :=
  map (fun i => map (fun j => F i j) (seq 0 b)) (seq 0 b).

(** [np.histogram2d(x, y, bins)[0]] for one-dimensional [x] and [y]:
    the matrix of joint counts. *)
Definition histogram2d (X Y : ndarray) (bins : Z) : result (list (list nat)) :=
  match as_1d X, as_1d Y with
  | Some x, Some y =>
      if negb (length x =? length y) then Raise (ValueError "x and y must have the same length.")
      else if (bins <? 1)%Z then Raise (ValueError "bins must be positive, when an integer")
      else
        let b := Z.to_nat bins in
        let bx := map (bin_of (bin_edges x b)) x in
        let by_ := map (bin_of (bin_edges y b)) y in
        Ok (table b (count_pairs bx by_))
  | _, _ => Raise (ValueError "too many values to unpack (expected 2)")
  end.

Definition Rsum (l : list R) : R := fold_right Rplus 0%R l.
Definition log2 (x : R) : R := (ln x / ln 2)%R.
(** [np.finfo(float).eps]. *)
Definition eps : R := (/ 2 ^ 52)%R.

(** [-np.sum(p * np.log2(p + eps))]. *)
Definition entropy (p : list R) : R :=
  (- Rsum (map (fun v => v * log2 (v + eps)) p))%R.

Definition column {A} (d : A) (m : list (list A)) (j : nat) : list A :=
  map (fun r => nth j r d) m.

(** The three-entropy mutual information of a matrix of joint counts. *)
Definition mi_of_counts (j_hist : list (list nat)) : R :=
  let total := Rsum (map INR (concat j_hist)) in
  let pxy := map (map (fun c => (INR c / total)%R)) j_hist in
  let px := map Rsum pxy in
  let py := map (fun j => Rsum (column 0%R pxy j)) (seq 0 (length (hd [] pxy))) in
  let Hx := entropy px in
  let Hy := entropy py in
  let Hxy := entropy (concat pxy) in
  (Hx + Hy - Hxy)%R.

(** The epoch loop the two estimators share:
    [X, Y = (s1[epo_i, :], s2[epo_i, :]) if self._is_epoched else (s1, s2)]. *)
Definition epoch_pair (h : HyperIT) (s1 s2 : ndarray) (epo_i : nat)
  : result (ndarray * ndarray) :=
  if _is_epoched h then
    let* X := row s1 epo_i in
    let* Y := row s2 epo_i in
    Ok (X, Y)
  else Ok (s1, s2).

(** [__mi_hist]: one row [[result]] per epoch. *)
Definition mi_hist (h : HyperIT) (s1 s2 : ndarray) : result (list (list R)) :=
  mapR (fun epo_i =>
          let* XY := epoch_pair h s1 s2 epo_i in
          let '(X, Y) := XY in
          let* bins := calc_fd_bins X Y in
          let* j_hist := histogram2d X Y bins in
          Ok [mi_of_counts j_hist])
       (seq 0 (n_epo h)).

(** ** The symbolic estimator *)

(** Row [i] of the stacked array: [Y[i] = X[i*l : i*l + N]], which
    must fill the row. *)
Definition lagged_copy (N l : nat) (x : list Q) (i : nat) : result (list Q) :=
  let piece := take N (drop (i * l) x) in
  if length piece =? N then Ok piece
  else Raise (ValueError "could not broadcast input array").

(** [symb_symbolise(X, l, m)]: the [m] lagged copies [X[i*l : i*l + N]]
    stacked and transposed, one ordinal window per row. *)
Definition symb_symbolise (X : ndarray) (l m : nat) : result (list (list Q)) :=
  match as_1d X with
  | None => Raise (ValueError "could not broadcast input array")
  | Some x =>
      let N := (Z.of_nat (length x) - (Z.of_nat m - 1) * Z.of_nat l)%Z in
      if (N <? 0)%Z then Raise (ValueError "negative dimensions are not allowed")
      else
        let* Y := mapR (lagged_copy (Z.to_nat N) l x) (seq 0 m) in
        Ok (map (fun k => column 0%Q Y k) (seq 0 (Z.to_nat N)))
  end.

Fixpoint insert_sorted (p : Q * nat) (sorted : list (Q * nat)) : list (Q * nat) :=
  match sorted with
  | [] => [p]
  | q :: rest =>
      if Qle_bool (fst q) (fst p) then q :: insert_sorted p rest
      else p :: q :: rest
  end.

(** [w.argsort(kind='quicksort')] on a short row: the positions of the
    entries in ascending order, equal entries in their original order
    (numpy sorts partitions of at most 16 entries by insertion). *)
Definition argsort (w : list Q) : list nat :=
  map snd (fold_left (fun acc p => insert_sorted p acc) (zip w (seq 0 (length w))) []).

(** [(np.multiply(ranks, symbol_weights)).sum(1)] for one row, with
    [symbol_weights = np.power(m, np.arange(m))]. *)
Definition symbol_hash (m : nat) (ranks : list nat) : nat :=
  list_sum (map (fun p => fst p * m ^ snd p) (zip ranks (seq 0 m))).

(** A Python [dict] of counts, in insertion order. *)
Definition counts : Type := list (string * nat).

(** [d[key] = d.get(key, 0) + 1]. *)
Fixpoint incr (key : string) (d : counts) : counts :=
  match d with
  | [] => [(key, 1)]
  | (k, v) :: d' => if bool_decide (k = key) then (k, v + 1) :: d' else (k, v) :: incr key d'
  end.

Definition count_total (d : counts) : nat := list_sum (map snd d).

(** The keys [f"{hx},{hy}"] and [str(hx)] of the three dictionaries. *)
Definition joint_key (hx hy : nat) : string := pretty hx +:+ "," +:+ pretty hy.
Definition marginal_key (hx : nat) : string := pretty hx.

(** One pass of the counting loop. *)
Definition count_step (hash_X hash_Y : list nat) (d : counts * counts * counts) (i : nat)
  : result (counts * counts * counts) :=
  let '(p_xy, p_x, p_y) := d in
  let* hx := of_option IndexError (hash_X !! i) in
  let* hy := of_option IndexError (hash_Y !! i) in
  let xy := joint_key hx hy in
  let x := marginal_key hx in
  let y := marginal_key hy in
  Ok (incr xy p_xy, incr x p_x, incr y p_y).

(** The counting loop [for i in range(len(symbol_hash_X) - 1)]. *)
Definition symb_count (hash_X hash_Y : list nat) : result (counts * counts * counts) :=
  foldM (count_step hash_X hash_Y) ([], [], []) (seq 0 (length hash_X - 1)).

(** The counts of all the keys of a list, for comparison with the loop. *)
Definition tally (keys : list string) : counts :=
  fold_left (fun d key => incr key d) keys [].

(** [np.array(list(symb_normalise_counts(d).values()))]. *)
Definition symb_normalise_counts (d : counts) : list R :=
  map (fun kv => (INR (snd kv) / INR (count_total d))%R) d.

Definition symbol_hashes (X : ndarray) (l m : nat) : result (list nat) :=
  let* windows := symb_symbolise X l m in
  Ok (map (fun w => symbol_hash m (argsort w)) windows).

(** One epoch of [__mi_symb]. *)
Definition mi_symb_epoch (X Y : ndarray) (l m : nat) : result R :=
  let* symbol_hash_X := symbol_hashes X l m in
  let* symbol_hash_Y := symbol_hashes Y l m in
  let* d := symb_count symbol_hash_X symbol_hash_Y in
  let '(p_xy, p_x, p_y) := d in
  let entropy_X := entropy (symb_normalise_counts p_x) in
  let entropy_Y := entropy (symb_normalise_counts p_y) in
  let entropy_XY := entropy (symb_normalise_counts p_xy) in
  Ok (entropy_X + entropy_Y - entropy_XY)%R.

(** [__mi_symb(s1, s2, l, m)]; the engine calls it with [l = 1], [m = 3]. *)
Definition mi_symb (h : HyperIT) (s1 s2 : ndarray) (l m : nat) : result (list (list R)) :=
  mapR (fun epo_i =>
          let* XY := epoch_pair h s1 s2 epo_i in
          let '(X, Y) := XY in
          let* r := mi_symb_epoch X Y l m in
          Ok [r])
       (seq 0 (n_epo h)).

(** ** The JIDT calculators *)

(** The permutation-test result returned by [computeSignificance]. *)
Record EmpiricalMeasurementDistribution : Type := {
  getMeanOfDistribution : R;
  getStdOfDistribution : R;
  pValue : R
}.

(** A JIDT calculator object, seen through the calls the engine makes.
    Each call returns the calculator as the call leaves it. *)
Class JIDT (Calc : Type) : Type := {
  (** [JPackage(package).Class()] *)
  JPackage : string -> string -> Calc;
  setProperty : Calc -> string -> string -> Calc;
  initialise : Calc -> list pyval -> Calc;
  setObservations : Calc -> ndarray -> ndarray -> Calc;
  computeAverageLocalOfObservations : Calc -> R * Calc;
  computeSignificance : Calc -> Z -> EmpiricalMeasurementDistribution * Calc
}.

(** The keyword arguments of a [compute_*] call: the text [str(v)] of a
    keyword when it is given, and [stat_sig_perm_num]. *)
Record kwargs : Type := {
  kw_str : string -> option string;
  kw_stat_sig_perm_num : option Z
}.

Definition no_kwargs : kwargs := {| kw_str := fun _ => None; kw_stat_sig_perm_num := None |}.

(** [str(self.params.get(key, default))]. *)
Definition param (params : kwargs) (key default : string) : string :=
  match kw_str params key with
  | Some v => v
  | None => default
  end.

(** The result tensor: source unit, target unit, epoch, statistic. *)
Abbreviation cell := (list (list R)) (only parsing).
Abbreviation tensor := (list (list (list (list R)))) (only parsing).

(** [np.zeros((a, b, c, d))]. *)
Definition zeros (a b c d : nat) : tensor :=
  replicate a (replicate b (replicate c (replicate d 0%R))).

(** [M[i, j]] and [M[i, j] = v]. *)
Definition lookup2 (M : tensor) (i j : nat) : option cell := M !! i ≫= fun r => r !! j.
Definition getitem2 (M : tensor) (i j : nat) : result cell :=
  of_option IndexError (lookup2 M i j).
Definition setitem2 (M : tensor) (i j : nat) (v : cell) : result tensor :=
  match M !! i with
  | Some r => if j <? length r then Ok (<[i := <[j := v]> r]> M) else Raise IndexError
  | None => Raise IndexError
  end.

(** [M[i, j, e, s]]. *)
Definition tensor_entry (M : tensor) (i j e s : nat) : option R :=
  lookup2 M i j ≫= fun c => c !! e ≫= fun st => st !! s.

(** The statistic axis of [M] has length [k]. *)
Definition stat_length (M : tensor) (k : nat) : Prop :=
  forall i j e stats, lookup2 M i j ≫= (fun c => c !! e) = Some stats -> length stats = k.

(** The lengths of the four axes. *)
Definition tensor_shape (M : tensor) : nat * nat * nat * nat :=
  (length M, length (hd [] M), length (hd [] (hd [] M)), length (hd [] (hd [] (hd [] M)))).

(** ** The matrix assembly engine *)

Section Engine.

Context {Calc : Type} `{JIDT Calc}.

Definition kraskov : string := "infodynamics.measures.continuous.kraskov".
Definition kernel : string := "infodynamics.measures.continuous.kernel".
Definition gaussian : string := "infodynamics.measures.continuous.gaussian".
Definition symbolic : string := "infodynamics.measures.continuous.symbolic".

Definition is_histogram (estimator_type : string) : bool :=
  bool_decide (estimator_type = "histogram").
Definition is_symbolic (estimator_type : string) : bool :=
  bool_decide (estimator_type = "symbolic").

(** [__which_mi_estimator]: the value of [self.calc_sigstats] it leaves
    and the calculator it creates, if any. *)
Definition which_mi_estimator (estimator_type : string) (calc_sigstats : bool)
    (params : kwargs) : result (bool * option Calc) :=
  let normalise c := setProperty c "NORMALISE" (param params "normalise" "True") in
  if is_histogram estimator_type then
    Ok (false, None)
  else if bool_decide (estimator_type = "ksg1") || bool_decide (estimator_type = "ksg") then
    let c := JPackage kraskov "MutualInfoCalculatorMultiVariateKraskov1" in
    Ok (calc_sigstats, Some (normalise (setProperty c "k" (param params "kraskov_param" "4"))))
  else if bool_decide (estimator_type = "ksg2") then
    let c := JPackage kraskov "MutualInfoCalculatorMultiVariateKraskov2" in
    Ok (calc_sigstats, Some (normalise (setProperty c "k" (param params "kraskov_param" "4"))))
  else if bool_decide (estimator_type = "kernel") then
    let c := JPackage kernel "MutualInfoCalculatorMultiVariateKernel" in
    Ok (calc_sigstats,
        Some (normalise (setProperty c "KERNEL_WIDTH" (param params "kernel_width" "0.25"))))
  else if bool_decide (estimator_type = "gaussian") then
    let c := JPackage gaussian "MutualInfoCalculatorMultiVariateGaussian" in
    Ok (calc_sigstats, Some (normalise c))
  else if is_symbolic estimator_type then
    Ok (false, None)
  else
    Raise (ValueError ("Estimator type " +:+ estimator_type
                       +:+ " not supported. Please choose from 'histogram', 'ksg1', 'ksg2', 'kernel', 'gaussian', 'symbolic'.")).

Definition te_history (params : kwargs) (c : Calc) : Calc :=
  let c := setProperty c "k_HISTORY" (param params "k" "1") in
  let c := setProperty c "k_TAU" (param params "k_tau" "1") in
  let c := setProperty c "l_HISTORY" (param params "l" "1") in
  let c := setProperty c "l_TAU" (param params "l_tau" "1") in
  setProperty c "DELAY" (param params "delay" "1").

(** [__which_te_estimator]; the symbolic branch overwrites
    [self._initialise_parameter] with [(2)], the integer. *)
Definition which_te_estimator (estimator_type : string) (params : kwargs) : method Calc :=
  let normalise c := setProperty c "NORMALISE" (lower (param params "normalise" "True")) in
  if bool_decide (estimator_type = "ksg") || bool_decide (estimator_type = "ksg1")
     || bool_decide (estimator_type = "ksg2") then
    let c := te_history params (JPackage kraskov "TransferEntropyCalculatorMultiVariateKraskov") in
    ret (normalise (setProperty c "k" (param params "kraskov_param" "4")))
  else if bool_decide (estimator_type = "kernel") then
    let c := JPackage kernel "TransferEntropyCalculatorMultiVariateKernel" in
    ret (normalise (setProperty c "KERNEL_WIDTH" (param params "kernel_width" "0.5")))
  else if bool_decide (estimator_type = "gaussian") then
    let c := te_history params (JPackage gaussian "TransferEntropyCalculatorMultiVariateGaussian") in
    ret (normalise (setProperty c "BIAS_CORRECTION"
                       (lower (param params "bias_correction" "False"))))
  else if is_symbolic estimator_type then
    let c := JPackage symbolic "TransferEntropyCalculatorSymbolic" in
    let c := setProperty c "k_HISTORY" (param params "k" "1") in
    assign (set_initialise_parameter (Some (PInt 2))) ;;
    ret (normalise c)
  else
    raise (ValueError ("Estimator type " +:+ estimator_type
                        +:+ " not supported. Please choose from 'ksg', 'kernel', 'gaussian', or 'symbolic'.")).

(** The arguments that reach [self.Calc.initialise]: the unpacked
    [self._initialise_parameter] when it is truthy, none otherwise. *)
Definition initialise_args (p : option pyval) : result (list pyval) :=
  match p with
  | None => Ok []
  | Some v =>
      if truthy v then
        match v with
        | PList l => Ok l
        | PStr s => Ok (chars s)
        | PInt _ => Raise TypeError
        end
      else Ok []
  end.

(** One pass of the epoch loop of [__estimate_it]: the row of epoch
    [epo_i] is appended to the rows so far. *)
Definition estimate_epoch (h : HyperIT) (calc_sigstats : bool) (stat_sig_perm_num : Z)
    (s1 s2 : ndarray) (st : cell * Calc) (epo_i : nat) : result (cell * Calc) :=
  let '(estimations, c) := st in
  let* XY := (if _is_epoched h
              then let* X := take0 s1 epo_i in
                   let* Y := take0 s2 epo_i in Ok (X, Y)
              else Ok (s1, s2)) in
  let '(X, Y) := XY in
  let '(X, Y) := if 1 <? _scale_of_organisation h then (T X, T Y) else (X, Y) in
  let* args := initialise_args (_initialise_parameter h) in
  let c := initialise c args in
  let c := setObservations c X Y in
  let '(r, c) := computeAverageLocalOfObservations c in
  let result := (r * ln 2)%R in
  if calc_sigstats then
    let '(stat_sig, c) := computeSignificance c stat_sig_perm_num in
    Ok (estimations ++ [[result; getMeanOfDistribution stat_sig;
                         getStdOfDistribution stat_sig; pValue stat_sig]], c)
  else
    Ok (estimations ++ [[result; 0; 0; 0]%R], c).

(** [__estimate_it]: the [(n_epo, 4)] array of estimate, null mean,
    null standard deviation and p-value per epoch, and the calculator
    as the call leaves it. *)
Definition estimate_it (h : HyperIT) (calc_sigstats : bool) (stat_sig_perm_num : Z)
    (c : Calc) (s1 s2 : ndarray) : result (cell * Calc) :=
  foldM (estimate_epoch h calc_sigstats stat_sig_perm_num s1 s2) ([], c) (seq 0 (n_epo h)).

(** [a[:, i, :]] for an integer [i]. *)
Definition col (a : ndarray) (i : nat) : result ndarray :=
  match a with
  | Sc _ => Raise IndexError
  | Ar epochs => let* es := mapR (fun ep => row ep i) epochs in Ok (Ar es)
  end.

(** The samples of source unit [i] and target unit [j]. *)
Definition pair_samples (h : HyperIT) (i j : nat) : result (ndarray * ndarray) :=
  if _scale_of_organisation h =? 1 then
    if _is_epoched h then
      let* s1 := col (_data1 h) i in
      let* s2 := col (_data2 h) j in Ok (s1, s2)
    else
      let* s1 := row (_data1 h) i in
      let* s2 := row (_data2 h) j in Ok (s1, s2)
  else if 1 <? _scale_of_organisation h then
    let* roi0 := of_option IndexError (_roi h !! 0) in
    let* group_i := py_getitem roi0 i in
    if _is_epoched h then
      let* s1 := cols_at (_data1 h) group_i in
      let* roi1 := of_option IndexError (_roi h !! 1) in
      let* group_j := py_getitem roi1 j in
      let* s2 := cols_at (_data2 h) group_j in Ok (s1, s2)
    else
      let* s1 := rows_at (_data1 h) group_i in
      let* roi1 := of_option IndexError (_roi h !! 1) in
      let* group_j := py_getitem roi1 j in
      let* s2 := rows_at (_data2 h) group_j in Ok (s1, s2)
  else
    (* neither branch binds [s1], [s2] *)
    Raise UnboundLocalError.

(** [self.n_chan if self._scale_of_organisation == 1 else self._soi_groups]. *)
Definition loop_range (h : HyperIT) : result nat :=
  if _scale_of_organisation h =? 1 then Ok (n_chan h)
  else of_option AttributeError (_soi_groups h).

(** The allocation of [self.mi_matrix]. *)
Definition mi_alloc (h : HyperIT) (estimator_type : string) : result tensor :=
  if is_histogram estimator_type || is_symbolic estimator_type then
    Ok (zeros (n_chan h) (n_chan h) (n_epo h) 1)
  else if _scale_of_organisation h =? 1 then
    Ok (zeros (n_chan h) (n_chan h) (n_epo h) 4)
  else
    let* g := of_option AttributeError (_soi_groups h) in
    Ok (zeros g g (n_epo h) 4).

(** The estimate of one pair in [compute_mi]. *)
Definition mi_estimate (h : HyperIT) (estimator_type : string) (calc_sigstats : bool)
    (stat_sig_perm_num : Z) (c : option Calc) (s1 s2 : ndarray)
  : result (cell * option Calc) :=
  if is_histogram estimator_type then
    let* v := mi_hist h s1 s2 in Ok (v, c)
  else if is_symbolic estimator_type then
    let* v := mi_symb h s1 s2 1 3 in Ok (v, c)
  else
    let* c := of_option AttributeError c in
    let* vc := estimate_it h calc_sigstats stat_sig_perm_num c s1 s2 in
    Ok (fst vc, Some (snd vc)).

(** The body of the double loop of [compute_mi]. *)
Definition mi_body (h : HyperIT) (estimator_type : string) (calc_sigstats : bool)
    (stat_sig_perm_num : Z) (st : option Calc * tensor) (i j : nat)
  : result (option Calc * tensor) :=
  let '(c, mi_matrix) := st in
  if _inter_brain h || negb (i =? j) then
    let* s := pair_samples h i j in
    let '(s1, s2) := s in
    let* vc := mi_estimate h estimator_type calc_sigstats stat_sig_perm_num c s1 s2 in
    let '(v, c) := vc in
    let* mi_matrix := setitem2 mi_matrix i j v in
    if negb (_inter_brain h) then
      let* v := getitem2 mi_matrix i j in
      let* mi_matrix := setitem2 mi_matrix j i v in
      Ok (c, mi_matrix)
    else Ok (c, mi_matrix)
  else Ok st.

(** [for i in range(n): for j in range(n): st = body st i j]. *)
Definition double_loop {St} (body : St -> nat -> nat -> result St) (n : nat) (st : St)
  : result St :=
  foldM (fun st i => foldM (fun st j => body st i j) st (seq 0 n)) st (seq 0 n).

(** [compute_mi], without the plot. *)
Definition compute_mi (h : HyperIT) (estimator_type : string) (calc_sigstats : bool)
    (params : kwargs) : result tensor :=
  let estimator_type := lower estimator_type in
  let stat_sig_perm_num := default 100%Z (kw_stat_sig_perm_num params) in
  let* est := which_mi_estimator estimator_type calc_sigstats params in
  let '(calc_sigstats, c) := est in
  let* mi_matrix := mi_alloc h estimator_type in
  let* n := loop_range h in
  let* st := double_loop (mi_body h estimator_type calc_sigstats stat_sig_perm_num)
                         n (c, mi_matrix) in
  Ok (snd st).

(** The allocation of [self.te_matrix_xy] and [self.te_matrix_yx]. *)
Definition te_alloc (h : HyperIT) : result tensor :=
  if _scale_of_organisation h =? 1 then
    Ok (zeros (n_chan h) (n_chan h) (n_epo h) 4)
  else
    let* g := of_option AttributeError (_soi_groups h) in
    Ok (zeros g g (n_epo h) 4).

(** The body of the double loop of [compute_te]. *)
Definition te_body (h : HyperIT) (calc_sigstats : bool) (stat_sig_perm_num : Z)
    (st : Calc * tensor * tensor) (i j : nat) : result (Calc * tensor * tensor) :=
  let '(c, te_matrix_xy, te_matrix_yx) := st in
  if _inter_brain h || negb (i =? j) then
    let* s := pair_samples h i j in
    let '(s1, s2) := s in
    let* vc := estimate_it h calc_sigstats stat_sig_perm_num c s1 s2 in
    let '(v, c) := vc in
    let* te_matrix_xy := setitem2 te_matrix_xy i j v in
    if _inter_brain h then
      let* wc := estimate_it h calc_sigstats stat_sig_perm_num c s2 s1 in
      let '(w, c) := wc in
      let* te_matrix_yx := setitem2 te_matrix_yx i j w in
      Ok (c, te_matrix_xy, te_matrix_yx)
    else Ok (c, te_matrix_xy, te_matrix_yx)
  else Ok st.

(** [compute_te], without the plots: the pair [(te_xy, te_yx)]. *)
Definition compute_te (estimator_type : string) (calc_sigstats : bool) (params : kwargs)
  : method (tensor * tensor) :=
  let estimator_type := lower estimator_type in
  let stat_sig_perm_num := default 100%Z (kw_stat_sig_perm_num params) in
  let! c := which_te_estimator estimator_type params in
  let! h := self in
  lift (let* te_matrix_xy := te_alloc h in
        let* te_matrix_yx := te_alloc h in
        let* n := loop_range h in
        let* st := double_loop (te_body h calc_sigstats stat_sig_perm_num)
                               n (c, te_matrix_xy, te_matrix_yx) in
        let '(_, te_xy, te_yx) := st in
        Ok (te_xy, te_yx)).

(** The width of the statistic axis that [compute_mi] allocates. *)
Definition mi_stats (estimator_type : string) : nat :=
  if is_histogram estimator_type || is_symbolic estimator_type then 1 else 4.

(** The estimator tokens that select a JIDT calculator with a
    parameterless [initialise]. *)
Definition mi_jidt_estimators : list string := ["ksg1"; "ksg"; "ksg2"; "kernel"; "gaussian"].
Definition te_jidt_estimators : list string := ["ksg"; "ksg1"; "ksg2"; "kernel"; "gaussian"].

(** Entry [(i, j)] of the two transfer-entropy matrices holds two
    consecutive estimates on the samples of the pair: first source to
    target, then target to source, on the calculator as the first
    estimate left it. *)
Definition te_pair_computed (h : HyperIT) (calc_sigstats : bool) (stat_sig_perm_num : Z)
    (te_xy te_yx : tensor) (i j : nat) : Prop :=
  exists s1 s2 c v c' w c'',
    pair_samples h i j = Ok (s1, s2)
    /\ estimate_it h calc_sigstats stat_sig_perm_num c s1 s2 = Ok (v, c')
    /\ estimate_it h calc_sigstats stat_sig_perm_num c' s2 s1 = Ok (w, c'')
    /\ lookup2 te_xy i j = Some v
    /\ lookup2 te_yx i j = Some w.

(** Every epoch that [__estimate_it] will index exists in both
    samples. *)
Definition epochs_ready (h : HyperIT) (s1 s2 : ndarray) : Prop :=
  _is_epoched h = true ->
  forall e, e < n_epo h -> exists X Y, take0 s1 e = Ok X /\ take0 s2 e = Ok Y.

End Engine.

(** ** Predicates used in the statements *)


(** The object as [__init__] leaves it for the signals [d1] and [d2]. *)
Definition fresh (d1 d2 : ndarray) (h : HyperIT) : Prop :=
  _data1 h = d1 /\ _data2 h = d2 /\ _scale_of_organisation h = 1
  /\ _initialise_parameter h = None /\ shape d1 = shape d2
  /\ _inter_brain h = negb (array_equal d1 d2)
  /\ ((_is_epoched h = false /\ shape d1 = [n_chan h; n_samples h] /\ n_epo h = 1)
      \/ (_is_epoched h = true /\ shape d1 = [n_epo h; n_chan h; n_samples h])).

(** The unit axes of a tensor have lengths [n] and [m]. *)
Definition dims (M : tensor) (n m : nat) : Prop :=
  length M = n /\ Forall (fun r => length r = m) M.

(** Every cell [M[i, j]] satisfies [P]. *)
Definition cells (M : tensor) (P : cell -> Prop) : Prop :=
  forall i j c, lookup2 M i j = Some c -> P c.

(** A cell with [e] epochs of [k] statistics each. *)
Definition cell_shape (e k : nat) (c : cell) : Prop :=
  length c = e /\ Forall (fun r => length r = k) c.

(** A cell whose statistics after the estimate are all zero. *)
Definition padded (c : cell) : Prop :=
  Forall (fun r : list R => forall s x, 1 <= s -> r !! s = Some x -> x = 0%R) c.

Definition symmetric (M : tensor) : Prop := forall a b, lookup2 M a b = lookup2 M b a.

(** The two ways [int()] rejects a float that is not finite. *)
Definition int_of_special (r : result Z) : Prop :=
  r = Raise OverflowError \/ r = Raise (ValueError "cannot convert float NaN to integer").

Definition channel_mismatch : exn :=
  ValueError "The number of channels in time-series data does not match the length of channel_names.".
Definition halves_mismatch : string :=
  "ROI halves do not have the same number of channel groups per participant.".
Definition groups_mismatch : string :=
  "Not all groups have the same number of channels.".

(** ** Objects and a calculator for the examples *)

(** A calculator that answers from the observations it holds, so that
    the engine can be run: the estimate is the sum of the first
    sequence minus twice the sum of the second, and the permutation test
    reports how many permutations were drawn before it. *)
Record demo_calc : Type := {
  observations : ndarray * ndarray;
  drawn : Z
}.

Definition demo_sum (a : ndarray) : R := Q2R (fold_right Qplus 0%Q (ravel a)).

#[export] Instance demo_jidt : JIDT demo_calc := {|
  JPackage _ _ := {| observations := (Ar [], Ar []); drawn := 0 |};
  setProperty c _ _ := c;
  initialise c _ := c;
  setObservations c X Y := {| observations := (X, Y); drawn := drawn c |};
  computeAverageLocalOfObservations c :=
    ((demo_sum (fst (observations c)) - 2 * demo_sum (snd (observations c)))%R, c);
  computeSignificance c n :=
    ({| getMeanOfDistribution := IZR (drawn c);
        getStdOfDistribution := 1;
        pValue := / 2 |},
     {| observations := observations c; drawn := drawn c + n |})
|}.

(** Two sources, three channels of four samples each, unepoched. *)
Definition demo_h : HyperIT :=
  mkHyperIT demo_names (arange 3) (arange 3) (demo_a, demo_b) demo_a demo_b
    [] false 1 None true false None false 1 3 4.

(** One source, two channels of four samples each, unepoched; the
    channel names are given as two lists. *)
Definition solo : ndarray := mat [[0; 1; 2; 3]; [4; 6; 8; 9]]%Z.
Definition solo_names : pyval := PList [names ["C1"; "C2"]; names ["C1"; "C2"]].
Definition solo_h : HyperIT :=
  mkHyperIT (PList [solo_names; solo_names]) (arange 2) (arange 2) (solo, solo) solo solo
    [] false 1 None false false None false 1 2 4.

(** [solo_h] after [roi = [[[0, 1]], [[0, 1]]]]: one group of two
    channels on each side. *)
Definition solo_grouped_roi : list pyval := [PList [ints [0; 1]%Z]; PList [ints [0; 1]%Z]].
Definition solo_grouped_h : HyperIT := fst (roi_setter solo_grouped_roi solo_h).

(** The grouped ROI of the cardinality example and one with an unknown
    channel name. *)
Definition uneven_roi : list pyval :=
  [PList [ints [1; 2]%Z; ints [3]%Z]; PList [ints [4; 5]%Z; ints [6]%Z]].
Definition unknown_name_roi : list pyval :=
  [PList [names ["C1"; "C2"]]; PList [names ["C1"; "XX"]]].

(** * The rest of the class and the functional module *)

(** ** Further methods of the class *)

(** [v[z]] for a signed integer [z]: a negative index counts from the
    end. *)
Definition py_getitem_z (v : pyval) (z : Z) : result pyval :=
  match v with
  | PList l => of_option IndexError (wrap_index (length l) z ≫= fun i => l !! i)
  | PStr s => of_option IndexError (wrap_index (String.length s) z ≫= fun i => chars s !! i)
  | PInt _ => Raise TypeError
  end.

(** [channel_names[index] if isinstance(index, int) else index]. *)
Definition index_to_name (channel_names index : pyval) : result pyval :=
  match index with
  | PInt z => py_getitem_z channel_names z
  | _ => Ok index
  end.

(** [__convert_indices_to_names]; an index array is a list of integers
    in this model, so [tolist] changes nothing.  The test
    [all(isinstance(item, list) for item in roi_part)] iterates
    [roi_part] first: an integer is rejected there, before the branch
    written for a single index. *)
Definition convert_indices_to_names (h : HyperIT) (roi_part : pyval) (participant : nat)
  : result pyval :=
  let* channel_names := py_getitem (_channel_names h) participant in
  match roi_part with
  | PList l =>
      if forallb is_list l then
        let* groups :=
          mapR (fun group => let* g := mapR (index_to_name channel_names) (items group) in
                             Ok (PList g)) l in
        Ok (PList groups)
      else
        let* ns := mapR (index_to_name channel_names) l in Ok (PList ns)
  | PStr s => if bool_decide (s = "") then Ok (PList []) else Ok roi_part
  | PInt _ => Raise TypeError
  end.

(** The format error of [__check_data]. *)
Definition names_error : exn :=
  ValueError "Channel names must be a list of strings or a list of lists of strings for inter-brain analysis.".


(** The rows that a list of signed indices selects from [rows], when each
    index is within range. *)
Definition select (rows : list ndarray) (l : list Z) : option (list ndarray) :=
  mapM (fun z => wrap_index (length rows) z ≫= fun i => rows !! i) l.

(** Retained channel [k]: [a[k, :]], or [a[:, k, :]] when epoched. *)
Definition channel (epoched : bool) (a : ndarray) (k : nat) : result ndarray :=
  if epoched then col a k else row a k.


(** The estimator tokens that [__which_mi_estimator] and
    [__which_te_estimator] accept. *)
Definition mi_estimators : list string :=
  ["histogram"; "ksg1"; "ksg"; "ksg2"; "kernel"; "gaussian"; "symbolic"].
Definition te_estimators : list string :=
  ["ksg"; "ksg1"; "ksg2"; "kernel"; "gaussian"; "symbolic"].

Definition mi_unsupported (estimator_type : string) : exn :=
  ValueError ("Estimator type " +:+ estimator_type
              +:+ " not supported. Please choose from 'histogram', 'ksg1', 'ksg2', 'kernel', 'gaussian', 'symbolic'.").
Definition te_unsupported (estimator_type : string) : exn :=
  ValueError ("Estimator type " +:+ estimator_type
              +:+ " not supported. Please choose from 'ksg', 'kernel', 'gaussian', or 'symbolic'.").

(** The value of [self.calc_sigstats] during the loops of [compute_mi]. *)
Definition mi_sigstats (estimator_type : string) (calc_sigstats : bool) : bool :=
  if bool_decide (estimator_type = "histogram") || bool_decide (estimator_type = "symbolic")
  then false else calc_sigstats.

(** The target unit of the first pair that the loops compute: [(0, 0)] on
    two sources, [(0, 1)] on one. *)
Definition first_pair (h : HyperIT) : nat := if _inter_brain h then 0 else 1.

Section EngineStatements.
Context {Calc : Type} `{JIDT Calc}.

(** Cell [(i, j)] of [M] holds an estimate made on the samples of source
    unit [a] and target unit [b]. *)
Definition mi_cell_from (h : HyperIT) (estimator_type : string) (calc_sigstats : bool)
    (stat_sig_perm_num : Z) (M : tensor) (i j a b : nat) : Prop :=
  exists s1 s2 (c : option Calc) v c',
    pair_samples h a b = Ok (s1, s2)
    /\ mi_estimate h estimator_type calc_sigstats stat_sig_perm_num c s1 s2 = Ok (v, c')
    /\ lookup2 M i j = Some v.

End EngineStatements.


(** ** Statements about the symbolic estimator *)


(** A string without a comma. *)
Fixpoint no_comma (s : string) : Prop :=
  match s with
  | EmptyString => True
  | String c s' => c <> ","%char /\ no_comma s'
  end.


(** ** The functional module [IT-Hyperscanning/it.py] *)

(** What the functions of the module raise: the exceptions above, the
    division of the accumulated integer 0 by zero epochs, and a failed
    [assert]. *)
Inductive raised : Type :=
  | Builtin (e : exn)
  | ZeroDivisionError
  | AssertionError (msg : string).

Inductive outcome (A : Type) : Type :=
  | Returns (a : A)
  | Raises (e : raised).
Arguments Returns {A} a.
Arguments Raises {A} e.

Definition obind {A B} (m : outcome A) (k : A -> outcome B) : outcome B :=
  match m with
  | Returns a => k a
  | Raises e => Raises e
  end.

Notation "'let+' x ':=' c1 'in' c2" := (obind c1 (fun x => c2))
  (at level 10, x pattern, c1 at level 100, c2 at level 200).

Definition of_result {A} (r : result A) : outcome A :=
  match r with
  | Ok a => Returns a
  | Raise e => Raises (Builtin e)
  end.

Fixpoint ofoldM {St X} (f : St -> X -> outcome St) (st : St) (l : list X) : outcome St :=
  match l with
  | [] => Returns st
  | x :: l' => let+ st' := f st x in ofoldM f st' l'
  end.

(** [a.shape[k]]. *)
Definition axis (a : ndarray) (k : nat) : result nat := of_option IndexError (shape a !! k).

(** A two-axis result matrix, [np.zeros((n, n))] and [M[i, j] = v]. *)
Abbreviation matrix := (list (list R)) (only parsing).

Definition zeros2 (n : nat) : matrix := replicate n (replicate n 0%R).

Definition setitem (M : matrix) (i j : nat) (v : R) : result matrix :=
  match M !! i with
  | Some r => if j <? length r then Ok (<[i := <[j := v]> r]> M) else Raise IndexError
  | None => Raise IndexError
  end.

Definition entry2 (M : matrix) (i j : nat) : option R := M !! i ≫= fun r => r !! j.

(** Python's [round] of a quotient of integers: to the nearest integer,
    a tie to the even one. *)
Definition round_half_even (q : Q) : Z :=
  let f := Qfloor q in
  let r := (q - inject_Z f)%Q in
  if Qlt_le_dec r (1 # 2) then f
  else if Qlt_le_dec (1 # 2) r then (f + 1)%Z
  else if Z.even f then f else (f + 1)%Z.

Module Legacy.

Definition epochs_mismatch : string :=
  "Data passed should have the same number of epochs for each participant.".

Definition unepoched_3d (ndim : nat) : exn :=
  ValueError ("is_epoched is set to False but EEG signals passed have " +:+ pretty ndim
              +:+ " dimensions. For unepoched data, expected 2 dimensions with shape (n_channels, n_timepoints); for epoched data, expected 3 dimensions with shape (n_epochs, n_channels, n_samples)").

Definition too_many_axes (ndim : nat) : exn :=
  ValueError ("The EEG signals passed do not have the correct shape. Expected 2 dimensions (n_chan, time_points) or 3 dimensions (n_epochs, n_chan, time_points); instead, received "
              +:+ pretty ndim +:+ ".").

(** [check_eeg_data]; the argument is an array by its type.  The
    assertion compares [data[0].shape[0]] with [data[1].shape[0]]. *)
Definition check_eeg_data (data : ndarray) (is_epoched : bool) : outcome ndarray :=
  let+ d0 := of_result (take0 data 0) in
  let+ n0 := of_result (axis d0 0) in
  let+ d1 := of_result (take0 data 1) in
  let+ n1 := of_result (axis d1 0) in
  if negb (n0 =? n1) then Raises (AssertionError epochs_mismatch)
  else if (ndim data =? 3) && negb is_epoched then Raises (Builtin (unepoched_3d (ndim data)))
  else if 3 <? ndim data then Raises (Builtin (too_many_axes (ndim data)))
  else Returns data.


(** [X, Y = (s1[epo_i, :], s2[epo_i, :]) if is_epoched else (s1, s2)]. *)
Definition epoch_rows (is_epoched : bool) (s1 s2 : ndarray) (epo_i : nat)
  : result (ndarray * ndarray) :=
  if is_epoched then
    let* X := row s1 epo_i in
    let* Y := row s2 epo_i in
    Ok (X, Y)
  else Ok (s1, s2).




(** The keyword arguments of [compute_mi]: the entry [bins], which the
    function reads and sets, and the others. *)
Record mi_kwargs (K : Type) : Type := Kwargs { kw_bins : option Z; kw_others : K }.
Arguments Kwargs {K} kw_bins kw_others.
Arguments kw_bins {K} _.
Arguments kw_others {K} _.

Definition unsupported_mi_mode (mode : string) : exn :=
  ValueError ("Unsupported mode '" +:+ mode
              +:+ "'. Supported modes are: ['hist', 'ksg', 'kernel', 'gaussian', 'symbolic'].").

Section MiAssembly.

(** The five estimator functions as [compute_mi] calls them, with the
    keyword arguments unpacked by the call: the assembly is stated for
    any functions of the samples. *)
Context {K : Type}.
Variables mi_hist mi_ksg mi_kernel mi_gaussian mi_symbolic_kw
  : ndarray -> ndarray -> bool -> mi_kwargs K -> outcome R.

Definition mi_estimation_methods (mode : string)
  : option (ndarray -> ndarray -> bool -> mi_kwargs K -> outcome R) :=
  if bool_decide (mode = "hist") then Some mi_hist
  else if bool_decide (mode = "ksg") then Some mi_ksg
  else if bool_decide (mode = "kernel") then Some mi_kernel
  else if bool_decide (mode = "gaussian") then Some mi_gaussian
  else if bool_decide (mode = "symbolic") then Some mi_symbolic_kw
  else None.

(** One pass of the loops that average the Freedman-Diaconis bin count:
    [range(chan_i, n_chan)] is [seq chan_i (n_chan - chan_i)]. *)
Definition fd_body (is_epoched : bool) (signal1 signal2 : ndarray)
    (st : Z * Z) (chan_i chan_j : nat) : outcome (Z * Z) :=
  let '(fd_bins_tot, tot) := st in
  let+ x := of_result (channel is_epoched signal1 chan_i) in
  let+ y := of_result (channel is_epoched signal2 chan_j) in
  let+ fd_bins := of_result (calc_fd_bins x y) in
  Returns (fd_bins_tot + fd_bins, tot + 1)%Z.

(** [round(fd_bins_tot / tot)].  The quotient of two integers is taken
    exactly; the float quotient rounds to the same integer as long as
    [fd_bins_tot] is below [2**52]. *)
Definition average_fd_bins (is_epoched : bool) (signal1 signal2 : ndarray) (n_chan : nat)
  : outcome Z :=
  let+ st := ofoldM (fun st chan_i =>
                       ofoldM (fun st chan_j => fd_body is_epoched signal1 signal2 st chan_i chan_j)
                              st (seq chan_i (n_chan - chan_i)))
                    (0, 0)%Z (seq 0 n_chan) in
  let '(fd_bins_tot, tot) := st in
  if (tot =? 0)%Z then Raises ZeroDivisionError
  else Returns (round_half_even (fd_bins_tot # Z.to_pos tot)).

(** The body of the double loop of [compute_mi]. *)
Definition mi_body (mi_func : ndarray -> ndarray -> bool -> mi_kwargs K -> outcome R)
    (inter_brain is_epoched : bool) (signal1 signal2 : ndarray) (kwargs : mi_kwargs K)
    (mi_matrix : matrix) (i j : nat) : outcome matrix :=
  if inter_brain || negb (i =? j) then
    let+ s1 := of_result (channel is_epoched signal1 i) in
    let+ s2 := of_result (channel is_epoched signal2 j) in
    let+ v := mi_func s1 s2 is_epoched kwargs in
    let+ mi_matrix := of_result (setitem mi_matrix i j v) in
    if negb inter_brain then
      let+ w := of_result (of_option IndexError (entry2 mi_matrix i j)) in
      of_result (setitem mi_matrix j i w)
    else Returns mi_matrix
  else Returns mi_matrix.

Definition compute_mi (eeg_1 : ndarray) (eeg_2 : option ndarray) (is_epoched : bool)
    (mode : string) (kwargs : mi_kwargs K) : outcome matrix :=
  let inter_brain := match eeg_2 with Some _ => true | None => false end in
  let+ signal1 := check_eeg_data eeg_1 is_epoched in
  let+ signal2 := match eeg_2 with
                  | Some eeg_2 => check_eeg_data eeg_2 is_epoched
                  | None => Returns signal1
                  end in
  let+ n_chan := of_result (axis signal1 (if is_epoched then 1 else 0)) in
  match mi_estimation_methods mode with
  | None => Raises (Builtin (unsupported_mi_mode mode))
  | Some mi_func =>
      let+ kwargs := match kw_bins kwargs with
                     | None =>
                         if bool_decide (mode = "hist") then
                           let+ bins := average_fd_bins is_epoched signal1 signal2 n_chan in
                           Returns (Kwargs (Some bins) (kw_others kwargs))
                         else Returns kwargs
                     | Some _ => Returns kwargs
                     end in
      ofoldM (fun mi_matrix i =>
                let start_j := if inter_brain then 0 else i in
                ofoldM (fun mi_matrix j =>
                          mi_body mi_func inter_brain is_epoched signal1 signal2 kwargs
                                  mi_matrix i j)
                       mi_matrix (seq start_j (n_chan - start_j)))
             (zeros2 n_chan) (seq 0 n_chan)
  end.

End MiAssembly.

(** What [compute_te] returns: two matrices for two participants, one
    for a single participant. *)
Inductive te_matrices : Type :=
  | Both (te_matrix_xy te_matrix_yx : matrix)
  | Single (te_matrix_xy : matrix).

Definition unsupported_te_mode (mode : string) : exn :=
  ValueError ("Unsupported mode '" +:+ mode
              +:+ "'. Supported modes are: ['ksg', 'kernel', 'gaussian', 'symbolic'].").

Section Assembly.

(** The keyword arguments handed on to the estimator, and the four
    estimator functions, which call JIDT: the assembly is stated for any
    functions of the samples. *)
Context {K : Type}.
Variables te_ksg te_kernel te_gaussian te_symbolic : ndarray -> ndarray -> bool -> K -> outcome R.

Definition te_estimation_methods (mode : string)
  : option (ndarray -> ndarray -> bool -> K -> outcome R) :=
  if bool_decide (mode = "ksg") then Some te_ksg
  else if bool_decide (mode = "kernel") then Some te_kernel
  else if bool_decide (mode = "gaussian") then Some te_gaussian
  else if bool_decide (mode = "symbolic") then Some te_symbolic
  else None.

(** The body of the double loop of [compute_te]. *)
Definition te_body (te_func : ndarray -> ndarray -> bool -> K -> outcome R)
    (inter_brain is_epoched : bool) (signal1 signal2 : ndarray) (kwargs : K)
    (st : matrix * matrix) (i j : nat) : outcome (matrix * matrix) :=
  let '(te_matrix_xy, te_matrix_yx) := st in
  if inter_brain || negb (i =? j) then
    let+ s1 := of_result (channel is_epoched signal1 i) in
    let+ s2 := of_result (channel is_epoched signal2 j) in
    let+ v := te_func s1 s2 is_epoched kwargs in
    let+ te_matrix_xy := of_result (setitem te_matrix_xy i j v) in
    if inter_brain then
      let+ w := te_func s2 s1 is_epoched kwargs in
      let+ te_matrix_yx := of_result (setitem te_matrix_yx i j w) in
      Returns (te_matrix_xy, te_matrix_yx)
    else Returns (te_matrix_xy, te_matrix_yx)
  else Returns st.

Definition compute_te (eeg_1 : ndarray) (eeg_2 : option ndarray) (is_epoched : bool)
    (mode : string) (kwargs : K) : outcome te_matrices :=
  let inter_brain := match eeg_2 with Some _ => true | None => false end in
  let+ signal1 := check_eeg_data eeg_1 is_epoched in
  let+ signal2 := match eeg_2 with
                  | Some eeg_2 => check_eeg_data eeg_2 is_epoched
                  | None => Returns signal1
                  end in
  let+ n_chan := of_result (axis signal1 (if is_epoched then 1 else 0)) in
  match te_estimation_methods mode with
  | None => Raises (Builtin (unsupported_te_mode mode))
  | Some te_func =>
      let+ st := ofoldM (fun st i =>
                           ofoldM (fun st j =>
                                     te_body te_func inter_brain is_epoched
                                             signal1 signal2 kwargs st i j)
                                  st (seq 0 n_chan))
                        (zeros2 n_chan, zeros2 n_chan) (seq 0 n_chan) in
      let '(te_matrix_xy, te_matrix_yx) := st in
      if inter_brain then Returns (Both te_matrix_xy te_matrix_yx)
      else Returns (Single te_matrix_xy)
  end.

End Assembly.

End Legacy.

Section LegacyStatements.
Context {K : Type}.

(** Entry [(i, j)] of [M] is the value that [estimator] returns for
    channel [i] of [a] as first and channel [j] of [b] as second
    argument, and, for [estimate_back_at], for the same two channels in
    the other order. *)
Definition estimate_at (estimator : ndarray -> ndarray -> bool -> K -> outcome R)
    (is_epoched : bool) (kwargs : K) (a b : ndarray) (M : matrix) (i j : nat) : Prop :=
  exists s1 s2 v,
    channel is_epoched a i = Ok s1 /\ channel is_epoched b j = Ok s2
    /\ estimator s1 s2 is_epoched kwargs = Returns v /\ entry2 M i j = Some v.

Definition estimate_back_at (estimator : ndarray -> ndarray -> bool -> K -> outcome R)
    (is_epoched : bool) (kwargs : K) (a b : ndarray) (M : matrix) (i j : nat) : Prop :=
  exists s1 s2 w,
    channel is_epoched a i = Ok s1 /\ channel is_epoched b j = Ok s2
    /\ estimator s2 s1 is_epoched kwargs = Returns w /\ entry2 M i j = Some w.

End LegacyStatements.

(** An estimator for the examples: the first sample of the source minus
    the first sample of the target. *)
Definition demo_estimator {K} (s1 s2 : ndarray) (is_epoched : bool) (kwargs : K) : outcome R :=
  Returns (Q2R (hd 0%Q (ravel s1)) - Q2R (hd 0%Q (ravel s2)))%R.

(** * Properties *)

#[local] Arguments group_lengths : simpl never.

(** ** Results and loops *)

Lemma rbind_ok {A B} (m : result A) (k : A -> result B) b :
  rbind m k = Ok b -> exists a, m = Ok a /\ k a = Ok b.
Proof. destruct m; simpl; [eauto | discriminate]. Qed.


Lemma foldM_app {St X} (f : St -> X -> result St) st l1 l2 :
  foldM f st (l1 ++ l2) = rbind (foldM f st l1) (fun st' => foldM f st' l2).
Proof.
  revert st. induction l1 as [| x l1 IH]; intros st; simpl; [reflexivity |].
  destruct (f st x); simpl; [apply IH | reflexivity].
Qed.

(** A loop over [range(n)] that returns keeps an invariant that every
    pass keeps. *)
Lemma foldM_seq_inv {St} (P : nat -> St -> Prop) (f : St -> nat -> result St) n st0 st :
  P 0 st0 ->
  (forall k st st', k < n -> P k st -> f st k = Ok st' -> P (S k) st') ->
  foldM f st0 (seq 0 n) = Ok st -> P n st.
Proof.
  intros H0 Hstep. revert st.
  induction n as [| n IH]; intros st.
  - simpl. intros [= <-]. exact H0.
  - rewrite seq_S, foldM_app. simpl. intros Hrun.
    apply rbind_ok in Hrun as (st1 & Hrun1 & Hrun2).
    apply rbind_ok in Hrun2 as (st2 & Hf & [= <-]).
    eapply Hstep; [| | exact Hf]; [lia |].
    apply IH; [| exact Hrun1]. intros k s s' Hk. apply Hstep. lia.
Qed.

(** A loop over [range(n)] returns when every pass returns under the
    invariant. *)
Lemma foldM_seq_ok {St} (P : nat -> St -> Prop) (f : St -> nat -> result St) n st0 :
  P 0 st0 ->
  (forall k st, k < n -> P k st -> exists st', f st k = Ok st' /\ P (S k) st') ->
  exists st, foldM f st0 (seq 0 n) = Ok st /\ P n st.
Proof.
  intros H0 Hstep. induction n as [| n IH].
  - simpl. eauto.
  - destruct IH as (st1 & Hrun & HP); [intros k s Hk; apply Hstep; lia |].
    destruct (Hstep n st1) as (st2 & Hf & HP2); [lia | exact HP |].
    exists st2. rewrite seq_S, foldM_app, Hrun. simpl. rewrite Hf. simpl. eauto.
Qed.

Section loops.
Context {St : Type} (body : St -> nat -> nat -> result St) (n : nat).
Variable Inv : nat -> nat -> St -> Prop.
Hypothesis Hrow : forall i st, i < n -> Inv i n st -> Inv (S i) 0 st.

Lemma double_loop_inv st0 st :
  Inv 0 0 st0 ->
  (forall i j st st', i < n -> j < n -> Inv i j st -> body st i j = Ok st' ->
                      Inv i (S j) st') ->
  double_loop body n st0 = Ok st -> Inv n 0 st.
Proof.
  intros H0 Hstep. unfold double_loop.
  apply (foldM_seq_inv (fun i st => Inv i 0 st)); [exact H0 |].
  intros i s s' Hi HI Hrun. apply Hrow; [exact Hi |].
  revert Hrun. apply (foldM_seq_inv (fun j st => Inv i j st)); [exact HI |].
  intros j t t' Hj. apply Hstep; assumption.
Qed.

Lemma double_loop_ok st0 :
  Inv 0 0 st0 ->
  (forall i j st, i < n -> j < n -> Inv i j st ->
                  exists st', body st i j = Ok st' /\ Inv i (S j) st') ->
  exists st, double_loop body n st0 = Ok st /\ Inv n 0 st.
Proof.
  intros H0 Hstep. unfold double_loop.
  apply (foldM_seq_ok (fun i st => Inv i 0 st)); [exact H0 |].
  intros i s Hi HI.
  destruct (foldM_seq_ok (fun j st => Inv i j st) (fun st j => body st i j) n s HI)
    as (s' & Hrun & HI'); [intros j t Hj; apply Hstep; assumption |].
  exists s'. split; [exact Hrun | apply Hrow; assumption].
Qed.
End loops.


Lemma mapR_Forall2 {X Y} (f : X -> result Y) l ys :
  mapR f l = Ok ys -> Forall2 (fun x y => f x = Ok y) l ys.
Proof.
  revert ys. induction l as [| x l IH]; intros ys; simpl.
  - intros [= <-]. constructor.
  - intros Hrun. apply rbind_ok in Hrun as (y & Hy & Hrun).
    apply rbind_ok in Hrun as (ys' & Hys & [= <-]). constructor; auto.
Qed.

Lemma mapR_succeeds {X Y} (f : X -> result Y) (P : Y -> Prop) l :
  (forall x, In x l -> exists y, f x = Ok y /\ P y) ->
  exists ys, mapR f l = Ok ys /\ length ys = length l /\ Forall P ys.
Proof.
  induction l as [| x l IH]; intros Hf; simpl.
  - exists []. auto.
  - destruct (Hf x) as (y & Hy & HPy); [left; reflexivity |].
    destruct IH as (ys & Hys & Hlen & Hall); [intros z Hz; apply Hf; right; exact Hz |].
    exists (y :: ys). rewrite Hy, Hys. simpl. auto.
Qed.

Lemma mapR_same_outcome {X Y} (f g : X -> result Y) l :
  (forall x, same_outcome (f x) (g x)) -> same_outcome (mapR f l) (mapR g l).
Proof.
  intros Hfg. induction l as [| x l IH]; simpl; [reflexivity |].
  specialize (Hfg x). destruct (f x), (g x); simpl in *; try contradiction; auto.
  subst. destruct (mapR f l), (mapR g l); simpl in *; try contradiction; auto.
  congruence.
Qed.

(** ** Indexing raises nothing but [IndexError] *)





(** ** The ROI setter *)


Lemma roi_setter_unrecognised h roi_list :
  pointwise_structure roi_list = false ->
  grouped_structure roi_list = false ->
  roi_setter roi_list h =
    (set_roi_specified true h, Raise (ValueError "ROI structure is not recognised.")).
Proof.
  intros Hp Hg. unfold roi_setter, bind, assign, raise. simpl. rewrite Hp, Hg. reflexivity.
Qed.

Lemma existsb_is_list_groups (g : list (list pyval)) :
  existsb is_list (map PList g) = negb (bool_decide (g = [])).
Proof. destruct g; reflexivity. Qed.

Lemma forallb_is_list_groups (g : list (list pyval)) :
  forallb is_list (map PList g) = true.
Proof. induction g; simpl; auto. Qed.

Lemma group_lengths_halves (gx gy : list (list pyval)) :
  group_lengths [PList (map PList gx); PList (map PList gy)]
  = map length gx ++ map length gy.
Proof.
  unfold group_lengths. simpl. rewrite app_nil_r, !map_map. reflexivity.
Qed.

Lemma remove_dups_singleton_all_equal (l : list nat) a b :
  length (remove_dups l) = 1 -> a ∈ l -> b ∈ l -> a = b.
Proof.
  intros Hlen Ha Hb.
  destruct (remove_dups l) as [| x [| y r]] eqn:Hr; simpl in Hlen; try lia.
  apply elem_of_remove_dups in Ha, Hb. rewrite Hr in Ha, Hb.
  apply list_elem_of_singleton in Ha, Hb. congruence.
Qed.

(** Halves with different numbers of groups: the setter raises having set
    only the [_roi_specified] flag. *)
Lemma roi_setter_group_count_mismatch h (gx gy : list (list pyval)) :
  length gx <> length gy ->
  roi_setter [PList (map PList gx); PList (map PList gy)] h =
    (set_roi_specified true h, Raise (ValueError halves_mismatch)).
Proof.
  intros Hne.
  unfold roi_setter, bind, assign, raise, lift, pointwise_structure, grouped_structure.
  simpl. rewrite !existsb_is_list_groups, !forallb_is_list_groups. simpl.
  assert (Hnil : negb (negb (bool_decide (gx = [])))
                 && (negb (negb (bool_decide (gy = []))) && true) = false).
  { destruct gx, gy; simpl in *; try reflexivity. congruence. }
  rewrite Hnil. rewrite !length_map.
  destruct (length gx =? length gy) eqn:Hl; [apply Nat.eqb_eq in Hl; contradiction |].
  reflexivity.
Qed.

(** Groups of different sizes: the setter raises having set the flag and
    the group count. *)
Lemma roi_setter_group_size_mismatch h (gx gy : list (list pyval)) g1 g2 :
  length gx = length gy ->
  g1 ∈ gx ++ gy -> g2 ∈ gx ++ gy -> length g1 <> length g2 ->
  roi_setter [PList (map PList gx); PList (map PList gy)] h =
    (set_soi_groups (Some (length gx)) (set_roi_specified true h),
     Raise (ValueError groups_mismatch)).
Proof.
  intros Hlen H1 H2 Hne.
  unfold roi_setter, bind, assign, raise, lift, pointwise_structure, grouped_structure.
  simpl. rewrite !existsb_is_list_groups, !forallb_is_list_groups. simpl.
  assert (Hnil : negb (negb (bool_decide (gx = [])))
                 && (negb (negb (bool_decide (gy = []))) && true) = false).
  { destruct gx, gy; simpl in *; try reflexivity. apply elem_of_nil in H1 as []. }
  rewrite Hnil. rewrite !length_map, Hlen, Nat.eqb_refl. simpl.
  rewrite group_lengths_halves.
  destruct (length (remove_dups _) =? 1) eqn:Hd; [| reflexivity].
  apply Nat.eqb_eq in Hd. exfalso. apply Hne.
  apply (remove_dups_singleton_all_equal _ _ _ Hd).
  - rewrite <- map_app. apply list_elem_of_fmap. eauto.
  - rewrite <- map_app. apply list_elem_of_fmap. eauto.
Qed.

(** C7: a grouped ROI (both halves lists of lists) whose groups do not all
    have the same number of channels, or whose halves have different
    numbers of groups, is rejected with a [ValueError]: the group-count
    message when the counts differ, the cardinality message otherwise. *)
Theorem C7_grouped_roi_cardinality (h : HyperIT) (gx gy : list (list pyval)) :
  length gx <> length gy
  \/ (exists g1 g2, g1 ∈ gx ++ gy /\ g2 ∈ gx ++ gy /\ length g1 <> length g2) ->
  exists h',
    roi_setter [PList (map PList gx); PList (map PList gy)] h =
      (h', Raise (ValueError (if length gx =? length gy
                              then groups_mismatch else halves_mismatch))).
Proof.
  intros Hbad. destruct (length gx =? length gy) eqn:Hl.
  - apply Nat.eqb_eq in Hl.
    destruct Hbad as [Hne | (g1 & g2 & H1 & H2 & Hne)]; [contradiction |].
    eexists. exact (roi_setter_group_size_mismatch h gx gy g1 g2 Hl H1 H2 Hne).
  - apply Nat.eqb_neq in Hl. eexists. apply roi_setter_group_count_mismatch, Hl.
Qed.

(** The example of the specification, [[[1,2],[3]]] against
    [[[4,5],[6]]], on the two-source object. *)
Lemma C7_witness :
  exists h', roi_setter uneven_roi demo_h = (h', Raise (ValueError groups_mismatch)).
Proof.
  apply (C7_grouped_roi_cardinality demo_h
           [[PInt 1; PInt 2]; [PInt 3]]%Z [[PInt 4; PInt 5]; [PInt 6]]%Z).
  right. exists [PInt 1; PInt 2]%Z, [PInt 3]%Z.
  split; [| split]; [| | simpl; lia].
  - simpl. apply elem_of_cons. left. reflexivity.
  - simpl. apply elem_of_cons. right. apply elem_of_cons. left. reflexivity.
Defined.




(** ** Construction *)

Example init_demo : init demo_a demo_b demo_names false = Ok demo_h.
Proof. vm_compute. reflexivity. Qed.

Example init_solo : init solo solo solo_names false = Ok solo_h.
Proof. vm_compute. reflexivity. Qed.

(** One source and a single list of labels: the whole argument is
    doubled, not the list in it, and the length check that follows
    compares [len([labels]) = 1] with the channel count. *)
Lemma init_intra_single_label_list d1 d2 labels v e c s :
  array_equal d1 d2 = true ->
  shape d1 = shape d2 ->
  shape d1 = [c; s] \/ shape d1 = [e; c; s] ->
  init d1 d2 (PList [PList labels]) v =
    if c =? 1 then
      Ok (mkHyperIT (PList [PList [PList labels]; PList [PList labels]])
            (arange 1) (arange 1) (d1, d2) d1 d2 [] false 1 None false
            (ndim d1 =? 3) None v (if ndim d1 =? 3 then e else 1) c s)
    else Raise channel_mismatch.
Proof.
  intros Heq Hsh Hdims.
  unfold init, check_data, bind, assign, self, lift, raise, ret, ndim. simpl.
  rewrite Heq, <- Hsh. simpl.
  rewrite bool_decide_eq_true_2 by done. simpl.
  destruct Hdims as [-> | ->]; destruct c as [| [| c']]; reflexivity.
Qed.

(** C5, on the code: one source with two channels and the single label
    list [[["C1", "C2"]]] is rejected by the constructor. *)
Theorem C5_single_label_list_rejected :
  init solo solo (PList [names ["C1"; "C2"]]) false = Raise channel_mismatch.
Proof. vm_compute. reflexivity. Qed.

(** With one channel the constructor returns, and the stored structure is
    the doubled argument [[[["C1"]], [["C1"]]]], not [[["C1"], ["C1"]]]. *)
Example single_channel_names_nested :
  exists h, init (mat [[1; 2; 3]]%Z) (mat [[1; 2; 3]]%Z) (PList [names ["C1"]]) false = Ok h
            /\ _channel_names h = PList [PList [names ["C1"]]; PList [names ["C1"]]].
Proof. eexists. split; vm_compute; reflexivity. Qed.

(** ** Arrays and freshly constructed objects *)

Lemma init_fresh d1 d2 names v h : init d1 d2 names v = Ok h -> fresh d1 d2 h.
Proof.
  unfold init, check_data, bind, assign, self, lift, raise, ret, fresh, ndim.
  intros Hrun.
  repeat (case_match; simplify_eq/=; try done).
  all: repeat match goal with
         | H : bool_decide _ = true |- _ => apply bool_decide_eq_true in H
         | H : negb _ = false |- _ => apply negb_false_iff in H
         | H : (_ =? _) = true |- _ => apply Nat.eqb_eq in H
         end.
  all: repeat split; try assumption; try reflexivity.
  all: try (left; repeat split; try reflexivity; congruence).
  all: try (right; repeat split; try reflexivity; congruence).
Qed.

Lemma rect_take0 a n sh i :
  rect a = true -> shape a = n :: sh -> i < n ->
  exists x, take0 a i = Ok x /\ rect x = true /\ shape x = sh.
Proof.
  destruct a as [q | l]; simpl; [discriminate |].
  intros Hr [= Hn Hsh] Hi. apply andb_true_iff in Hr as [Hr1 Hr2].
  destruct (lookup_lt_is_Some_2 l i) as [x Hx]; [lia |].
  exists x. rewrite Hx. simpl. split; [reflexivity |].
  rewrite forallb_forall in Hr1, Hr2.
  assert (Hin : In x l) by (apply list_elem_of_In, list_elem_of_lookup; eauto).
  split; [apply Hr1, Hin |].
  apply Hr2 in Hin. apply bool_decide_eq_true in Hin. rewrite Hin.
  destruct l; [simpl in *; lia | exact Hsh].
Qed.

Lemma rect_row a n m sh i :
  rect a = true -> shape a = n :: m :: sh -> i < n ->
  exists x, row a i = Ok x /\ rect x = true /\ shape x = m :: sh.
Proof.
  intros Hr Hs Hi. destruct (rect_take0 a n (m :: sh) i Hr Hs Hi) as (x & Hx & Hrx & Hsx).
  exists x. unfold row. rewrite Hx. simpl. destruct x; [discriminate | auto].
Qed.

Lemma rect_col a e c s i :
  rect a = true -> shape a = [e; c; s] -> i < c ->
  exists es, col a i = Ok (Ar es) /\ length es = e.
Proof.
  destruct a as [q | l]; [discriminate |].
  intros Hr Hs Hi. unfold col.
  destruct (mapR_succeeds (fun ep => row ep i) (fun _ => True) l) as (es & Hes & Hlen & _).
  { intros ep Hin. destruct (In_nth_error _ _ Hin) as [k Hk].
    assert (Hk' : l !! k = Some ep).
    { clear -Hk. revert k Hk. induction l; intros [| k]; simpl; try discriminate; auto. }
    assert (Hlt : k < e).
    { apply lookup_lt_Some in Hk'. simpl in Hs. injection Hs as Hs _. lia. }
    destruct (rect_take0 (Ar l) e [c; s] k Hr Hs Hlt) as (x & Hx & Hrx & Hsx).
    simpl in Hx. rewrite Hk' in Hx. injection Hx as <-.
    destruct (rect_row ep c s [] i Hrx Hsx Hi) as (r & Hrow & _). eauto. }
  exists es. rewrite Hes. simpl. split; [reflexivity |].
  simpl in Hs. injection Hs as Hs _. lia.
Qed.

(** ** Result tensors *)

Lemma getitem2_ok M i j v : getitem2 M i j = Ok v <-> lookup2 M i j = Some v.
Proof. unfold getitem2. destruct (lookup2 M i j); simpl; split; congruence. Qed.

Lemma setitem2_lookup2 M i j v M' :
  setitem2 M i j v = Ok M' ->
  forall a b, lookup2 M' a b = if bool_decide (a = i /\ b = j) then Some v else lookup2 M a b.
Proof.
  unfold setitem2, lookup2. destruct (M !! i) as [r |] eqn:Hr; [| discriminate].
  destruct (j <? length r) eqn:Hj; [| discriminate]. apply Nat.ltb_lt in Hj.
  intros [= <-] a b.
  destruct (decide (a = i)) as [-> | Hne].
  - rewrite list_lookup_insert_eq by (eapply lookup_lt_Some; eauto). simpl.
    destruct (decide (b = j)) as [-> | Hneb].
    + rewrite list_lookup_insert_eq by exact Hj. rewrite bool_decide_eq_true_2; auto.
    + rewrite list_lookup_insert_ne by congruence. rewrite bool_decide_eq_false_2 by tauto.
      rewrite Hr. reflexivity.
  - rewrite list_lookup_insert_ne by congruence. rewrite bool_decide_eq_false_2 by tauto.
    reflexivity.
Qed.

Lemma setitem2_dims M i j v M' n m :
  setitem2 M i j v = Ok M' -> dims M n m -> dims M' n m.
Proof.
  unfold setitem2, dims. destruct (M !! i) as [r |] eqn:Hr; [| discriminate].
  destruct (j <? length r); [| discriminate]. intros [= <-] [Hn Hall]. split.
  - rewrite length_insert. exact Hn.
  - apply Forall_insert; [exact Hall |]. rewrite length_insert.
    eapply Forall_lookup_1 in Hall; eauto.
Qed.

Lemma setitem2_succeeds M i j v n m :
  dims M n m -> i < n -> j < m -> exists M', setitem2 M i j v = Ok M'.
Proof.
  unfold setitem2, dims. intros [Hn Hall] Hi Hj.
  destruct (lookup_lt_is_Some_2 M i) as [r Hr]; [lia |]. rewrite Hr.
  eapply Forall_lookup_1 in Hall; eauto. rewrite Hall.
  destruct (j <? m) eqn:E; [eauto | apply Nat.ltb_ge in E; lia].
Qed.

Lemma dims_zeros a b c d : dims (zeros a b c d) a b.
Proof.
  unfold dims, zeros. split; [apply length_replicate |].
  apply Forall_replicate. apply length_replicate.
Qed.

Lemma lookup2_zeros_eq a b c d i j :
  lookup2 (zeros a b c d) i j
  = if bool_decide (i < a /\ j < b) then Some (replicate c (replicate d 0%R)) else None.
Proof.
  unfold lookup2, zeros.
  destruct (decide (i < a)) as [Hi | Hi].
  - rewrite lookup_replicate_2 by exact Hi. simpl.
    destruct (decide (j < b)) as [Hj | Hj].
    + rewrite lookup_replicate_2 by exact Hj. rewrite bool_decide_eq_true_2; auto.
    + rewrite bool_decide_eq_false_2 by tauto. apply lookup_replicate_None. lia.
  - rewrite bool_decide_eq_false_2 by tauto.
    rewrite (proj1 (lookup_replicate_None _ _ i)) by lia. reflexivity.
Qed.

Lemma lookup2_zeros a b c d i j v :
  lookup2 (zeros a b c d) i j = Some v -> v = replicate c (replicate d 0%R).
Proof. rewrite lookup2_zeros_eq. case_bool_decide; congruence. Qed.

Lemma lookup2_zeros_sym a c d i j :
  lookup2 (zeros a a c d) i j = lookup2 (zeros a a c d) j i.
Proof.
  rewrite !lookup2_zeros_eq. repeat case_bool_decide; try reflexivity; exfalso; tauto.
Qed.

Lemma tensor_entry_lookup2 M i j e s :
  tensor_entry M i j e s = lookup2 M i j ≫= fun c => c !! e ≫= fun st => st !! s.
Proof. reflexivity. Qed.

Section EngineProperties.
Context {Calc : Type} `{JIDT Calc}.

Lemma mi_body_diagonal h et sig perm st i :
  _inter_brain h = false -> mi_body h et sig perm st i i = Ok st.
Proof.
  intros Hintra. unfold mi_body. destruct st as [c M]. rewrite Hintra, Nat.eqb_refl.
  reflexivity.
Qed.

Lemma mi_body_intra h et sig perm c M c' M' i j M0 :
  _inter_brain h = false ->
  mi_body h et sig perm (c, M) i j = Ok (c', M') ->
  symmetric M /\ (forall a, lookup2 M a a = lookup2 M0 a a) ->
  symmetric M' /\ (forall a, lookup2 M' a a = lookup2 M0 a a).
Proof.
  intros Hintra Hrun [Hsym Hdiag]. unfold mi_body in Hrun. rewrite Hintra in Hrun.
  simpl in Hrun. destruct (i =? j) eqn:Hij; simpl in Hrun.
  { injection Hrun as <- <-. auto. }
  apply Nat.eqb_neq in Hij.
  apply rbind_ok in Hrun as ([s1 s2] & _ & Hrun).
  apply rbind_ok in Hrun as ([v c1] & _ & Hrun).
  apply rbind_ok in Hrun as (M1 & Hset1 & Hrun).
  apply rbind_ok in Hrun as (v' & Hget & Hrun).
  apply rbind_ok in Hrun as (M2 & Hset2 & [= <- <-]).
  pose proof (setitem2_lookup2 _ _ _ _ _ Hset1) as L1.
  pose proof (setitem2_lookup2 _ _ _ _ _ Hset2) as L2.
  apply getitem2_ok in Hget. rewrite L1, bool_decide_eq_true_2 in Hget by auto.
  injection Hget as <-.
  split.
  - intros a b. rewrite !L2, !L1.
    repeat case_bool_decide; try reflexivity; try (exfalso; intuition congruence).
    apply Hsym.
  - intros a. rewrite L2, L1.
    repeat case_bool_decide; try (exfalso; intuition congruence). apply Hdiag.
Qed.

Lemma mi_alloc_square h et M0 :
  mi_alloc h et = Ok M0 -> exists n k, M0 = zeros n n (n_epo h) k.
Proof.
  unfold mi_alloc.
  destruct (is_histogram et || is_symbolic et); [intros [= <-]; eauto |].
  destruct (_scale_of_organisation h =? 1); [intros [= <-]; eauto |].
  destruct (_soi_groups h); simpl; [intros [= <-]; eauto | discriminate].
Qed.

Lemma compute_mi_intra_symmetric h et sig kw M :
  _inter_brain h = false ->
  compute_mi h et sig kw = Ok M ->
  (forall i j e s, tensor_entry M i j e s = tensor_entry M j i e s)
  /\ (forall i e s v, tensor_entry M i i e s = Some v -> v = 0%R).
Proof.
  intros Hintra Hrun. unfold compute_mi in Hrun.
  apply rbind_ok in Hrun as ([sig' c] & _ & Hrun).
  apply rbind_ok in Hrun as (M0 & Halloc & Hrun).
  apply rbind_ok in Hrun as (n & _ & Hrun).
  apply rbind_ok in Hrun as ([c' M'] & Hloop & [= <-]). simpl.
  apply mi_alloc_square in Halloc as (a & k & ->).
  assert (Hinv : symmetric M' /\ forall x, lookup2 M' x x = lookup2 (zeros a a (n_epo h) k) x x).
  { revert Hloop.
    apply (double_loop_inv _ n
             (fun _ _ st => symmetric (snd st)
                            /\ forall x, lookup2 (snd st) x x = lookup2 (zeros a a (n_epo h) k) x x)).
    - auto.
    - simpl. split; [intros x y; apply lookup2_zeros_sym | reflexivity].
    - intros i j [c1 M1] [c2 M2] _ _ HI Hbody. simpl in *.
      eapply mi_body_intra; eauto. }
  destruct Hinv as [Hsym Hdiag]. split.
  - intros i j e s. rewrite !tensor_entry_lookup2, Hsym. reflexivity.
  - intros i e s v. rewrite tensor_entry_lookup2, Hdiag.
    destruct (lookup2 _ i i) as [c0 |] eqn:Hc; [| discriminate]. simpl.
    apply lookup2_zeros in Hc as ->.
    destruct (replicate _ _ !! e) as [r |] eqn:Hr; [| discriminate]. simpl.
    apply lookup_replicate in Hr as [-> _]. intros Hv.
    apply lookup_replicate in Hv as [-> _]. reflexivity.
Qed.

(** *** Shapes of the per-pair estimates *)


Lemma estimate_it_shape h sig perm c s1 s2 v c' :
  estimate_it h sig perm c s1 s2 = Ok (v, c') ->
  cell_shape (n_epo h) 4 v /\ (sig = false -> padded v).
Proof.
  unfold estimate_it. intros Hrun.
  pose (P := fun (k : nat) (st : cell * Calc) =>
               cell_shape k 4 (fst st) /\ (sig = false -> padded (fst st))).
  change (P (n_epo h) (v, c')). revert Hrun. apply foldM_seq_inv.
  - split; [split; [reflexivity | constructor] | intros _; constructor].
  - intros k [est c0] [est' c1] _ [[Hlen Hall] Hpad] Hstep. unfold estimate_epoch in Hstep.
    simpl in *.
    apply rbind_ok in Hstep as ([X Y] & _ & Hstep).
    destruct (1 <? _scale_of_organisation h).
    all: apply rbind_ok in Hstep as (args & _ & Hstep).
    all: destruct (computeAverageLocalOfObservations _) as [r c2].
    all: destruct sig.
    all: try destruct (computeSignificance _ _) as [d c3].
    all: injection Hstep as <- <-.
    all: unfold P, cell_shape; simpl.
    all: split; [split; [rewrite length_app; simpl; lia
                        | apply Forall_app; split; [exact Hall | repeat constructor]] |].
    all: intros Hs; try discriminate.
    all: apply Forall_app; split; [exact (Hpad eq_refl) | constructor; [| constructor]].
    all: intros [| [| [| [| s]]]] x Hge Hx; try lia.
    all: first [discriminate Hx | injection Hx as <-; reflexivity].
Qed.

Lemma per_epoch_shape (f : nat -> result (list R)) n v :
  mapR f (seq 0 n) = Ok v ->
  (forall e r, f e = Ok r -> length r = 1) ->
  cell_shape n 1 v.
Proof.
  intros Hrun Hf. apply mapR_Forall2 in Hrun. split.
  - apply Forall2_length in Hrun. rewrite length_seq in Hrun. auto.
  - clear -Hrun Hf. induction Hrun; constructor; eauto.
Qed.

Lemma mi_hist_shape h s1 s2 v : mi_hist h s1 s2 = Ok v -> cell_shape (n_epo h) 1 v.
Proof.
  unfold mi_hist. intros Hrun. eapply per_epoch_shape; [exact Hrun |].
  intros e r Hr. simpl in Hr.
  apply rbind_ok in Hr as ([X Y] & _ & Hr).
  apply rbind_ok in Hr as (b & _ & Hr).
  apply rbind_ok in Hr as (j & _ & [= <-]). reflexivity.
Qed.

Lemma mi_symb_shape h s1 s2 l m v : mi_symb h s1 s2 l m = Ok v -> cell_shape (n_epo h) 1 v.
Proof.
  unfold mi_symb. intros Hrun. eapply per_epoch_shape; [exact Hrun |].
  intros e r Hr. simpl in Hr.
  apply rbind_ok in Hr as ([X Y] & _ & Hr).
  apply rbind_ok in Hr as (b & _ & [= <-]). reflexivity.
Qed.

Lemma cells_zeros a b e k (P : cell -> Prop) :
  P (replicate e (replicate k 0%R)) -> cells (zeros a b e k) P.
Proof. intros HP i j c Hc. apply lookup2_zeros in Hc as ->. exact HP. Qed.

Lemma cells_setitem2 M i j v M' (P : cell -> Prop) :
  setitem2 M i j v = Ok M' -> cells M P -> P v -> cells M' P.
Proof.
  intros Hset HM Hv a b c. rewrite (setitem2_lookup2 _ _ _ _ _ Hset).
  case_bool_decide; [intros [= <-]; exact Hv | apply HM].
Qed.

Lemma cell_shape_zeros e k : cell_shape e k (replicate e (replicate k 0%R)).
Proof.
  split; [apply length_replicate | apply Forall_replicate, length_replicate].
Qed.

Lemma padded_zeros e k : padded (replicate e (replicate k 0%R)).
Proof.
  apply Forall_replicate. intros s x _ Hx. apply lookup_replicate in Hx as [-> _].
  reflexivity.
Qed.

Lemma mi_estimate_shape h et sig perm c s1 s2 v c' :
  mi_estimate h et sig perm c s1 s2 = Ok (v, c') ->
  cell_shape (n_epo h) (mi_stats et) v
  /\ (sig = false -> mi_stats et = 4 -> padded v).
Proof.
  unfold mi_estimate, mi_stats.
  destruct (is_histogram et) eqn:Hh; simpl.
  { intros Hrun. apply rbind_ok in Hrun as (v0 & Hv & [= <- <-]).
    split; [eapply mi_hist_shape; eauto | discriminate]. }
  destruct (is_symbolic et) eqn:Hs; simpl.
  { intros Hrun. apply rbind_ok in Hrun as (v0 & Hv & [= <- <-]).
    split; [eapply mi_symb_shape; eauto | discriminate]. }
  intros Hrun. apply rbind_ok in Hrun as (c0 & _ & Hrun).
  apply rbind_ok in Hrun as ([v0 c1] & Hv & [= <- <-]).
  apply estimate_it_shape in Hv as [Hshape Hpad]. auto.
Qed.

Lemma mi_body_cells h et sig perm c M c' M' i j (P : cell -> Prop) :
  mi_body h et sig perm (c, M) i j = Ok (c', M') ->
  (forall c0 s1 s2 v c1, mi_estimate h et sig perm c0 s1 s2 = Ok (v, c1) -> P v) ->
  cells M P -> cells M' P.
Proof.
  intros Hrun Hest HM. unfold mi_body in Hrun.
  destruct (_inter_brain h || negb (i =? j)); [| injection Hrun as <- <-; exact HM].
  apply rbind_ok in Hrun as ([s1 s2] & _ & Hrun).
  apply rbind_ok in Hrun as ([v c1] & Hv & Hrun).
  apply rbind_ok in Hrun as (M1 & Hset1 & Hrun).
  assert (HM1 : cells M1 P) by (eapply cells_setitem2; eauto).
  destruct (negb (_inter_brain h)); [| injection Hrun as <- <-; exact HM1].
  apply rbind_ok in Hrun as (v' & Hget & Hrun).
  apply rbind_ok in Hrun as (M2 & Hset2 & [= <- <-]).
  eapply cells_setitem2; [exact Hset2 | exact HM1 |].
  apply getitem2_ok in Hget. eapply HM1; eauto.
Qed.

Lemma which_mi_estimator_sigstats et sig kw sig' c :
  which_mi_estimator et sig kw = Ok (sig', c) ->
  sig' = if is_histogram et || is_symbolic et then false else sig.
Proof.
  unfold which_mi_estimator.
  destruct (is_histogram et) eqn:Hh; [intros [= <- <-]; reflexivity |].
  destruct (bool_decide (et = "ksg1") || bool_decide (et = "ksg")) eqn:H1.
  { intros [= <- <-]. apply orb_true_iff in H1 as [E | E];
      apply bool_decide_eq_true in E; subst et; reflexivity. }
  destruct (bool_decide (et = "ksg2")) eqn:H2.
  { intros [= <- <-]. apply bool_decide_eq_true in H2. subst et. reflexivity. }
  destruct (bool_decide (et = "kernel")) eqn:H3.
  { intros [= <- <-]. apply bool_decide_eq_true in H3. subst et. reflexivity. }
  destruct (bool_decide (et = "gaussian")) eqn:H4.
  { intros [= <- <-]. apply bool_decide_eq_true in H4. subst et. reflexivity. }
  destruct (is_symbolic et) eqn:H5; [intros [= <- <-]; reflexivity | discriminate].
Qed.

Lemma mi_alloc_cells h et M0 (P : cell -> Prop) :
  mi_alloc h et = Ok M0 ->
  P (replicate (n_epo h) (replicate (mi_stats et) 0%R)) -> cells M0 P.
Proof.
  unfold mi_alloc, mi_stats.
  destruct (is_histogram et || is_symbolic et).
  { intros [= <-] HP. apply (cells_zeros _ _ _ 1). exact HP. }
  destruct (_scale_of_organisation h =? 1).
  { intros [= <-] HP. apply (cells_zeros _ _ _ 4). exact HP. }
  destruct (_soi_groups h); simpl; [| discriminate].
  intros [= <-] HP. apply (cells_zeros _ _ _ 4). exact HP.
Qed.

Lemma compute_mi_cells h et sig kw M :
  compute_mi h et sig kw = Ok M ->
  cells M (cell_shape (n_epo h) (mi_stats (lower et)))
  /\ (sig = false -> mi_stats (lower et) = 4 -> cells M padded).
Proof.
  intros Hrun. unfold compute_mi in Hrun.
  apply rbind_ok in Hrun as ([sig' c] & Hwhich & Hrun).
  apply rbind_ok in Hrun as (M0 & Halloc & Hrun).
  apply rbind_ok in Hrun as (n & _ & Hrun).
  apply rbind_ok in Hrun as ([c' M'] & Hloop & [= <-]). simpl.
  apply which_mi_estimator_sigstats in Hwhich.
  split.
  - revert Hloop.
    apply (double_loop_inv _ n
             (fun _ _ st => cells (snd st) (cell_shape (n_epo h) (mi_stats (lower et))))).
    + auto.
    + simpl. eapply mi_alloc_cells; [exact Halloc | apply cell_shape_zeros].
    + intros i j [c1 M1] [c2 M2] _ _ HI Hbody. simpl in *.
      eapply mi_body_cells; [exact Hbody | | exact HI].
      intros c0 s1 s2 v c3 Hv. eapply mi_estimate_shape; eauto.
  - intros -> Hk. revert Hloop.
    apply (double_loop_inv _ n (fun _ _ st => cells (snd st) padded)).
    + auto.
    + simpl. eapply mi_alloc_cells; [exact Halloc | apply padded_zeros].
    + intros i j [c1 M1] [c2 M2] _ _ HI Hbody. simpl in *.
      eapply mi_body_cells; [exact Hbody | | exact HI].
      intros c0 s1 s2 v c3 Hv. eapply mi_estimate_shape; eauto.
      unfold mi_stats in Hk. destruct (is_histogram _ || is_symbolic _); [discriminate |].
      exact Hwhich.
Qed.

Lemma cells_stat_length M e k : cells M (cell_shape e k) -> stat_length M k.
Proof.
  intros HM i j e0 stats Hl.
  destruct (lookup2 M i j) as [c |] eqn:Hc; [| discriminate]. simpl in Hl.
  apply HM in Hc as [_ Hall]. eapply Forall_lookup_1 in Hall; eauto.
Qed.

Lemma cells_padded_entries M :
  cells M padded ->
  forall i j e s x, 1 <= s -> tensor_entry M i j e s = Some x -> x = 0%R.
Proof.
  intros HM i j e s x Hs. unfold tensor_entry.
  destruct (lookup2 M i j) as [c |] eqn:Hc; [| discriminate]. simpl.
  destruct (c !! e) as [r |] eqn:Hr; [| discriminate]. simpl.
  apply HM in Hc. eapply Forall_lookup_1 in Hc; eauto.
Qed.

(** *** Transfer entropy *)

Lemma te_body_inter h sig perm c xy yx c' xy' yx' i j :
  _inter_brain h = true ->
  te_body h sig perm (c, xy, yx) i j = Ok (c', xy', yx') ->
  te_pair_computed h sig perm xy' yx' i j
  /\ forall a b, (a, b) <> (i, j) ->
                 lookup2 xy' a b = lookup2 xy a b /\ lookup2 yx' a b = lookup2 yx a b.
Proof.
  intros Hinter Hrun. unfold te_body in Hrun. rewrite Hinter in Hrun. simpl in Hrun.
  apply rbind_ok in Hrun as ([s1 s2] & Hs & Hrun).
  apply rbind_ok in Hrun as ([v c1] & Hv & Hrun).
  apply rbind_ok in Hrun as (xy1 & Hset1 & Hrun).
  apply rbind_ok in Hrun as ([w c2] & Hw & Hrun).
  apply rbind_ok in Hrun as (yx1 & Hset2 & [= <- <- <-]).
  pose proof (setitem2_lookup2 _ _ _ _ _ Hset1) as L1.
  pose proof (setitem2_lookup2 _ _ _ _ _ Hset2) as L2.
  split.
  - exists s1, s2, c, v, c1, w, c2. rewrite L1, L2, !bool_decide_eq_true_2 by auto. auto.
  - intros a b Hne. rewrite L1, L2.
    rewrite !bool_decide_eq_false_2 by (intros [-> ->]; congruence). auto.
Qed.

Lemma te_body_intra h sig perm c xy yx c' xy' yx' i j :
  _inter_brain h = false ->
  te_body h sig perm (c, xy, yx) i j = Ok (c', xy', yx') -> yx' = yx.
Proof.
  intros Hintra Hrun. unfold te_body in Hrun. rewrite Hintra in Hrun. simpl in Hrun.
  destruct (negb (i =? j)); [| congruence].
  apply rbind_ok in Hrun as ([s1 s2] & Hs & Hrun).
  apply rbind_ok in Hrun as ([v c1] & Hv & Hrun).
  apply rbind_ok in Hrun as (xy1 & Hset1 & [= <- <- <-]). reflexivity.
Qed.

Lemma te_body_cells h sig perm c xy yx c' xy' yx' i j (P : cell -> Prop) :
  te_body h sig perm (c, xy, yx) i j = Ok (c', xy', yx') ->
  (forall c0 s1 s2 v c1, estimate_it h sig perm c0 s1 s2 = Ok (v, c1) -> P v) ->
  cells xy P /\ cells yx P -> cells xy' P /\ cells yx' P.
Proof.
  intros Hrun Hest [Hxy Hyx]. unfold te_body in Hrun.
  destruct (_inter_brain h || negb (i =? j)); [| injection Hrun as <- <- <-; auto].
  apply rbind_ok in Hrun as ([s1 s2] & _ & Hrun).
  apply rbind_ok in Hrun as ([v c1] & Hv & Hrun).
  apply rbind_ok in Hrun as (xy1 & Hset1 & Hrun).
  assert (H1 : cells xy1 P) by (eapply cells_setitem2; eauto).
  destruct (_inter_brain h); [| injection Hrun as <- <- <-; auto].
  apply rbind_ok in Hrun as ([w c2] & Hw & Hrun).
  apply rbind_ok in Hrun as (yx1 & Hset2 & [= <- <- <-]).
  split; [exact H1 | eapply cells_setitem2; eauto].
Qed.

Lemma which_te_estimator_frame et kw h h' c :
  which_te_estimator et kw h = (h', Ok c) ->
  h' = h \/ h' = set_initialise_parameter (Some (PInt 2)) h.
Proof.
  unfold which_te_estimator, bind, assign, ret, raise.
  repeat (case_match; simpl); intros [= <- <-]; auto.
Qed.

Lemma te_alloc_zeros h M0 : te_alloc h = Ok M0 -> exists n, M0 = zeros n n (n_epo h) 4.
Proof.
  unfold te_alloc. destruct (_scale_of_organisation h =? 1); [intros [= <-]; eauto |].
  destruct (_soi_groups h); simpl; [intros [= <-]; eauto | discriminate].
Qed.

Lemma compute_te_unfold et sig kw h h' te_xy te_yx :
  compute_te et sig kw h = (h', Ok (te_xy, te_yx)) ->
  (h' = h \/ h' = set_initialise_parameter (Some (PInt 2)) h)
  /\ exists c xy0 yx0 n c',
       te_alloc h' = Ok xy0 /\ te_alloc h' = Ok yx0 /\ loop_range h' = Ok n
       /\ double_loop (te_body h' sig (default 100%Z (kw_stat_sig_perm_num kw)))
                      n (c, xy0, yx0) = Ok (c', te_xy, te_yx).
Proof.
  unfold compute_te, bind, self, lift.
  destruct (which_te_estimator (lower et) kw h) as [h1 [c |]] eqn:Hw; [| discriminate].
  intros Hrun. injection Hrun as <- Hrun.
  split; [eapply which_te_estimator_frame; eauto |].
  apply rbind_ok in Hrun as (xy0 & Hxy & Hrun).
  apply rbind_ok in Hrun as (yx0 & Hyx & Hrun).
  apply rbind_ok in Hrun as (n & Hn & Hrun).
  apply rbind_ok in Hrun as ([[c' xy] yx] & Hloop & [= <- <-]).
  exists c, xy0, yx0, n, c'. auto.
Qed.

Lemma compute_te_pairs et sig kw h h' te_xy te_yx :
  compute_te et sig kw h = (h', Ok (te_xy, te_yx)) ->
  exists n, loop_range h = Ok n
  /\ (_inter_brain h = true ->
      forall i j, i < n -> j < n ->
        te_pair_computed h' sig (default 100%Z (kw_stat_sig_perm_num kw)) te_xy te_yx i j)
  /\ (_inter_brain h = false ->
      te_alloc h = Ok te_yx
      /\ forall i j e s x, tensor_entry te_yx i j e s = Some x -> x = 0%R).
Proof.
  intros Hrun. apply compute_te_unfold in Hrun as (Hh & c & xy0 & yx0 & n & c' & Hxy & Hyx & Hn & Hloop).
  assert (Hsame : loop_range h' = loop_range h /\ te_alloc h' = te_alloc h
                  /\ _inter_brain h' = _inter_brain h).
  { destruct Hh as [-> | ->]; auto. }
  destruct Hsame as (Hr & Ha & Hi). rewrite Hr in Hn. rewrite Ha in Hyx.
  exists n. split; [exact Hn |]. split.
  - intros Hinter. rewrite <- Hi in Hinter.
    set (perm := default 100%Z (kw_stat_sig_perm_num kw)) in *.
    assert (Hinv : forall i j, (i < n /\ j < n) \/ (i = n /\ j < 0) ->
                               te_pair_computed h' sig perm te_xy te_yx i j).
    { revert Hloop.
      apply (double_loop_inv _ n
               (fun i0 j0 st => forall i j, (i < i0 /\ j < n) \/ (i = i0 /\ j < j0) ->
                                te_pair_computed h' sig perm (snd (fst st)) (snd st) i j)).
      - intros i0 st _ HI i j [[Hlt Hj] | [_ Hj]]; [| lia].
        apply HI. destruct (decide (i = i0)) as [-> | Hne]; [right | left]; split; lia.
      - simpl. intros i j [[Hlt _] | [_ Hlt]]; lia.
      - intros i0 j0 [[c1 xy1] yx1] [[c2 xy2] yx2] _ _ HI Hbody. simpl in *.
        destruct (te_body_inter _ _ _ _ _ _ _ _ _ _ _ Hinter Hbody) as [Hnew Hold].
        intros i j Hpos.
        destruct (decide ((i, j) = (i0, j0))) as [[= -> ->] | Hne]; [exact Hnew |].
        destruct (HI i j) as (s1 & s2 & ca & v & cb & w & cc & Hs & Hv & Hw & L1 & L2).
        { destruct Hpos as [Hpos | [-> Hj]]; [left; exact Hpos | right].
          split; [reflexivity |]. assert (j <> j0) by congruence. lia. }
        destruct (Hold i j Hne) as [E1 E2].
        exists s1, s2, ca, v, cb, w, cc. rewrite E1, E2. auto. }
    intros i j Hlt Hj. apply Hinv. left. auto.
  - intros Hintra. rewrite <- Hi in Hintra.
    assert (Heq : te_yx = yx0).
    { revert Hloop.
      apply (double_loop_inv _ n (fun _ _ st => snd st = yx0)); [auto | reflexivity |].
      intros i j [[c1 xy1] yx1] [[c2 xy2] yx2] _ _ HI Hbody. simpl in *. subst yx1.
      eapply te_body_intra; eauto. }
    subst yx0. split; [exact Hyx |].
    apply te_alloc_zeros in Hyx as (a & ->).
    intros i j e s x. unfold tensor_entry.
    destruct (lookup2 _ i j) as [c0 |] eqn:Hc; [| discriminate]. simpl.
    apply lookup2_zeros in Hc as ->.
    destruct (replicate _ _ !! e) as [r |] eqn:Hre; [| discriminate]. simpl.
    apply lookup_replicate in Hre as [-> _]. intros Hv.
    apply lookup_replicate in Hv as [-> _]. reflexivity.
Qed.

Lemma compute_te_cells et sig kw h h' te_xy te_yx :
  compute_te et sig kw h = (h', Ok (te_xy, te_yx)) ->
  cells te_xy (cell_shape (n_epo h) 4) /\ cells te_yx (cell_shape (n_epo h) 4)
  /\ (sig = false -> cells te_xy padded /\ cells te_yx padded).
Proof.
  intros Hrun. apply compute_te_unfold in Hrun as (Hh & c & xy0 & yx0 & n & c' & Hxy & Hyx & Hn & Hloop).
  assert (He : n_epo h' = n_epo h) by (destruct Hh as [-> | ->]; reflexivity).
  apply te_alloc_zeros in Hxy as (a & ->). apply te_alloc_zeros in Hyx as (b & ->).
  rewrite <- He.
  assert (H1 : cells te_xy (cell_shape (n_epo h') 4) /\ cells te_yx (cell_shape (n_epo h') 4)).
  { revert Hloop.
    apply (double_loop_inv _ n
             (fun _ _ st => cells (snd (fst st)) (cell_shape (n_epo h') 4)
                            /\ cells (snd st) (cell_shape (n_epo h') 4))); [auto | |].
    - simpl. split; apply cells_zeros, cell_shape_zeros.
    - intros i j [[c1 xy1] yx1] [[c2 xy2] yx2] _ _ HI Hbody. simpl in *.
      eapply te_body_cells; [exact Hbody | | exact HI].
      intros c0 s1 s2 v c3 Hv. eapply estimate_it_shape; eauto. }
  destruct H1 as [H1 H2]. split; [exact H1 |]. split; [exact H2 |].
  intros ->. revert Hloop.
  apply (double_loop_inv _ n
           (fun _ _ st => cells (snd (fst st)) padded /\ cells (snd st) padded)); [auto | |].
  - simpl. split; apply cells_zeros, padded_zeros.
  - intros i j [[c1 xy1] yx1] [[c2 xy2] yx2] _ _ HI Hbody. simpl in *.
    eapply te_body_cells; [exact Hbody | | exact HI].
    intros c0 s1 s2 v c3 Hv. eapply estimate_it_shape; eauto.
Qed.

(** *** The calls return on freshly constructed objects *)


Lemma which_mi_estimator_jidt et sig kw :
  et ∈ mi_jidt_estimators ->
  is_histogram et = false /\ is_symbolic et = false
  /\ exists c, which_mi_estimator et sig kw = Ok (sig, Some c).
Proof.
  unfold mi_jidt_estimators. intros Hin.
  repeat (apply elem_of_cons in Hin as [-> | Hin]); [.. | apply elem_of_nil in Hin as []].
  all: split; [reflexivity |]; split; [reflexivity |]; eexists; reflexivity.
Qed.

Lemma which_te_estimator_jidt et kw h :
  et ∈ te_jidt_estimators -> exists c, which_te_estimator et kw h = (h, Ok c).
Proof.
  unfold te_jidt_estimators. intros Hin.
  repeat (apply elem_of_cons in Hin as [-> | Hin]); [.. | apply elem_of_nil in Hin as []].
  all: unfold which_te_estimator, ret; simpl; eexists; reflexivity.
Qed.

Lemma estimate_it_succeeds h sig perm c s1 s2 :
  _initialise_parameter h = None -> epochs_ready h s1 s2 ->
  exists v c', estimate_it h sig perm c s1 s2 = Ok (v, c').
Proof.
  intros Hp Hready. unfold estimate_it.
  destruct (foldM_seq_ok (fun _ _ => True) (estimate_epoch h sig perm s1 s2)
              (n_epo h) ([], c)) as ([v c'] & Hrun & _); [exact I | | eauto].
  intros k [est c0] Hk _. unfold estimate_epoch. rewrite Hp. simpl.
  assert (Hxy : exists X Y, (if _is_epoched h
                             then let* X := take0 s1 k in let* Y := take0 s2 k in Ok (X, Y)
                             else Ok (s1, s2)) = Ok (X, Y)).
  { destruct (_is_epoched h) eqn:He; [| eauto].
    destruct (Hready He k Hk) as (X & Y & -> & ->). simpl. eauto. }
  destruct Hxy as (X & Y & ->). simpl.
  destruct (1 <? _scale_of_organisation h).
  all: destruct (computeAverageLocalOfObservations _) as [r c2].
  all: destruct sig.
  all: try destruct (computeSignificance _ _) as [d c3].
  all: eauto.
Qed.

Lemma fresh_pair_samples d1 d2 h i j :
  fresh d1 d2 h -> rect d1 = true -> rect d2 = true -> i < n_chan h -> j < n_chan h ->
  exists s1 s2, pair_samples h i j = Ok (s1, s2) /\ epochs_ready h s1 s2.
Proof.
  intros (H1 & H2 & Hscale & _ & Hshape & _ & Hdims) Hr1 Hr2 Hi Hj.
  unfold pair_samples, epochs_ready. rewrite Hscale, H1, H2. simpl.
  destruct Hdims as [(He & Hs & Hn) | (He & Hs)]; rewrite He.
  - destruct (rect_row d1 _ _ [] i Hr1 Hs Hi) as (s1 & -> & _).
    rewrite Hshape in Hs.
    destruct (rect_row d2 _ _ [] j Hr2 Hs Hj) as (s2 & -> & _). simpl.
    exists s1, s2. split; [reflexivity | discriminate].
  - destruct (rect_col d1 _ _ _ i Hr1 Hs Hi) as (es1 & -> & Hl1).
    rewrite Hshape in Hs.
    destruct (rect_col d2 _ _ _ j Hr2 Hs Hj) as (es2 & -> & Hl2). simpl.
    exists (Ar es1), (Ar es2). split; [reflexivity |].
    intros _ e Hlt. simpl.
    destruct (lookup_lt_is_Some_2 es1 e) as [X ->]; [lia |].
    destruct (lookup_lt_is_Some_2 es2 e) as [Y ->]; [lia |]. simpl. eauto.
Qed.

Lemma compute_mi_returns d1 d2 names v h et sig kw :
  rect d1 = true -> rect d2 = true -> init d1 d2 names v = Ok h ->
  lower et ∈ mi_jidt_estimators ->
  exists M, compute_mi h et sig kw = Ok M.
Proof.
  intros Hr1 Hr2 Hinit Het. apply init_fresh in Hinit as Hfresh.
  pose proof Hfresh as (_ & _ & Hscale & Hp & _).
  destruct (which_mi_estimator_jidt _ sig kw Het) as (Hh & Hs & c & Hw).
  unfold compute_mi. rewrite Hw. simpl.
  unfold mi_alloc, loop_range. rewrite Hh, Hs, Hscale. simpl.
  set (perm := default 100%Z (kw_stat_sig_perm_num kw)).
  destruct (double_loop_ok (mi_body h (lower et) sig perm) (n_chan h)
              (fun _ _ st => is_Some (fst st) /\ dims (snd st) (n_chan h) (n_chan h))
              ltac:(auto) (Some c, zeros (n_chan h) (n_chan h) (n_epo h) 4))
    as ([c' M] & -> & _).
  - simpl. split; [eauto | apply dims_zeros].
  - intros i j [c0 M] Hi Hj HI. simpl in HI. destruct HI as [[c1 ->] Hd]. simpl.
    unfold mi_body, mi_estimate. rewrite Hh, Hs.
    destruct (_inter_brain h || negb (i =? j)); [| eauto].
    destruct (fresh_pair_samples _ _ _ i j Hfresh Hr1 Hr2 Hi Hj) as (s1 & s2 & -> & Hready).
    simpl.
    destruct (estimate_it_succeeds h sig perm c1 s1 s2 Hp Hready) as (w & c2 & ->). simpl.
    destruct (setitem2_succeeds M i j w _ _ Hd Hi Hj) as (M1 & HM1). rewrite HM1. simpl.
    pose proof (setitem2_dims _ _ _ _ _ _ _ HM1 Hd) as Hd1.
    destruct (negb (_inter_brain h)); [| eauto].
    unfold getitem2. rewrite (setitem2_lookup2 _ _ _ _ _ HM1), bool_decide_eq_true_2 by auto.
    simpl.
    destruct (setitem2_succeeds M1 j i w _ _ Hd1 Hj Hi) as (M2 & HM2). rewrite HM2. simpl.
    pose proof (setitem2_dims _ _ _ _ _ _ _ HM2 Hd1). eauto.
  - simpl. eauto.
Qed.

Lemma compute_te_returns d1 d2 names v h et sig kw :
  rect d1 = true -> rect d2 = true -> init d1 d2 names v = Ok h ->
  lower et ∈ te_jidt_estimators ->
  exists te_xy te_yx, compute_te et sig kw h = (h, Ok (te_xy, te_yx)).
Proof.
  intros Hr1 Hr2 Hinit Het. apply init_fresh in Hinit as Hfresh.
  pose proof Hfresh as (_ & _ & Hscale & Hp & _).
  destruct (which_te_estimator_jidt _ kw h Het) as (c & Hw).
  unfold compute_te, bind, self, lift. rewrite Hw.
  unfold te_alloc, loop_range. rewrite Hscale. simpl.
  set (perm := default 100%Z (kw_stat_sig_perm_num kw)).
  destruct (double_loop_ok (te_body h sig perm) (n_chan h)
              (fun _ _ st => dims (snd (fst st)) (n_chan h) (n_chan h)
                             /\ dims (snd st) (n_chan h) (n_chan h))
              ltac:(auto)
              (c, zeros (n_chan h) (n_chan h) (n_epo h) 4,
               zeros (n_chan h) (n_chan h) (n_epo h) 4))
    as ([[c' xy] yx] & -> & _).
  - simpl. split; apply dims_zeros.
  - intros i j [[c0 xy] yx] Hi Hj [Hd1 Hd2]. simpl in *.
    unfold te_body.
    destruct (_inter_brain h || negb (i =? j)); [| eauto].
    destruct (fresh_pair_samples _ _ _ i j Hfresh Hr1 Hr2 Hi Hj) as (s1 & s2 & -> & Hready).
    simpl.
    destruct (estimate_it_succeeds h sig perm c0 s1 s2 Hp Hready) as (w & c2 & ->). simpl.
    destruct (setitem2_succeeds xy i j w _ _ Hd1 Hi Hj) as (M1 & HM1). rewrite HM1. simpl.
    pose proof (setitem2_dims _ _ _ _ _ _ _ HM1 Hd1) as Hd1'.
    destruct (_inter_brain h); [| eauto].
    assert (Hready' : epochs_ready h s2 s1).
    { intros He e Hlt. destruct (Hready He e Hlt) as (X & Y & ? & ?). eauto. }
    destruct (estimate_it_succeeds h sig perm c2 s2 s1 Hp Hready') as (w' & c3 & ->). simpl.
    destruct (setitem2_succeeds yx i j w' _ _ Hd2 Hi Hj) as (M2 & HM2). rewrite HM2. simpl.
    pose proof (setitem2_dims _ _ _ _ _ _ _ HM2 Hd2). eauto.
  - simpl. eauto.
Qed.

Lemma mi_body_dims h et sig perm c M c' M' i j n m :
  mi_body h et sig perm (c, M) i j = Ok (c', M') -> dims M n m -> dims M' n m.
Proof.
  intros Hrun HM. unfold mi_body in Hrun.
  destruct (_inter_brain h || negb (i =? j)); [| injection Hrun as <- <-; exact HM].
  apply rbind_ok in Hrun as ([s1 s2] & _ & Hrun).
  apply rbind_ok in Hrun as ([v c1] & _ & Hrun).
  apply rbind_ok in Hrun as (M1 & Hset1 & Hrun).
  pose proof (setitem2_dims _ _ _ _ _ _ _ Hset1 HM) as HM1.
  destruct (negb (_inter_brain h)); [| injection Hrun as <- <-; exact HM1].
  apply rbind_ok in Hrun as (v' & _ & Hrun).
  apply rbind_ok in Hrun as (M2 & Hset2 & [= <- <-]).
  eapply setitem2_dims; eauto.
Qed.

Lemma compute_mi_dims h et sig kw M :
  compute_mi h et sig kw = Ok M ->
  exists M0, mi_alloc h (lower et) = Ok M0 /\ forall n m, dims M0 n m -> dims M n m.
Proof.
  intros Hrun. unfold compute_mi in Hrun.
  apply rbind_ok in Hrun as ([sig' c] & _ & Hrun).
  apply rbind_ok in Hrun as (M0 & Halloc & Hrun).
  apply rbind_ok in Hrun as (k & _ & Hrun).
  apply rbind_ok in Hrun as ([c' M'] & Hloop & [= <-]). simpl.
  exists M0. split; [exact Halloc |]. intros n m HM0. revert Hloop.
  apply (double_loop_inv _ k (fun _ _ st => dims (snd st) n m)); [auto | exact HM0 |].
  intros i j [c1 M1] [c2 M2] _ _ HI Hbody. simpl in *. eapply mi_body_dims; eauto.
Qed.

(** *** The claims about the engine *)

(** C1: on an intra-source object, the tensor that [compute_mi] returns
    is symmetric in its unit indices for every epoch and statistic, and
    its diagonal cells hold the zeros of the allocation: the loop body
    does nothing at [(i, i)].  For a freshly constructed object and a
    JIDT estimator the call does return. *)
Theorem C1_compute_mi_intra_symmetric (h : HyperIT) :
  _inter_brain h = false ->
  (forall et sig kw M,
      compute_mi h et sig kw = Ok M ->
      (forall i j e s, tensor_entry M i j e s = tensor_entry M j i e s)
      /\ (forall i e s v, tensor_entry M i i e s = Some v -> v = 0%R))
  /\ (forall et sig perm st i, mi_body h et sig perm st i i = Ok st)
  /\ (forall d1 d2 names v et sig kw,
        rect d1 = true -> rect d2 = true -> init d1 d2 names v = Ok h ->
        lower et ∈ mi_jidt_estimators ->
        exists M, compute_mi h et sig kw = Ok M).
Proof.
  intros Hintra. split; [| split].
  - intros et sig kw M. apply compute_mi_intra_symmetric, Hintra.
  - intros et sig perm st i. apply mi_body_diagonal, Hintra.
  - intros d1 d2 names v et sig kw. apply compute_mi_returns.
Qed.

(** C2: when [compute_te] returns, on an inter-source object every
    pair [(i, j)] of the loop range holds the estimate of [(s1, s2)] in
    the first matrix and the estimate of [(s2, s1)] in the second; on an
    intra-source object the second matrix is the zero-filled
    allocation.  For a freshly constructed object and a JIDT estimator
    the call does return. *)
Theorem C2_compute_te_directions (h : HyperIT) :
  (forall et sig kw h' te_xy te_yx,
      compute_te et sig kw h = (h', Ok (te_xy, te_yx)) ->
      exists n, loop_range h = Ok n
      /\ (_inter_brain h = true ->
          forall i j, i < n -> j < n ->
            te_pair_computed h' sig (default 100%Z (kw_stat_sig_perm_num kw))
                             te_xy te_yx i j)
      /\ (_inter_brain h = false ->
          te_alloc h = Ok te_yx
          /\ forall i j e s x, tensor_entry te_yx i j e s = Some x -> x = 0%R))
  /\ (forall d1 d2 names v et sig kw,
        rect d1 = true -> rect d2 = true -> init d1 d2 names v = Ok h ->
        lower et ∈ te_jidt_estimators ->
        exists te_xy te_yx, compute_te et sig kw h = (h, Ok (te_xy, te_yx))).
Proof.
  split.
  - intros et sig kw h' te_xy te_yx. apply compute_te_pairs.
  - intros d1 d2 names v et sig kw. apply compute_te_returns.
Qed.

(** C4, as the code has it: the statistic axis of the tensor that
    [compute_mi] returns has length 1 for the histogram and symbolic
    estimators and length 4 for every other estimator, whether or not
    significance testing is requested; both tensors of [compute_te] have
    length 4.  Without significance testing the statistics after the
    estimate are zero. *)
Theorem C4_statistic_axis (h : HyperIT) :
  (forall et sig kw M,
      compute_mi h et sig kw = Ok M ->
      stat_length M (mi_stats (lower et))
      /\ (sig = false ->
          forall i j e s x, 1 <= s -> tensor_entry M i j e s = Some x -> x = 0%R))
  /\ (forall et sig kw h' te_xy te_yx,
        compute_te et sig kw h = (h', Ok (te_xy, te_yx)) ->
        stat_length te_xy 4 /\ stat_length te_yx 4
        /\ (sig = false ->
            forall i j e s x, 1 <= s ->
              tensor_entry te_xy i j e s = Some x \/ tensor_entry te_yx i j e s = Some x ->
              x = 0%R)).
Proof.
  split.
  - intros et sig kw M Hrun.
    destruct (compute_mi_cells _ _ _ _ _ Hrun) as [Hshape Hpad].
    pose proof (cells_stat_length _ _ _ Hshape) as Hlen.
    split; [exact Hlen |].
    intros Hsig i j e s x Hs Hx.
    destruct (decide (mi_stats (lower et) = 4)) as [H4 | H4].
    + exact (cells_padded_entries M (Hpad Hsig H4) i j e s x Hs Hx).
    + exfalso. unfold tensor_entry in Hx.
      destruct (lookup2 M i j ≫= (fun c => c !! e)) as [stats |] eqn:Hst.
      * pose proof (Hlen _ _ _ _ Hst) as Hl.
        destruct (lookup2 M i j) as [c |]; [| discriminate]. simpl in Hst, Hx.
        rewrite Hst in Hx. simpl in Hx. apply lookup_lt_Some in Hx.
        unfold mi_stats in *. destruct (is_histogram _ || is_symbolic _); [lia | congruence].
      * destruct (lookup2 M i j) as [c |]; [| discriminate]. simpl in Hst, Hx.
        rewrite Hst in Hx. discriminate.
  - intros et sig kw h' te_xy te_yx Hrun.
    destruct (compute_te_cells _ _ _ _ _ _ _ Hrun) as (Hxy & Hyx & Hpad).
    split; [exact (cells_stat_length _ _ _ Hxy) |].
    split; [exact (cells_stat_length _ _ _ Hyx) |].
    intros Hsig i j e s x Hs [Hx | Hx]; destruct (Hpad Hsig) as [P1 P2].
    + exact (cells_padded_entries te_xy P1 i j e s x Hs Hx).
    + exact (cells_padded_entries te_yx P2 i j e s x Hs Hx).
Qed.

(** C10: with a grouped ROI and the histogram or symbolic estimator,
    [compute_mi] allocates its tensor by the channel count while the
    loops run over the group count; a tensor it returns has channel-count
    unit axes, which differ from the group count whenever the two
    differ. *)
Theorem C10_grouped_tensor_by_channel_count (h : HyperIT) (et : string) :
  1 < _scale_of_organisation h ->
  is_histogram (lower et) || is_symbolic (lower et) = true ->
  mi_alloc h (lower et) = Ok (zeros (n_chan h) (n_chan h) (n_epo h) 1)
  /\ loop_range h = of_option AttributeError (_soi_groups h)
  /\ forall sig kw M,
       compute_mi h et sig kw = Ok M ->
       dims M (n_chan h) (n_chan h)
       /\ forall g, _soi_groups h = Some g -> g <> n_chan h -> length M <> g.
Proof.
  intros Hscale Het.
  assert (Halloc : mi_alloc h (lower et) = Ok (zeros (n_chan h) (n_chan h) (n_epo h) 1)).
  { unfold mi_alloc. rewrite Het. reflexivity. }
  split; [exact Halloc |]. split.
  - unfold loop_range. destruct (_scale_of_organisation h =? 1) eqn:E; [| reflexivity].
    apply Nat.eqb_eq in E. lia.
  - intros sig kw M Hrun.
    destruct (compute_mi_dims _ _ _ _ _ Hrun) as (M0 & HM0 & Hd).
    rewrite Halloc in HM0. injection HM0 as <-.
    pose proof (Hd _ _ (dims_zeros _ _ _ _)) as HM.
    split; [exact HM |]. intros g _ Hg. destruct HM as [-> _]. congruence.
Qed.

End EngineProperties.

Lemma C1_witness :
  exists M, compute_mi solo_h "gaussian" false no_kwargs = Ok M
            /\ (forall i j e s, tensor_entry M i j e s = tensor_entry M j i e s)
            /\ (forall i e s v, tensor_entry M i i e s = Some v -> v = 0%R).
Proof.
  destruct (C1_compute_mi_intra_symmetric solo_h eq_refl) as (Hsym & _ & Hret).
  destruct (Hret solo solo solo_names false "gaussian" false no_kwargs
              eq_refl eq_refl init_solo) as [M HM].
  { vm_compute. repeat first [apply elem_of_cons; left; reflexivity | apply elem_of_cons; right]. }
  exists M. split; [exact HM | exact (Hsym _ _ _ _ HM)].
Defined.

Lemma C2_witness :
  exists te_xy te_yx,
    compute_te "kernel" false no_kwargs demo_h = (demo_h, Ok (te_xy, te_yx))
    /\ forall i j, i < 3 -> j < 3 -> te_pair_computed demo_h false 100 te_xy te_yx i j.
Proof.
  destruct (C2_compute_te_directions demo_h) as (Hpairs & Hret).
  destruct (Hret demo_a demo_b demo_names false "kernel" false no_kwargs
              eq_refl eq_refl init_demo) as (te_xy & te_yx & Hrun).
  { vm_compute. repeat first [apply elem_of_cons; left; reflexivity | apply elem_of_cons; right]. }
  exists te_xy, te_yx. split; [exact Hrun |].
  destruct (Hpairs _ _ _ _ _ _ Hrun) as (n & Hn & Hinter & _).
  injection Hn as <-. exact (Hinter eq_refl).
Defined.

(** On one source the second matrix of [compute_te] stays zero-filled. *)
Example compute_te_solo_second_zero :
  exists te_xy, compute_te "gaussian" false no_kwargs solo_h
                = (solo_h, Ok (te_xy, zeros 2 2 1 4)).
Proof. eexists. vm_compute. reflexivity. Qed.

Lemma C4_witness :
  exists M, compute_mi demo_h "kernel" false no_kwargs = Ok M
            /\ stat_length M 4
            /\ forall i j e s x, 1 <= s -> tensor_entry M i j e s = Some x -> x = 0%R.
Proof.
  destruct (C4_statistic_axis demo_h) as (Hmi & _).
  eexists. split; [vm_compute; reflexivity |].
  match goal with
  | |- stat_length ?M _ /\ _ =>
      destruct (Hmi "kernel" false no_kwargs M ltac:(vm_compute; reflexivity)) as [Hlen Hpad]
  end.
  split; [exact Hlen | exact (Hpad eq_refl)].
Defined.

(** C4 as stated fails: the kernel estimator without significance
    testing returns a tensor whose statistic axis has length 4. *)
Lemma C4_counterexample :
  exists M, compute_mi demo_h "kernel" false no_kwargs = Ok M
            /\ tensor_shape M = (3, 3, 1, 4)
            /\ ~ stat_length M 1.
Proof.
  eexists. split; [vm_compute; reflexivity |]. split; [reflexivity |].
  intros Hlen. specialize (Hlen 0 0 0 _ eq_refl). simpl in Hlen. lia.
Qed.

Example roi_solo_grouped :
  snd (roi_setter solo_grouped_roi solo_h) = Ok tt
  /\ _scale_of_organisation solo_grouped_h = 2
  /\ _soi_groups solo_grouped_h = Some 1
  /\ n_chan solo_grouped_h = 2.
Proof. vm_compute. repeat split; reflexivity. Qed.

Lemma C10_witness :
  exists M, compute_mi solo_grouped_h "histogram" false no_kwargs = Ok M
            /\ dims M 2 2 /\ length M <> 1.
Proof.
  destruct (C10_grouped_tensor_by_channel_count solo_grouped_h "histogram")
    as (_ & _ & Hret).
  { vm_compute. lia. }
  { reflexivity. }
  eexists. split; [vm_compute; reflexivity |].
  match goal with
  | |- dims ?M _ _ /\ _ =>
      destruct (Hret false no_kwargs M ltac:(vm_compute; reflexivity)) as [Hd Hne]
  end.
  split; [exact Hd | exact (Hne 1 eq_refl ltac:(vm_compute; lia))].
Defined.

(** ** The symbolic estimator *)

Lemma tally_snoc keys key : tally (keys ++ [key]) = incr key (tally keys).
Proof. unfold tally. rewrite fold_left_app. reflexivity. Qed.

Lemma total_incr key d : count_total (incr key d) = S (count_total d).
Proof.
  unfold count_total. induction d as [| [k v] d IH]; simpl; [reflexivity |].
  case_bool_decide; simpl; [lia | rewrite IH; lia].
Qed.

Lemma total_tally keys : count_total (tally keys) = length keys.
Proof.
  induction keys as [| key keys IH] using rev_ind; [reflexivity |].
  rewrite tally_snoc, total_incr, IH, length_app. simpl. lia.
Qed.

Lemma count_loop_prefix (hash_X hash_Y : list nat) n :
  n <= length hash_X -> n <= length hash_Y ->
  foldM (count_step hash_X hash_Y) ([], [], []) (seq 0 n)
  = Ok (tally (zip_with joint_key (take n hash_X) (take n hash_Y)),
        tally (map marginal_key (take n hash_X)),
        tally (map marginal_key (take n hash_Y))).
Proof.
  induction n as [| n IH]; intros HX HY; [reflexivity |].
  rewrite seq_S, foldM_app, IH by lia. simpl.
  destruct (lookup_lt_is_Some_2 hash_X n) as [hx Hx]; [lia |].
  destruct (lookup_lt_is_Some_2 hash_Y n) as [hy Hy]; [lia |].
  rewrite Hx, Hy. simpl.
  rewrite (take_S_r _ _ _ Hx), (take_S_r _ _ _ Hy).
  rewrite zip_with_app by (rewrite !length_take; lia).
  rewrite !map_app. simpl. rewrite !tally_snoc. reflexivity.
Qed.

Lemma symb_count_first hash_X hash_Y :
  length hash_X - 1 <= length hash_Y ->
  let n := length hash_X - 1 in
  symb_count hash_X hash_Y
  = Ok (tally (zip_with joint_key (take n hash_X) (take n hash_Y)),
        tally (map marginal_key (take n hash_X)),
        tally (map marginal_key (take n hash_Y))).
Proof. intros H n. apply count_loop_prefix; unfold n; lia. Qed.

Lemma symb_count_last_ignored hx hy a b a' b' :
  length hx = length hy ->
  symb_count (hx ++ [a]) (hy ++ [b]) = symb_count (hx ++ [a']) (hy ++ [b']).
Proof.
  intros Hlen. rewrite !symb_count_first by (rewrite !length_app; simpl; lia).
  rewrite !length_app. simpl. replace (length hx + 1 - 1) with (length hx) by lia.
  rewrite !take_app_length. rewrite Hlen, !take_app_length. reflexivity.
Qed.

Lemma as_1d_array1 x : as_1d (array1 x) = Some x.
Proof.
  unfold as_1d, array1. induction x as [| q x IH]; [reflexivity |].
  simpl. rewrite IH. reflexivity.
Qed.

Lemma symb_symbolise_array1 x l m :
  symb_symbolise (array1 x) l m =
    let N := (Z.of_nat (length x) - (Z.of_nat m - 1) * Z.of_nat l)%Z in
    if (N <? 0)%Z then Raise (ValueError "negative dimensions are not allowed")
    else
      let* Y := mapR (lagged_copy (Z.to_nat N) l x) (seq 0 m) in
      Ok (map (fun k => column 0%Q Y k) (seq 0 (Z.to_nat N))).
Proof. unfold symb_symbolise. rewrite as_1d_array1. reflexivity. Qed.

(** Two runs of the stacking loop on sequences that agree before
    position [n]: same outcome, and rows that agree before [k]. *)
Lemma pieces_agree N l (x x' : list Q) n k L :
  length x = length x' -> k <= N ->
  (forall j, j < n -> x !! j = x' !! j) ->
  (forall i j, i ∈ L -> j < k -> i * l + j < n) ->
  match mapR (lagged_copy N l x) L, mapR (lagged_copy N l x') L with
  | Ok Y, Ok Y' => Forall2 (fun p p' => forall j, j < k -> nth j p 0%Q = nth j p' 0%Q) Y Y'
  | Raise e, Raise e' => e = e'
  | _, _ => False
  end.
Proof.
  intros Hlen HkN Hagree HL. induction L as [| i L IH]; simpl; [constructor |].
  assert (Hl : length (take N (drop (i * l) x)) = length (take N (drop (i * l) x'))).
  { rewrite !length_take, !length_drop, Hlen. reflexivity. }
  specialize (IH ltac:(intros i' j' Hi'; apply HL; right; exact Hi')).
  assert (Hcopy : lagged_copy N l x' i =
                   match lagged_copy N l x i with
                   | Ok _ => Ok (take N (drop (i * l) x'))
                   | Raise e => Raise e
                   end).
  { unfold lagged_copy. rewrite <- Hl. destruct (_ =? N); reflexivity. }
  rewrite Hcopy. destruct (lagged_copy N l x i) as [p | e0] eqn:Hp; cbn [rbind]; [| reflexivity].
  unfold lagged_copy in Hp.
  destruct (length (take N (drop (i * l) x)) =? N) eqn:HN; [| discriminate].
  injection Hp as <-.
  destruct (mapR (lagged_copy N l x) L) as [Y | e], (mapR (lagged_copy N l x') L) as [Y' | e'];
    cbn [rbind]; try exact IH.
  constructor; [| exact IH].
  intros j Hj. apply Nat.eqb_eq in HN.
  assert (Hi : i * l + j < n) by (apply HL; [left | exact Hj]).
  rewrite !(nth_lookup _ _ 0%Q), !lookup_take_lt, !lookup_drop by lia.
  rewrite Hagree by lia. reflexivity.
Qed.

Lemma window_bound len m l i j N :
  Z.of_nat N = (Z.of_nat (len + 1) - (Z.of_nat m - 1) * Z.of_nat l)%Z ->
  i < m -> j < N - 1 -> i * l + j < len.
Proof.
  intros HN Hi Hj.
  assert (Z.of_nat (i * l) <= (Z.of_nat m - 1) * Z.of_nat l)%Z.
  { rewrite Nat2Z.inj_mul. apply Z.mul_le_mono_nonneg_r; lia. }
  lia.
Qed.

Lemma symbol_hashes_last_window x a a' l m :
  match symbol_hashes (array1 (x ++ [a])) l m, symbol_hashes (array1 (x ++ [a'])) l m with
  | Ok hs, Ok hs' => length hs = length hs'
                     /\ take (length hs - 1) hs = take (length hs - 1) hs'
  | Raise e, Raise e' => e = e'
  | _, _ => False
  end.
Proof.
  unfold symbol_hashes. rewrite !symb_symbolise_array1. simpl.
  rewrite !length_app. simpl.
  set (Nz := (Z.of_nat (length x + 1) - (Z.of_nat m - 1) * Z.of_nat l)%Z).
  destruct (Nz <? 0)%Z eqn:HNz; simpl; [reflexivity |].
  apply Z.ltb_ge in HNz. set (N := Z.to_nat Nz).
  pose proof (pieces_agree N l (x ++ [a]) (x ++ [a']) (length x) (N - 1) (seq 0 m)) as Hp.
  destruct (mapR (lagged_copy N l (x ++ [a])) (seq 0 m)) as [Y | e],
           (mapR (lagged_copy N l (x ++ [a'])) (seq 0 m)) as [Y' | e']; simpl.
  - assert (HY : Forall2 (fun p p' => forall j, j < N - 1 -> nth j p 0%Q = nth j p' 0%Q) Y Y').
    { apply Hp.
      - rewrite !length_app. reflexivity.
      - lia.
      - intros j Hj. rewrite !lookup_app_l by lia. reflexivity.
      - intros i j Hi Hj. apply elem_of_seq in Hi. apply (window_bound _ m _ _ _ N); [unfold N; lia | lia | lia]. }
    rewrite !length_map, !length_seq. split; [reflexivity |].
    rewrite !firstn_map, !take_seq. rewrite Nat.min_l by lia.
    rewrite !map_map. apply map_ext_in. intros k Hk. apply in_seq in Hk.
    f_equal. f_equal. unfold column. clear -HY Hk.
    induction HY as [| p p' Y Y' Hpp _ IH]; simpl; [reflexivity |].
    rewrite Hpp by lia. rewrite IH. reflexivity.
  - exfalso. apply Hp; [rewrite !length_app; reflexivity | lia | |].
    + intros j Hj. rewrite !lookup_app_l by lia. reflexivity.
    + intros i j Hi Hj. apply elem_of_seq in Hi. apply (window_bound _ m _ _ _ N); [unfold N; lia | lia | lia].
  - exfalso. apply Hp; [rewrite !length_app; reflexivity | lia | |].
    + intros j Hj. rewrite !lookup_app_l by lia. reflexivity.
    + intros i j Hi Hj. apply elem_of_seq in Hi. apply (window_bound _ m _ _ _ N); [unfold N; lia | lia | lia].
  - apply Hp; [rewrite !length_app; reflexivity | lia | |].
    + intros j Hj. rewrite !lookup_app_l by lia. reflexivity.
    + intros i j Hi Hj. apply elem_of_seq in Hi. apply (window_bound _ m _ _ _ N); [unfold N; lia | lia | lia].
Qed.

Lemma symb_count_take hX hY hX' hY' :
  length hX = length hX' -> length hY = length hY' -> length hX = length hY ->
  take (length hX - 1) hX = take (length hX - 1) hX' ->
  take (length hY - 1) hY = take (length hY - 1) hY' ->
  symb_count hX hY = symb_count hX' hY'.
Proof.
  intros H1 H2 H3 H4 H5. rewrite !symb_count_first by lia.
  rewrite <- H1. rewrite H3 in *. rewrite <- H4, <- H5. reflexivity.
Qed.

Lemma symbol_hashes_length x l m hs :
  symbol_hashes (array1 x) l m = Ok hs ->
  Z.of_nat (length hs) = (Z.of_nat (length x) - (Z.of_nat m - 1) * Z.of_nat l)%Z.
Proof.
  unfold symbol_hashes. rewrite symb_symbolise_array1. simpl.
  destruct (_ <? 0)%Z eqn:HN; [discriminate |]. apply Z.ltb_ge in HN.
  destruct (mapR _ _); simpl; [| discriminate].
  intros [= <-]. rewrite !length_map, length_seq. lia.
Qed.

Lemma mi_symb_epoch_last_sample x y a b a' b' l m :
  length x = length y ->
  mi_symb_epoch (array1 (x ++ [a])) (array1 (y ++ [b])) l m
  = mi_symb_epoch (array1 (x ++ [a'])) (array1 (y ++ [b'])) l m.
Proof.
  intros Hlen. unfold mi_symb_epoch.
  pose proof (symbol_hashes_last_window x a a' l m) as HX.
  pose proof (symbol_hashes_last_window y b b' l m) as HY.
  destruct (symbol_hashes (array1 (x ++ [a])) l m) as [hX | e] eqn:E1,
           (symbol_hashes (array1 (x ++ [a'])) l m) as [hX' | e'] eqn:E2;
    simpl; try contradiction; [| congruence].
  destruct (symbol_hashes (array1 (y ++ [b])) l m) as [hY | f] eqn:E3,
           (symbol_hashes (array1 (y ++ [b'])) l m) as [hY' | f'] eqn:E4;
    simpl; try contradiction; [| congruence].
  destruct HX as [HX1 HX2], HY as [HY1 HY2].
  apply symbol_hashes_length in E1, E3. rewrite !length_app in E1, E3. simpl in E1, E3.
  rewrite (symb_count_take hX hY hX' hY'); try assumption; [reflexivity | lia].
Qed.

(** C9: the counting loop of the symbolic estimator tallies the first
    [N - 1] of the [N] hash values and nothing else, so each of the three
    distributions is built from [N - 1] observations; the estimate of an
    epoch does not change when the last sample of either sequence, which
    only the final window holds, is replaced. *)
Theorem C9_last_window_excluded :
  (forall hash_X hash_Y : list nat,
      length hash_X = length hash_Y ->
      let n := length hash_X - 1 in
      symb_count hash_X hash_Y
      = Ok (tally (zip_with joint_key (take n hash_X) (take n hash_Y)),
            tally (map marginal_key (take n hash_X)),
            tally (map marginal_key (take n hash_Y)))
      /\ count_total (tally (zip_with joint_key (take n hash_X) (take n hash_Y))) = n
      /\ count_total (tally (map marginal_key (take n hash_X))) = n
      /\ count_total (tally (map marginal_key (take n hash_Y))) = n)
  /\ (forall (x y : list Q) a b a' b' l m,
        length x = length y ->
        mi_symb_epoch (array1 (x ++ [a])) (array1 (y ++ [b])) l m
        = mi_symb_epoch (array1 (x ++ [a'])) (array1 (y ++ [b'])) l m).
Proof.
  split.
  - intros hash_X hash_Y Hlen n. split; [apply symb_count_first; lia |].
    rewrite !total_tally, length_zip_with, !length_map, !length_take.
    unfold n. repeat split; lia.
  - intros x y a b a' b' l m. apply mi_symb_epoch_last_sample.
Qed.

Lemma C9_witness :
  symb_count [21; 5; 21; 7] [1; 1; 3; 0]
  = Ok ([("21,1", 1); ("5,1", 1); ("21,3", 1)],
        [("21", 2); ("5", 1)],
        [("1", 2); ("3", 1)]).
Proof.
  destruct C9_last_window_excluded as [Hcount _].
  destruct (Hcount [21; 5; 21; 7] [1; 1; 3; 0] eq_refl) as [Hrun _].
  exact Hrun.
Defined.

(** The hashes of a short sequence: windows of three samples, ranked. *)
Example symbol_hashes_demo :
  symbol_hashes (vec [3; 1; 2; 5; 4]%Z) 1 3 = Ok [7; 21; 15].
Proof. vm_compute. reflexivity. Qed.

(** ** The histogram estimator *)

Lemma fadd_comm x y : fadd x y = fadd y x.
Proof. destruct x, y; simpl; try reflexivity. f_equal. apply Rplus_comm. Qed.

Lemma calc_fd_bins_sym X Y : same_outcome (calc_fd_bins X Y) (calc_fd_bins Y X).
Proof.
  unfold calc_fd_bins.
  destruct (fd_bins_of X) as [a | e], (fd_bins_of Y) as [b | e']; simpl; try exact I.
  rewrite (fadd_comm b a). destruct (to_int _); simpl; auto.
Qed.

Lemma count_pairs_swap bx by_ i j : count_pairs by_ bx i j = count_pairs bx by_ j i.
Proof.
  unfold count_pairs. revert by_.
  induction bx as [| a bx IH]; intros [| b by_]; simpl; try reflexivity.
  rewrite !filter_cons. specialize (IH by_).
  destruct (decide ((b, a) = (i, j))) as [E | E], (decide ((a, b) = (j, i))) as [E' | E'];
    simpl; try (rewrite IH; reflexivity).
  - exfalso. apply E'. congruence.
  - exfalso. apply E. congruence.
Qed.

Lemma histogram2d_swap X Y bins :
  match histogram2d X Y bins, histogram2d Y X bins with
  | Ok J, Ok J' => exists b F, J = table b F /\ J' = table b (fun i j => F j i)
  | Raise _, Raise _ => True
  | _, _ => False
  end.
Proof.
  unfold histogram2d.
  destruct (as_1d X) as [x |], (as_1d Y) as [y |]; try exact I.
  rewrite (Nat.eqb_sym (length y) (length x)).
  destruct (negb (length x =? length y)); [exact I |].
  destruct (bins <? 1)%Z; [exact I |].
  eexists (Z.to_nat bins), _. split; [reflexivity |].
  unfold table. apply map_ext. intros i. apply map_ext. intros j.
  apply count_pairs_swap.
Qed.

Lemma Rsum_app l1 l2 : Rsum (l1 ++ l2) = (Rsum l1 + Rsum l2)%R.
Proof. induction l1 as [| a l1 IH]; simpl; [lra | rewrite IH; lra]. Qed.

Lemma Rsum_concat_rows {I J} (G : I -> J -> R) (l1 : list I) (l2 : list J) :
  Rsum (concat (map (fun i => map (fun j => G i j) l2) l1))
  = Rsum (map (fun i => Rsum (map (fun j => G i j) l2)) l1).
Proof.
  induction l1 as [| i l1 IH]; simpl; [reflexivity |].
  rewrite Rsum_app, IH. reflexivity.
Qed.

Lemma Rsum_map_plus {I} (f g : I -> R) (l : list I) :
  Rsum (map (fun i => f i + g i)%R l) = (Rsum (map f l) + Rsum (map g l))%R.
Proof. induction l as [| i l IH]; simpl; [lra | rewrite IH; lra]. Qed.

Lemma Rsum_map_zero {I} (l : list I) : Rsum (map (fun _ => 0%R) l) = 0%R.
Proof. induction l as [| i l IH]; simpl; [reflexivity | rewrite IH; lra]. Qed.

Lemma Rsum_exchange {I J} (G : I -> J -> R) (l1 : list I) (l2 : list J) :
  Rsum (map (fun i => Rsum (map (fun j => G i j) l2)) l1)
  = Rsum (map (fun j => Rsum (map (fun i => G i j) l1)) l2).
Proof.
  induction l1 as [| i l1 IH]; simpl.
  - rewrite Rsum_map_zero. reflexivity.
  - rewrite IH. rewrite <- Rsum_map_plus. reflexivity.
Qed.

Lemma map_table {A B} (f : A -> B) b (F : nat -> nat -> A) :
  map (map f) (table b F) = table b (fun i j => f (F i j)).
Proof.
  unfold table. rewrite map_map. apply map_ext. intros i. rewrite map_map. reflexivity.
Qed.

Lemma concat_map_table {A B} (f : A -> B) b (F : nat -> nat -> A) :
  map f (concat (table b F)) = concat (table b (fun i j => f (F i j))).
Proof. rewrite <- map_table. apply concat_map. Qed.

Lemma Rsum_table b (G : nat -> nat -> R) :
  Rsum (concat (table b G))
  = Rsum (map (fun i => Rsum (map (fun j => G i j) (seq 0 b))) (seq 0 b)).
Proof. apply Rsum_concat_rows. Qed.

Lemma Rsum_table_swap b (G : nat -> nat -> R) :
  Rsum (concat (table b (fun i j => G j i))) = Rsum (concat (table b G)).
Proof. rewrite !Rsum_table. apply Rsum_exchange. Qed.

Lemma row_sums_table b (G : nat -> nat -> R) :
  map Rsum (table b G) = map (fun i => Rsum (map (fun j => G i j) (seq 0 b))) (seq 0 b).
Proof. unfold table. rewrite map_map. reflexivity. Qed.

Lemma length_hd_table {A} b (G : nat -> nat -> A) : length (hd [] (table b G)) = b.
Proof.
  unfold table. destruct b as [| b]; [reflexivity |].
  simpl. rewrite length_map, length_seq. reflexivity.
Qed.

Lemma column_table b (G : nat -> nat -> R) j :
  j < b -> column 0%R (table b G) j = map (fun i => G i j) (seq 0 b).
Proof.
  intros Hj. unfold column, table. rewrite map_map. apply map_ext. intros i.
  rewrite (nth_indep _ 0%R (G i 0)) by (rewrite length_map, length_seq; exact Hj).
  rewrite (map_nth (fun j => G i j)), seq_nth by exact Hj. reflexivity.
Qed.

Lemma column_sums_table b (G : nat -> nat -> R) :
  map (fun j => Rsum (column 0%R (table b G) j)) (seq 0 (length (hd [] (table b G))))
  = map (fun j => Rsum (map (fun i => G i j) (seq 0 b))) (seq 0 b).
Proof.
  rewrite length_hd_table. apply map_ext_in. intros j Hj. apply in_seq in Hj.
  rewrite column_table by lia. reflexivity.
Qed.

Lemma mi_of_counts_swap b (F : nat -> nat -> nat) :
  mi_of_counts (table b (fun i j => F j i)) = mi_of_counts (table b F).
Proof.
  unfold mi_of_counts.
  rewrite !concat_map_table.
  rewrite (Rsum_table_swap b (fun i j => INR (F i j))).
  set (t := Rsum (concat (table b (fun i j => INR (F i j))))).
  rewrite !map_table.
  set (P := fun i j => (INR (F i j) / t)%R).
  change (table b (fun i j => (INR (F j i) / t)%R)) with (table b (fun i j => P j i)).
  rewrite !row_sums_table, !column_sums_table.
  unfold entropy. rewrite !concat_map_table.
  rewrite (Rsum_table_swap b (fun i j => (P i j * log2 (P i j + eps))%R)).
  lra.
Qed.

Lemma epoch_pair_swap h s1 s2 e :
  match epoch_pair h s1 s2 e, epoch_pair h s2 s1 e with
  | Ok (X, Y), Ok (Y', X') => X' = X /\ Y' = Y
  | Raise _, Raise _ => True
  | _, _ => False
  end.
Proof.
  unfold epoch_pair. destruct (_is_epoched h); [| auto].
  destruct (row s1 e), (row s2 e); simpl; auto.
Qed.

Lemma mi_hist_symmetric h s1 s2 : same_outcome (mi_hist h s1 s2) (mi_hist h s2 s1).
Proof.
  unfold mi_hist. apply mapR_same_outcome. intros e.
  pose proof (epoch_pair_swap h s1 s2 e) as Hp.
  destruct (epoch_pair h s1 s2 e) as [[X Y] | ?], (epoch_pair h s2 s1 e) as [[Y' X'] | ?];
    simpl; try contradiction; auto.
  destruct Hp as [-> ->].
  pose proof (calc_fd_bins_sym X Y) as Hb.
  destruct (calc_fd_bins X Y) as [bins | ?], (calc_fd_bins Y X) as [bins' | ?];
    simpl in *; try contradiction; auto.
  subst bins'.
  pose proof (histogram2d_swap X Y bins) as Hh.
  destruct (histogram2d X Y bins) as [J | ?], (histogram2d Y X bins) as [J' | ?];
    simpl; try contradiction; auto.
  destruct Hh as (b & F & -> & ->). rewrite mi_of_counts_swap. reflexivity.
Qed.

(** ** The Freedman-Diaconis bin count *)

Lemma Qmaximum_ge x l : (x <= Qmaximum x l)%Q.
Proof.
  unfold Qmaximum. revert x. induction l as [| b l IH]; intros x; simpl; [lra |].
  destruct (Qle_bool x b) eqn:E.
  - apply Qle_bool_iff in E. specialize (IH b). lra.
  - apply IH.
Qed.

Lemma Qminimum_le x l : (Qminimum x l <= x)%Q.
Proof.
  unfold Qminimum. revert x. induction l as [| b l IH]; intros x; simpl; [lra |].
  destruct (Qle_bool b x) eqn:E.
  - apply Qle_bool_iff in E. specialize (IH b). lra.
  - apply IH.
Qed.

Lemma ravel_array1 x : ravel (array1 x) = x.
Proof. unfold array1. simpl. induction x as [| q x IH]; simpl; congruence. Qed.

Lemma ptp_array1 x :
  x <> [] -> exists range, ptp (array1 x) = Ok range /\ (0 <= range)%Q.
Proof.
  intros Hne. unfold ptp. rewrite ravel_array1. destruct x as [| a l]; [congruence |].
  eexists. split; [reflexivity |].
  pose proof (Qmaximum_ge a l). pose proof (Qminimum_le a l). lra.
Qed.




Section percentile.
Variable s : list Q.
Hypothesis Hsorted : StronglySorted Qle s.
Hypothesis Hlen : 1 <= length s.

Local Abbreviation n := (length s).
Local Abbreviation top := (inject_Z (Z.of_nat (length s - 1))).






End percentile.





Lemma np_len_array1 x : np_len (array1 x) = Ok (length x).
Proof. unfold np_len, array1. rewrite length_map. reflexivity. Qed.


(** The per-sequence bin count when the interquartile range is zero:
    the division by zero is carried out. *)
Lemma fd_bins_of_zero_iqr x :
  x <> [] -> (iqr (array1 x) == 0)%Q ->
  fd_divisor (array1 x) (length x) = 0%R
  /\ (fd_bins_of (array1 x) = Ok PInf \/ fd_bins_of (array1 x) = Ok NaN).
Proof.
  intros Hne Hiqr.
  assert (Hd : fd_divisor (array1 x) (length x) = 0%R).
  { unfold fd_divisor. rewrite (Qeq_eqR _ _ Hiqr), RMicromega.Q2R_0. lra. }
  split; [exact Hd |].
  destruct (ptp_array1 x Hne) as (range & Hrange & Hr0).
  unfold fd_bins_of. rewrite Hrange, np_len_array1. simpl. rewrite Hd.
  destruct (Req_EM_T 0 0) as [_ | C]; [| congruence].
  destruct (Req_EM_T (Q2R range) 0) as [_ | Hnz]; [right; reflexivity |].
  destruct (Rlt_dec 0 (Q2R range)) as [_ | Hn]; [left; reflexivity |].
  exfalso. apply Qle_Rle in Hr0. rewrite RMicromega.Q2R_0 in Hr0. lra.
Qed.

Lemma fd_bins_of_not_ninf x f : fd_bins_of (array1 x) = Ok f -> f <> NInf.
Proof.
  unfold fd_bins_of. intros Hrun.
  apply rbind_ok in Hrun as (range & Hrange & Hrun).
  apply rbind_ok in Hrun as (n & _ & [= <-]).
  assert (Hne : x <> []).
  { intros ->. unfold ptp in Hrange. rewrite ravel_array1 in Hrange. discriminate. }
  destruct (ptp_array1 x Hne) as (range' & Hrange' & Hr0).
  rewrite Hrange in Hrange'. injection Hrange' as <-.
  apply Qle_Rle in Hr0. rewrite RMicromega.Q2R_0 in Hr0.
  simpl. destruct (Req_EM_T _ 0); [| discriminate].
  destruct (Req_EM_T _ 0); [discriminate |].
  destruct (Rlt_dec 0 _); [discriminate | lra].
Qed.


Lemma calc_fd_bins_zero_iqr x y :
  x <> [] -> y <> [] ->
  (iqr (array1 x) == 0)%Q \/ (iqr (array1 y) == 0)%Q ->
  int_of_special (calc_fd_bins (array1 x) (array1 y)).
Proof.
  intros Hx Hy Hz. unfold calc_fd_bins.
  destruct (ptp_array1 x Hx) as (rx & Hrx & _), (ptp_array1 y Hy) as (ry & Hry & _).
  destruct (fd_bins_of (array1 x)) as [a | e] eqn:Ea.
  2:{ unfold fd_bins_of in Ea. rewrite Hrx, np_len_array1 in Ea. discriminate. }
  destruct (fd_bins_of (array1 y)) as [b | e] eqn:Eb.
  2:{ unfold fd_bins_of in Eb. rewrite Hry, np_len_array1 in Eb. discriminate. }
  pose proof (fd_bins_of_not_ninf x a Ea) as Na.
  pose proof (fd_bins_of_not_ninf y b Eb) as Nb.
  simpl.
  assert (Hs : fadd a b = PInf \/ fadd a b = NaN).
  { destruct Hz as [Hz | Hz].
    - destruct (fd_bins_of_zero_iqr x Hx Hz) as [_ [E | E]]; rewrite Ea in E;
        injection E as ->; destruct b; simpl; auto; congruence.
    - destruct (fd_bins_of_zero_iqr y Hy Hz) as [_ [E | E]]; rewrite Eb in E;
        injection E as ->; destruct a; simpl; auto; congruence. }
  destruct Hs as [-> | ->]; simpl.
  - destruct (Rlt_dec 2 0); [lra |]. left. reflexivity.
  - right. reflexivity.
Qed.


Corollary mi_hist_swap_value h s1 s2 v : mi_hist h s1 s2 = Ok v -> mi_hist h s2 s1 = Ok v.
Proof.
  intros Hv. pose proof (mi_hist_symmetric h s1 s2) as Hs. rewrite Hv in Hs.
  destruct (mi_hist h s2 s1); simpl in Hs; [congruence | contradiction].
Qed.



(** A constant sequence: zero range and zero interquartile range, and the
    bin count of the pair cannot be converted. *)
Example constant_sequence_rejected :
  int_of_special (calc_fd_bins (vec [7; 7; 7]%Z) (vec [3; 1; 2]%Z)).
Proof.
  apply (calc_fd_bins_zero_iqr (map inject_Z [7; 7; 7]%Z) (map inject_Z [3; 1; 2]%Z)).
  - discriminate.
  - discriminate.
  - left. vm_compute. reflexivity.
Qed.

(** * Further properties *)

(** ** Names and indices *)

Lemma find_index_first name l i :
  find_index name l = Some i ->
  l !! i = Some (PStr name) /\ forall j, j < i -> l !! j <> Some (PStr name).
Proof.
  revert i. induction l as [| x l IH]; intros i; simpl; [discriminate |].
  destruct x as [s | z | l0].
  - case_bool_decide as Hs.
    + intros [= <-]. subst. split; [reflexivity | intros j Hj; lia].
    + destruct (find_index name l) as [k |] eqn:Hk; simpl; [| discriminate].
      intros [= <-]. destruct (IH k eq_refl) as [H1 H2]. split; [exact H1 |].
      intros [| j] Hj; simpl; [congruence | apply H2; lia].
  - destruct (find_index name l) as [k |] eqn:Hk; simpl; [| discriminate].
    intros [= <-]. destruct (IH k eq_refl) as [H1 H2]. split; [exact H1 |].
    intros [| j] Hj; simpl; [discriminate | apply H2; lia].
  - destruct (find_index name l) as [k |] eqn:Hk; simpl; [| discriminate].
    intros [= <-]. destruct (IH k eq_refl) as [H1 H2]. split; [exact H1 |].
    intros [| j] Hj; simpl; [discriminate | apply H2; lia].
Qed.

Lemma find_index_present name l : PStr name ∈ l -> is_Some (find_index name l).
Proof.
  induction l as [| x l IH]; intros Hin; [inversion Hin |].
  apply elem_of_cons in Hin as [<- | Hin]; simpl.
  - rewrite bool_decide_eq_true_2 by reflexivity. eauto.
  - destruct (IH Hin) as [k Hk]. rewrite Hk.
    destruct x; simpl; [case_bool_decide |..]; eauto.
Qed.


Lemma wrap_index_nat len i : i < len -> wrap_index len (Z.of_nat i) = Some i.
Proof.
  intros Hi. unfold wrap_index.
  replace (0 <=? Z.of_nat i)%Z with true by (symmetry; apply Z.leb_le; lia).
  replace (Z.of_nat i <? Z.of_nat len)%Z with true by (symmetry; apply Z.ltb_lt; lia).
  simpl. rewrite Nat2Z.id. reflexivity.
Qed.

(** A name that is in the list goes to an index that comes back to it. *)
Lemma name_index_name cl s :
  PStr s ∈ cl ->
  exists i, name_to_index (PList cl) (PStr s) = Ok (PInt (Z.of_nat i))
            /\ index_to_name (PList cl) (PInt (Z.of_nat i)) = Ok (PStr s).
Proof.
  intros Hin. destruct (find_index_present s cl Hin) as [i Hi].
  exists i. simpl. rewrite Hi. simpl. split; [reflexivity |].
  destruct (find_index_first _ _ _ Hi) as [Hl _].
  rewrite wrap_index_nat by (eapply lookup_lt_Some, Hl). simpl. rewrite Hl. reflexivity.
Qed.

Lemma names_indices_list cl (ss : list string) :
  Forall (fun s => PStr s ∈ cl) ss ->
  exists idx, mapR (name_to_index (PList cl)) (map PStr ss) = Ok idx
              /\ mapR (index_to_name (PList cl)) idx = Ok (map PStr ss)
              /\ Forall (fun v => is_list v = false) idx
              /\ length idx = length ss.
Proof.
  induction 1 as [| s ss Hs _ IH].
  - exists []. repeat split; constructor.
  - destruct IH as (idx & H1 & H2 & H3 & H4).
    destruct (name_index_name cl s Hs) as (i & Hi & Hback).
    exists (PInt (Z.of_nat i) :: idx).
    cbn [map mapR]. rewrite Hi, H1. cbn [rbind]. rewrite Hback, H2. cbn [rbind].
    repeat split; [constructor; [reflexivity | exact H3] | simpl; lia].
Qed.

Lemma forallb_is_list_strs (ss : list string) :
  forallb is_list (map PStr ss) = bool_decide (ss = []).
Proof. destruct ss; reflexivity. Qed.

Lemma forallb_is_list_false (idx : list pyval) :
  idx <> [] -> Forall (fun v => is_list v = false) idx -> forallb is_list idx = false.
Proof. destruct 2 as [| v idx Hv _]; [congruence |]. simpl. rewrite Hv. reflexivity. Qed.

(** X1: channel names that are in the list of the participant are converted
    to indices that [__convert_indices_to_names] converts back to the same
    names, for a simple list and for a list of groups. *)
Theorem names_indices_round_trip (h : HyperIT) (participant : nat) (cl : list pyval) :
  py_getitem (_channel_names h) participant = Ok (PList cl) ->
  (forall ss : list string,
      Forall (fun s => PStr s ∈ cl) ss ->
      exists idx, convert_names_to_indices h (names ss) participant = Ok idx
                  /\ convert_indices_to_names h idx participant = Ok (names ss))
  /\ (forall gs : list (list string),
        Forall (Forall (fun s => PStr s ∈ cl)) gs ->
        exists idx, convert_names_to_indices h (PList (map names gs)) participant = Ok idx
                    /\ convert_indices_to_names h idx participant = Ok (PList (map names gs))).
Proof.
  intros Hcn. split.
  - intros ss Hss. unfold convert_names_to_indices, convert_indices_to_names, names.
    rewrite Hcn. cbn [rbind]. rewrite forallb_is_list_strs.
    destruct ss as [| s ss].
    + exists (PList []). split; reflexivity.
    + rewrite bool_decide_eq_false_2 by discriminate.
      destruct (names_indices_list cl (s :: ss) Hss) as (idx & H1 & H2 & H3 & H4).
      exists (PList idx). rewrite H1. cbn [rbind]. split; [reflexivity |].
      rewrite forallb_is_list_false; [| destruct idx; [discriminate | congruence] | exact H3].
      rewrite H2. reflexivity.
  - intros gs Hgs. unfold convert_names_to_indices, convert_indices_to_names, names.
    rewrite Hcn. cbn [rbind].
    assert (Hall : forallb is_list (map (fun l => PList (map PStr l)) gs) = true).
    { clear. induction gs; simpl; auto. }
    rewrite Hall.
    assert (Hmap : exists idx,
               mapR (fun group => let* g := mapR (name_to_index (PList cl)) (items group) in
                                  Ok (PList g)) (map (fun l => PList (map PStr l)) gs) = Ok idx
               /\ forallb is_list idx = true
               /\ mapR (fun group => let* g := mapR (index_to_name (PList cl)) (items group) in
                                     Ok (PList g)) idx
                  = Ok (map (fun l => PList (map PStr l)) gs)).
    { induction Hgs as [| g gs Hg _ IH].
      - exists []. repeat split.
      - destruct IH as (idx & H1 & H2 & H3); [simpl in Hall; exact Hall |].
        destruct (names_indices_list cl g Hg) as (gi & G1 & G2 & _).
        exists (PList gi :: idx). cbn [map mapR items]. rewrite G1. cbn [rbind].
        rewrite H1. cbn [rbind]. split; [reflexivity |]. split; [simpl; exact H2 |].
        cbn [items]. rewrite G2. cbn [rbind]. rewrite H3. reflexivity. }
    destruct Hmap as (idx & H1 & H2 & H3).
    exists (PList idx). rewrite H1. cbn [rbind]. split; [reflexivity |].
    rewrite H2, H3. reflexivity.
Qed.


Ltac in_list :=
  repeat first [apply elem_of_cons; left; reflexivity | apply elem_of_cons; right].

Lemma names_indices_round_trip_witness :
  exists idx, convert_names_to_indices demo_h (names ["C3"; "C1"]) 1 = Ok idx
              /\ convert_indices_to_names demo_h idx 1 = Ok (names ["C3"; "C1"]).
Proof.
  destruct (names_indices_round_trip demo_h 1 (map PStr ["C1"; "C2"; "C3"]) eq_refl)
    as [Hsimple _].
  apply (Hsimple ["C3"; "C1"]).
  repeat constructor; in_list.
Defined.

Lemma find_index_nodup (cs : list string) i s :
  NoDup cs -> cs !! i = Some s -> find_index s (map PStr cs) = Some i.
Proof.
  intros Hnd Hi.
  assert (Hin : PStr s ∈ map PStr cs).
  { apply list_elem_of_fmap. exists s. split; [reflexivity |]. eapply list_elem_of_lookup_2, Hi. }
  destruct (find_index_present _ _ Hin) as [k Hk]. rewrite Hk. f_equal.
  apply find_index_first in Hk as [Hk _].
  rewrite list_lookup_fmap in Hk. destruct (cs !! k) as [s' |] eqn:Hs'; [| discriminate].
  injection Hk as ->. eapply NoDup_lookup; eauto.
Qed.

(** X2: when the channel names of a participant are pairwise distinct,
    indices within range are converted to names that
    [__convert_names_to_indices] converts back to the same indices. *)
Theorem indices_names_round_trip (h : HyperIT) (participant : nat) (cs : list string)
    (zs : list Z) :
  py_getitem (_channel_names h) participant = Ok (names cs) ->
  NoDup cs ->
  Forall (fun z => (0 <= z < Z.of_nat (length cs))%Z) zs ->
  exists ns, convert_indices_to_names h (ints zs) participant = Ok ns
             /\ convert_names_to_indices h ns participant = Ok (ints zs).
Proof.
  intros Hcn Hnd Hzs. unfold convert_names_to_indices, convert_indices_to_names, ints.
  rewrite Hcn. cbn [rbind].
  assert (Hlist : exists ss,
             mapR (index_to_name (names cs)) (map PInt zs) = Ok (map PStr ss)
             /\ mapR (name_to_index (names cs)) (map PStr ss) = Ok (map PInt zs)
             /\ length ss = length zs).
  { induction Hzs as [| z zs Hz _ IH].
    - exists []. repeat split.
    - destruct IH as (ss & H1 & H2 & H3).
      destruct (lookup_lt_is_Some_2 cs (Z.to_nat z)) as [s Hs]; [lia |].
      exists (s :: ss). cbn [map mapR index_to_name py_getitem_z names].
      rewrite length_map.
      replace z with (Z.of_nat (Z.to_nat z)) at 1 by lia.
      rewrite wrap_index_nat by lia. cbn [mbind option_bind].
      rewrite list_lookup_fmap, Hs. cbn [fmap option_fmap option_map of_option rbind].
      fold (names cs). rewrite H1. cbn [rbind]. split; [reflexivity |].
      cbn [name_to_index py_index names]. rewrite (find_index_nodup cs _ s Hnd Hs).
      cbn [of_option rbind]. fold (names cs). rewrite H2. cbn [rbind].
      rewrite Z2Nat.id by lia. split; [reflexivity | simpl; lia]. }
  destruct Hlist as (ss & H1 & H2 & H3).
  destruct zs as [| z zs].
  - exists (PList []). split; reflexivity.
  - cbn [map forallb is_list andb]. cbn [map] in H1. rewrite H1. cbn [rbind].
    exists (PList (map PStr ss)). split; [reflexivity |].
    rewrite forallb_is_list_strs, bool_decide_eq_false_2 by (destruct ss; simpl in *; [lia | discriminate]).
    rewrite H2. reflexivity.
Qed.

Lemma indices_names_round_trip_witness :
  exists ns, convert_indices_to_names demo_h (ints [2; 0]%Z) 0 = Ok ns
             /\ convert_names_to_indices demo_h ns 0 = Ok (ints [2; 0]%Z).
Proof.
  apply (indices_names_round_trip demo_h 0 ["C1"; "C2"; "C3"] [2; 0]%Z eq_refl).
  - apply (bool_decide_unpack _). vm_compute. exact I.
  - repeat constructor; simpl; lia.
Defined.

(** With a repeated channel name the round trip returns the first
    position of the name. *)
Example repeated_name_first_position :
  let h := set_channel_names (PList [names ["Cz"; "Cz"]; names ["Cz"; "Cz"]]) demo_h in
  convert_indices_to_names h (ints [1]%Z) 0 = Ok (names ["Cz"])
  /\ convert_names_to_indices h (names ["Cz"]) 0 = Ok (ints [0]%Z).
Proof. split; vm_compute; reflexivity. Qed.


(** ** Construction, further *)

Lemma array_equal_shape : forall a b, array_equal a b = true -> shape a = shape b.
Proof.
  fix IH 1. intros [x | l] [y | m]; simpl; try discriminate; [reflexivity |].
  intros Heq.
  assert (Hlen : length l = length m).
  { revert m Heq. induction l as [| a l IHl]; intros [| b m]; simpl; try discriminate; auto.
    intros Hab. apply andb_true_iff in Hab as [_ Hgo]. f_equal. apply IHl, Hgo. }
  rewrite Hlen. f_equal.
  destruct l as [| a l], m as [| b m]; simpl in *; try discriminate; [reflexivity |].
  apply andb_true_iff in Heq as [Hab _]. apply IH, Hab.
Qed.

Lemma any_len_differs_false n l :
  any_len_differs n l = Ok false -> Forall (fun names => py_len names = Ok n) l.
Proof.
  induction l as [| names l IH]; simpl; [constructor |].
  destruct (py_len names) as [k |] eqn:Hk; simpl; [| discriminate].
  destruct (k =? n) eqn:Hkn; simpl; [| discriminate].
  apply Nat.eqb_eq in Hkn. subst. intros Hrest. constructor; [exact Hk | apply IH, Hrest].
Qed.

Lemma init_one_source_run d1 d2 (first others : list pyval) v e c s :
  array_equal d1 d2 = true ->
  shape d1 = [c; s] \/ shape d1 = [e; c; s] ->
  let channel_names := PList (PList first :: others) in
  (c = S (length others) ->
   exists h, init d1 d2 channel_names v = Ok h
             /\ _channel_names h = PList [channel_names; channel_names]
             /\ py_getitem (_channel_names h) 0 = Ok channel_names
             /\ n_chan h = c)
  /\ (c <> S (length others) -> init d1 d2 channel_names v = Raise channel_mismatch).
Proof.
  intros Heq Hdims channel_names.
  pose proof (array_equal_shape _ _ Heq) as Hsh.
  unfold init, check_data, bind, assign, self, lift, raise, ret, ndim. simpl.
  rewrite Heq, <- Hsh. simpl.
  rewrite bool_decide_eq_true_2 by done. simpl.
  split.
  - intros ->. destruct Hdims as [-> | ->]; simpl; rewrite Nat.eqb_refl; simpl;
      eexists; repeat split; reflexivity.
  - intros Hne.
    destruct Hdims as [-> | ->]; simpl; destruct c as [| c']; simpl; try reflexivity;
      (destruct (length others =? c') eqn:E; [apply Nat.eqb_eq in E; lia | reflexivity]).
Qed.


(** X3: one source.  When both data arguments hold the same array and the
    first entry of [channel_names] is a list, the whole argument is stored
    twice, and construction succeeds exactly when the number of channels
    equals the number of entries of [channel_names]; otherwise the
    channel-count check raises. *)
Theorem init_one_source d1 d2 (first others : list pyval) v e c s :
  array_equal d1 d2 = true ->
  shape d1 = [c; s] \/ shape d1 = [e; c; s] ->
  let channel_names := PList (PList first :: others) in
  (c = S (length others) ->
   exists h, init d1 d2 channel_names v = Ok h
             /\ _channel_names h = PList [channel_names; channel_names]
             /\ py_getitem (_channel_names h) 0 = Ok channel_names
             /\ n_chan h = c)
  /\ (c <> S (length others) -> init d1 d2 channel_names v = Raise channel_mismatch).
Proof. apply init_one_source_run. Qed.

Lemma init_one_source_witness :
  init solo solo (PList [names ["C1"; "C2"; "C3"]; names ["C1"; "C2"; "C3"]; names []]) false
  = Raise channel_mismatch.
Proof.
  destruct (init_one_source solo solo (map PStr ["C1"; "C2"; "C3"])
              [names ["C1"; "C2"; "C3"]; names []] false 0 2 4 eq_refl) as [_ Hfail].
  { left. reflexivity. }
  apply Hfail. simpl. lia.
Defined.

(** X4: how [__check_data] treats the channel-name argument, for data of
    equal shapes with two or three axes: an empty list is not caught by
    the format check, reading its first entry raises [IndexError]; a list
    that starts with a string, and a value that is not a list, raise the
    format [ValueError]. *)
Theorem init_channel_names_format d1 d2 v :
  shape d1 = shape d2 -> ndim d1 = 2 \/ ndim d1 = 3 ->
  init d1 d2 (PList []) v = Raise IndexError
  /\ (forall s rest, init d1 d2 (PList (PStr s :: rest)) v = Raise names_error)
  /\ (forall names, is_list names = false -> init d1 d2 names v = Raise names_error).
Proof.
  intros Hsh Hnd.
  assert (Hdim : negb ((ndim d1 =? 2) || (ndim d1 =? 3)) = false).
  { destruct Hnd as [-> | ->]; reflexivity. }
  unfold init, check_data, bind, assign, self, lift, raise, ret. simpl.
  rewrite bool_decide_eq_true_2 by exact Hsh. simpl. rewrite Hdim.
  split; [reflexivity |]. split; [reflexivity |].
  intros names Hl. rewrite Hl. reflexivity.
Qed.

Lemma init_channel_names_format_witness :
  init demo_a demo_b (PList []) true = Raise IndexError.
Proof.
  destruct (init_channel_names_format demo_a demo_b true eq_refl) as [Hempty _].
  { left. reflexivity. }
  exact Hempty.
Defined.

Lemma first_entry_len cn n a0 k :
  Forall (fun l => py_len l = Ok n) (items cn) ->
  is_list cn = true -> py_getitem cn 0 = Ok a0 -> py_len a0 = Ok k -> k = n.
Proof.
  destruct cn as [| | l]; try discriminate. simpl.
  destruct l as [| x l]; simpl; [discriminate |].
  intros Hall _ [= <-] Hk. apply Forall_cons in Hall as [Hx _]. congruence.
Qed.

#[local] Arguments any_len_differs : simpl never.

Lemma init_state d1 d2 channel_names v h :
  init d1 d2 channel_names v = Ok h ->
  _all_data h = (d1, d2) /\ _data1 h = d1 /\ _data2 h = d2
  /\ shape d1 = shape d2
  /\ shape d1 = (if _is_epoched h then [n_epo h; n_chan h; n_samples h]
                 else [n_chan h; n_samples h])
  /\ (_is_epoched h = false -> n_epo h = 1)
  /\ Forall (fun names => py_len names = Ok (n_chan h)) (items (_channel_names h))
  /\ _channel_indices1 h = arange (n_chan h)
  /\ _roi h = [] /\ _roi_specified h = false /\ _scale_of_organisation h = 1
  /\ _soi_groups h = None /\ _initialise_parameter h = None
  /\ verbose h = v
  /\ is_list (_channel_names h) = true /\ items (_channel_names h) <> [].
Proof.
  unfold init, check_data, bind, assign, self, lift, raise, ret, ndim.
  intros Hrun.
  repeat (case_match; simplify_eq/=; try done).
  all: repeat match goal with
         | H : bool_decide _ = true |- _ => apply bool_decide_eq_true in H
         | H : negb _ = false |- _ => apply negb_false_iff in H
         | H : (_ =? _) = true |- _ => apply Nat.eqb_eq in H
         | H : any_len_differs _ _ = Ok false |- _ => apply any_len_differs_false in H
         end.
  all: repeat split; try assumption; try reflexivity; try congruence.
  all: try discriminate.
  all: try (destruct (_ : pyval) as [| | []]; simpl in *; congruence).
  all: f_equal; try (eapply first_entry_len; eauto; fail).
  all: match goal with H : Forall _ (_ :: _) |- _ => apply Forall_cons in H as [H _]; congruence end.
Qed.


(** X5: what [__init__] establishes.  The data are retained as given, the
    three counts are the axes of the data, every entry of the stored
    channel names has as many items as there are channels, the first
    index list is [arange(n_chan)], and no region of interest, group
    count or initialise parameter is set. *)
Theorem init_establishes d1 d2 channel_names v h :
  init d1 d2 channel_names v = Ok h ->
  _all_data h = (d1, d2) /\ _data1 h = d1 /\ _data2 h = d2
  /\ shape d1 = shape d2
  /\ shape d1 = (if _is_epoched h then [n_epo h; n_chan h; n_samples h]
                 else [n_chan h; n_samples h])
  /\ (_is_epoched h = false -> n_epo h = 1)
  /\ Forall (fun names => py_len names = Ok (n_chan h)) (items (_channel_names h))
  /\ _channel_indices1 h = arange (n_chan h)
  /\ _roi h = [] /\ _roi_specified h = false /\ _scale_of_organisation h = 1
  /\ _soi_groups h = None /\ _initialise_parameter h = None
  /\ verbose h = v.
Proof.
  intros Hinit.
  destruct (init_state _ _ _ _ _ Hinit)
    as (H1 & H2 & H3 & H4 & H5 & H6 & H7 & H8 & H9 & H10 & H11 & H12 & H13 & H14 & _).
  repeat split; assumption.
Qed.

Lemma init_establishes_witness :
  n_chan demo_h = 3
  /\ Forall (fun names => py_len names = Ok 3) (items (_channel_names demo_h))
  /\ _soi_groups demo_h = None.
Proof.
  pose proof (init_establishes demo_a demo_b demo_names false demo_h) as Hinit.
  destruct Hinit as (_ & _ & _ & _ & _ & _ & Hnames & _ & _ & _ & _ & Hgroups & _).
  { vm_compute. reflexivity. }
  split; [reflexivity |]. split; [exact Hnames | exact Hgroups].
Defined.


(** ** The ROI setter, further *)

(** Whatever the outcome, the setter leaves the full data, the channel
    names and the flags of construction as they were. *)
Lemma roi_setter_keeps h roi_list h' r :
  roi_setter roi_list h = (h', r) ->
  _all_data h' = _all_data h /\ _channel_names h' = _channel_names h
  /\ _inter_brain h' = _inter_brain h /\ _is_epoched h' = _is_epoched h
  /\ verbose h' = verbose h /\ n_epo h' = n_epo h /\ n_samples h' = n_samples h.
Proof.
  unfold roi_setter, bind, assign, self, lift, raise, ret.
  intros Hrun.
  repeat (case_match; simplify_eq/=; try done).
Qed.

(** X6: [reset_roi] after any assignment, returned or raised, on a
    constructed object: the retained data are the data of construction
    again, the channel count and both index lists are those of all
    channels, and the scale is 1; the group count and the initialise
    parameter that a grouped assignment set are left in place. *)
Theorem reset_roi_restores d1 d2 channel_names v h roi_list h1 r :
  init d1 d2 channel_names v = Ok h ->
  roi_setter roi_list h = (h1, r) ->
  exists h2, reset_roi h1 = (h2, Ok tt)
    /\ _data1 h2 = d1 /\ _data2 h2 = d2 /\ n_chan h2 = n_chan h
    /\ _channel_indices1 h2 = arange (n_chan h) /\ _channel_indices2 h2 = arange (n_chan h)
    /\ _roi h2 = [arange (n_chan h); arange (n_chan h)]
    /\ _scale_of_organisation h2 = 1 /\ _roi_specified h2 = false
    /\ _soi_groups h2 = _soi_groups h1
    /\ _initialise_parameter h2 = _initialise_parameter h1.
Proof.
  intros Hinit Hset.
  destruct (init_state _ _ _ _ _ Hinit)
    as (Hall & _ & _ & _ & _ & _ & Hnames & _ & _ & _ & _ & _ & _ & _ & Hlist & Hne).
  destruct (roi_setter_keeps _ _ _ _ Hset) as (Hall1 & Hcn1 & _).
  rewrite <- Hcn1 in Hnames, Hlist, Hne. rewrite <- Hall1 in Hall.
  destruct (_channel_names h1) as [| | cl] eqn:Hcl; try discriminate.
  simpl in Hnames, Hne.
  destruct cl as [| names0 cl]; [congruence |].
  apply Forall_cons in Hnames as [H0 Hrest].
  unfold reset_roi, bind, assign, self, lift, ret. simpl. rewrite Hcl. simpl.
  rewrite H0. simpl. rewrite ?Hcl. simpl.
  destruct cl as [| names1 cl]; simpl.
  - rewrite Hall. eexists. repeat split; reflexivity.
  - apply Forall_cons in Hrest as [H1 _]. rewrite ?Hcl. simpl. rewrite H1. simpl.
    rewrite Hall. eexists. repeat split; reflexivity.
Qed.

Lemma reset_roi_restores_witness :
  exists h2, reset_roi (fst (roi_setter unknown_name_roi demo_h)) = (h2, Ok tt)
    /\ _data1 h2 = demo_a /\ _data2 h2 = demo_b /\ n_chan h2 = 3
    /\ _scale_of_organisation h2 = 1
    /\ _soi_groups h2 = Some 1
    /\ _initialise_parameter h2 = Some (ints [2; 2]%Z).
Proof.
  destruct (reset_roi_restores demo_a demo_b demo_names false demo_h unknown_name_roi
              (fst (roi_setter unknown_name_roi demo_h))
              (snd (roi_setter unknown_name_roi demo_h)))
    as (h2 & Hrun & H1 & H2 & H3 & _ & _ & _ & H4 & _ & H5 & H6).
  { vm_compute. reflexivity. }
  { vm_compute. reflexivity. }
  exists h2. repeat split; try assumption.
Defined.

(** X7: on a verbose object on which no grouped assignment has been made,
    a pointwise assignment raises [AttributeError]: the report reads
    [_soi_groups], which only the grouped branch creates.  The flag and
    the scale are set, nothing else. *)
Theorem roi_pointwise_verbose h roi_list :
  verbose h = true -> _soi_groups h = None ->
  pointwise_structure roi_list = true ->
  roi_setter roi_list h =
    (set_scale_of_organisation 1 (set_roi_specified true h), Raise AttributeError).
Proof.
  intros Hv Hg Hp. unfold roi_setter, bind, assign, self, raise, ret. simpl.
  rewrite Hp. simpl. rewrite Hv, Hg. reflexivity.
Qed.

Lemma roi_pointwise_verbose_witness :
  exists h, init demo_a demo_b demo_names true = Ok h
            /\ snd (roi_setter [names ["C1"]; names ["C2"]] h) = Raise AttributeError.
Proof.
  eexists. split; [vm_compute; reflexivity |].
  rewrite roi_pointwise_verbose; reflexivity.
Defined.


Lemma wrap_index_bound len z i : wrap_index len z = Some i -> i < len.
Proof.
  unfold wrap_index.
  destruct ((0 <=? z)%Z && (z <? Z.of_nat len)%Z) eqn:E1.
  - apply andb_true_iff in E1 as [H1 H2]. apply Z.leb_le in H1. apply Z.ltb_lt in H2.
    intros [= <-]. lia.
  - destruct ((z <? 0)%Z && (- Z.of_nat len <=? z)%Z) eqn:E2; [| discriminate].
    apply andb_true_iff in E2 as [H1 H2]. apply Z.ltb_lt in H1. apply Z.leb_le in H2.
    intros [= <-]. lia.
Qed.

Lemma wrap_index_in_range len z :
  (- Z.of_nat len <= z < Z.of_nat len)%Z -> is_Some (wrap_index len z).
Proof.
  intros Hz. unfold wrap_index.
  destruct ((0 <=? z)%Z && (z <? Z.of_nat len)%Z) eqn:E1; [eauto |].
  destruct ((z <? 0)%Z && (- Z.of_nat len <=? z)%Z) eqn:E2; [eauto |].
  apply andb_false_iff in E1, E2. exfalso.
  destruct E1 as [E1 | E1], E2 as [E2 | E2];
    rewrite ?Z.leb_gt, ?Z.ltb_ge in E1, E2; lia.
Qed.

Lemma select_in_range rows l :
  Forall (fun z => (- Z.of_nat (length rows) <= z < Z.of_nat (length rows))%Z) l ->
  exists sel, select rows l = Some sel /\ length sel = length l
              /\ forall k z i, l !! k = Some z -> wrap_index (length rows) z = Some i ->
                               sel !! k = rows !! i.
Proof.
  induction 1 as [| z l Hz _ IH].
  - exists []. repeat split. intros k z i Hk. rewrite lookup_nil in Hk. discriminate.
  - destruct IH as (sel & Hsel & Hlen & Hk).
    destruct (wrap_index_in_range _ _ Hz) as [i Hi].
    destruct (lookup_lt_is_Some_2 rows i) as [r Hr]; [eapply wrap_index_bound, Hi |].
    exists (r :: sel). unfold select in *. cbn [mapM]. rewrite Hi. cbn [mbind option_bind].
    rewrite Hr, Hsel. cbn. split; [reflexivity |]. split; [lia |].
    intros [| k] z' i'; simpl.
    + intros [= <-] Hi'. congruence.
    + apply Hk.
Qed.

Lemma select_out_of_range rows l z :
  z ∈ l -> wrap_index (length rows) z = None -> select rows l = None.
Proof.
  intros Hin Hz. induction l as [| y l IH]; [inversion Hin |].
  unfold select in *. cbn [mapM].
  apply elem_of_cons in Hin as [<- | Hin].
  - rewrite Hz. reflexivity.
  - rewrite (IH Hin). destruct (wrap_index _ y ≫= _); reflexivity.
Qed.

Lemma fancy_ints rows l :
  fancy rows (ints l) =
    match select rows l with
    | Some sel => Ok (Ar sel)
    | None => Raise IndexError
    end.
Proof.
  unfold ints. cbn [fancy].
  match goal with
  | |- rbind ?go _ = _ =>
      assert (Hgo : go = of_option IndexError (select rows l))
  end.
  { induction l as [| z l IH]; [reflexivity |].
    cbn [map]. rewrite IH. unfold select. cbn [mapM fancy].
    destruct (wrap_index (length rows) z ≫= _) as [r |]; cbn; [| reflexivity].
    destruct (mapM _ l); reflexivity. }
  rewrite Hgo. destruct (select rows l); reflexivity.
Qed.

Lemma mapR_name_to_index_ints cn l : mapR (name_to_index cn) (map PInt l) = Ok (map PInt l).
Proof. induction l as [| z l IH]; [reflexivity |]. cbn. rewrite IH. reflexivity. Qed.

(** Integer indices pass through the conversion unchanged; only the name
    list of the participant has to exist. *)
Lemma convert_ints h l p cn :
  py_getitem (_channel_names h) p = Ok cn ->
  convert_names_to_indices h (ints l) p = Ok (ints l).
Proof.
  intros Hcn. unfold convert_names_to_indices, ints. rewrite Hcn. cbn [rbind].
  destruct l as [| z l]; [reflexivity |].
  change (forallb is_list (map PInt (z :: l))) with false. cbv iota.
  rewrite mapR_name_to_index_ints. reflexivity.
Qed.

Lemma pointwise_structure_ints l1 l2 : pointwise_structure [ints l1; ints l2] = true.
Proof.
  assert (H : forall l, existsb is_list (map PInt l) = false) by (induction l; auto).
  unfold pointwise_structure, ints. simpl. rewrite !H. reflexivity.
Qed.

(** The run of a pointwise assignment whose steps all return. *)
Lemma roi_setter_pointwise_run h roi1 roi2 ci1 ci2 d1' d2' n :
  pointwise_structure [roi1; roi2] = true ->
  verbose h = false \/ _soi_groups h <> None ->
  convert_names_to_indices h roi1 0 = Ok ci1 ->
  convert_names_to_indices h roi2 1 = Ok ci2 ->
  (if _is_epoched h then cols_at (_data1 h) ci1 else rows_at (_data1 h) ci1) = Ok d1' ->
  (if _is_epoched h then cols_at (_data2 h) ci2 else rows_at (_data2 h) ci2) = Ok d2' ->
  py_len ci1 = Ok n ->
  roi_setter [roi1; roi2] h =
    (set_roi [ci1; ci2]
       (set_n_chan n
          (set_data2 d2'
             (set_data1 d1'
                (set_channel_indices2 ci2
                   (set_channel_indices1 ci1
                      (set_scale_of_organisation 1 (set_roi_specified true h))))))),
     Ok tt).
Proof.
  intros Hp Hv H1 H2 Hd1 Hd2 Hn.
  unfold roi_setter, bind, assign, self, lift, raise, ret. rewrite Hp. cbn.
  unfold convert_names_to_indices in *. cbn in *.
  destruct (verbose h) eqn:Everb.
  - destruct (_soi_groups h) eqn:Eg; [| destruct Hv; congruence]. cbn.
    rewrite H1. cbn. rewrite H2. cbn.
    destruct (_is_epoched h); rewrite Hd1; cbn; rewrite Hd2; cbn; rewrite Hn; reflexivity.
  - cbn. rewrite H1. cbn. rewrite H2. cbn.
    destruct (_is_epoched h); rewrite Hd1; cbn; rewrite Hd2; cbn; rewrite Hn; reflexivity.
Qed.


Lemma rect_entries l n sh :
  rect (Ar l) = true -> shape (Ar l) = n :: sh ->
  length l = n /\ (l <> [] -> Forall (fun x => rect x = true /\ shape x = sh) l).
Proof.
  simpl. intros Hr [= Hn Hsh]. split; [exact Hn |]. intros Hne.
  apply andb_true_iff in Hr as [Hr1 Hr2].
  rewrite forallb_forall in Hr1, Hr2. apply List.Forall_forall. intros x Hx.
  split; [apply Hr1, Hx |].
  apply Hr2 in Hx. apply bool_decide_eq_true in Hx. rewrite Hx.
  destruct l; [congruence | exact Hsh].
Qed.

Lemma mapR_Forall2_eq {X X' Y} (f : X -> result Y) (g : X' -> result Y) l l' :
  Forall2 (fun x x' => f x = g x') l l' -> mapR f l = mapR g l'.
Proof. induction 1 as [| x x' l l' Hx _ IH]; [reflexivity |]. cbn. rewrite Hx, IH. reflexivity. Qed.

(** Selecting rows of a two- or three-axis array by a list of indices in
    range: row [k] of the result is the row that index [k] names. *)
Lemma rows_at_select a c s sh l :
  rect a = true -> shape a = c :: s :: sh ->
  Forall (fun z => (- Z.of_nat c <= z < Z.of_nat c)%Z) l ->
  exists sel, rows_at a (ints l) = Ok (Ar sel) /\ length sel = length l
              /\ forall k z i, l !! k = Some z -> wrap_index c z = Some i ->
                               row (Ar sel) k = row a i.
Proof.
  destruct a as [q | rows]; [discriminate |].
  intros Hr Hs Hl.
  destruct (rect_entries rows c (s :: sh) Hr Hs) as [Hlen Hrows]. subst c.
  destruct (select_in_range rows l Hl) as (sel & Hsel & Hlsel & Hk).
  exists sel. split; [| split; [exact Hlsel |]].
  - unfold rows_at. rewrite fancy_ints, Hsel.
    destruct rows as [| [q | r] rows']; try reflexivity.
    exfalso. assert (Hne : Sc q :: rows' <> []) by discriminate.
    apply Hrows in Hne. apply Forall_cons in Hne as [[_ Hq] _]. discriminate.
  - intros k z i Hz Hi. unfold row, take0. rewrite (Hk k z i Hz Hi). reflexivity.
Qed.

Lemma cols_at_select a e c s l :
  rect a = true -> shape a = [e; c; s] ->
  Forall (fun z => (- Z.of_nat c <= z < Z.of_nat c)%Z) l ->
  exists es, cols_at a (ints l) = Ok (Ar es)
             /\ forall k z i, l !! k = Some z -> wrap_index c z = Some i ->
                              col (Ar es) k = col a i.
Proof.
  destruct a as [q | epochs]; [discriminate |].
  intros Hr Hs Hl.
  destruct (rect_entries epochs e [c; s] Hr Hs) as [Hlen Hepochs].
  assert (Hne : epochs <> []).
  { intros ->. simpl in Hs. discriminate. }
  specialize (Hepochs Hne).
  destruct (mapR_succeeds (fun ep => rows_at ep (ints l)) (fun _ => True) epochs)
    as (es & Hes & _ & _).
  { intros ep Hin. rewrite List.Forall_forall in Hepochs.
    destruct (Hepochs ep Hin) as [Hrep Hsep].
    destruct (rows_at_select ep c s [] l Hrep Hsep Hl) as (sel & Hsel & _). eauto. }
  exists es. unfold cols_at. rewrite Hes. split; [reflexivity |].
  intros k z i Hz Hi. unfold col. f_equal.
  apply mapR_Forall2_eq. apply mapR_Forall2 in Hes.
  clear Hr Hs Hlen Hne. induction Hes as [| ep ep' epochs es Hep _ IH]; [constructor |].
  apply Forall_cons in Hepochs as [[Hrep Hsep] Hrest].
  constructor; [| apply IH, Hrest].
  destruct (rows_at_select ep c s [] l Hrep Hsep Hl) as (sel & Hsel & _ & Hrow).
  rewrite Hsel in Hep. injection Hep as <-. eapply Hrow; eauto.
Qed.

(** X8: a pointwise assignment of integer indices that are within the
    retained channels returns.  Afterwards the channel count is the
    length of the first half, whatever the length of the second, [_roi]
    holds the two index lists, and retained channel [k] of each source is
    the channel that index [k] names in the data retained before the
    assignment; the full data are not touched. *)
Theorem roi_pointwise_selects (h : HyperIT) (l1 l2 : list Z) (e c1 c2 s : nat) :
  verbose h = false \/ _soi_groups h <> None ->
  is_list (_channel_names h) = true -> 1 < length (items (_channel_names h)) ->
  rect (_data1 h) = true -> rect (_data2 h) = true ->
  shape (_data1 h) = (if _is_epoched h then [e; c1; s] else [c1; s]) ->
  shape (_data2 h) = (if _is_epoched h then [e; c2; s] else [c2; s]) ->
  Forall (fun z => (- Z.of_nat c1 <= z < Z.of_nat c1)%Z) l1 ->
  Forall (fun z => (- Z.of_nat c2 <= z < Z.of_nat c2)%Z) l2 ->
  exists h', roi_setter [ints l1; ints l2] h = (h', Ok tt)
    /\ n_chan h' = length l1 /\ _roi h' = [ints l1; ints l2]
    /\ _scale_of_organisation h' = 1 /\ _all_data h' = _all_data h
    /\ (forall k z i, l1 !! k = Some z -> wrap_index c1 z = Some i ->
          channel (_is_epoched h) (_data1 h') k = channel (_is_epoched h) (_data1 h) i)
    /\ (forall k z i, l2 !! k = Some z -> wrap_index c2 z = Some i ->
          channel (_is_epoched h) (_data2 h') k = channel (_is_epoched h) (_data2 h) i).
Proof.
  intros Hv Hlist Hcount Hr1 Hr2 Hs1 Hs2 Hl1 Hl2.
  assert (Hnames : exists cn0 cn1, py_getitem (_channel_names h) 0 = Ok cn0
                                   /\ py_getitem (_channel_names h) 1 = Ok cn1).
  { destruct (_channel_names h) as [| | [| cn0 [| cn1 cl]]]; try discriminate;
      simpl in Hcount; try lia. eauto. }
  destruct Hnames as (cn0 & cn1 & Hcn0 & Hcn1).
  assert (Hsel : exists d1' d2',
             (if _is_epoched h then cols_at (_data1 h) (ints l1)
              else rows_at (_data1 h) (ints l1)) = Ok d1'
             /\ (if _is_epoched h then cols_at (_data2 h) (ints l2)
                 else rows_at (_data2 h) (ints l2)) = Ok d2'
             /\ (forall k z i, l1 !! k = Some z -> wrap_index c1 z = Some i ->
                   channel (_is_epoched h) d1' k = channel (_is_epoched h) (_data1 h) i)
             /\ (forall k z i, l2 !! k = Some z -> wrap_index c2 z = Some i ->
                   channel (_is_epoched h) d2' k = channel (_is_epoched h) (_data2 h) i)).
  { unfold channel. destruct (_is_epoched h).
    - destruct (cols_at_select _ _ _ _ l1 Hr1 Hs1 Hl1) as (es1 & H1 & K1).
      destruct (cols_at_select _ _ _ _ l2 Hr2 Hs2 Hl2) as (es2 & H2 & K2). eauto 10.
    - destruct (rows_at_select _ _ _ _ l1 Hr1 Hs1 Hl1) as (sel1 & H1 & _ & K1).
      destruct (rows_at_select _ _ _ _ l2 Hr2 Hs2 Hl2) as (sel2 & H2 & _ & K2). eauto 10. }
  destruct Hsel as (d1' & d2' & Hd1 & Hd2 & K1 & K2).
  eexists. split.
  - apply (roi_setter_pointwise_run h (ints l1) (ints l2) (ints l1) (ints l2) d1' d2'
             (length l1)); auto using pointwise_structure_ints.
    + eapply convert_ints, Hcn0.
    + eapply convert_ints, Hcn1.
    + unfold ints. simpl. rewrite length_map. reflexivity.
  - repeat split; auto.
Qed.

Lemma roi_pointwise_selects_witness :
  exists h', roi_setter [ints [2; 0]%Z; ints [1]%Z] demo_h = (h', Ok tt)
    /\ n_chan h' = 2
    /\ row (_data1 h') 0 = row demo_a 2 /\ row (_data1 h') 1 = row demo_a 0
    /\ row (_data2 h') 0 = row demo_b 1.
Proof.
  destruct (roi_pointwise_selects demo_h [2; 0]%Z [1]%Z 0 3 3 4)
    as (h' & Hrun & Hn & _ & _ & _ & K1 & K2); try reflexivity.
  - left. reflexivity.
  - simpl. lia.
  - repeat constructor; simpl; lia.
  - repeat constructor; simpl; lia.
  - exists h'. split; [exact Hrun |]. split; [exact Hn |].
    split; [exact (K1 0 2%Z 2 eq_refl eq_refl) |].
    split; [exact (K1 1 0%Z 0 eq_refl eq_refl) | exact (K2 0 1%Z 1 eq_refl eq_refl)].
Defined.


Lemma remove_dups_all_equal (l : list nat) g :
  l <> [] -> Forall (fun x => x = g) l -> remove_dups l = [g].
Proof.
  induction l as [| x l IH]; [congruence |]. intros _ Hall.
  apply Forall_cons in Hall as [-> Hall]. simpl.
  destruct l as [| y l]; [reflexivity |].
  destruct (decide_rel elem_of g (y :: l)) as [Hin | Hnin].
  - apply IH; [discriminate | exact Hall].
  - exfalso. apply Hnin. apply Forall_cons in Hall as [-> _].
    apply elem_of_cons. left. reflexivity.
Qed.

Lemma mapR_name_to_index_no_str cn grp :
  Forall (fun v => is_str v = false) grp -> mapR (name_to_index cn) grp = Ok grp.
Proof.
  induction 1 as [| v grp Hv _ IH]; [reflexivity |]. cbn [mapR].
  destruct v; try discriminate; cbn; rewrite IH; reflexivity.
Qed.

Lemma convert_groups h (gs : list (list pyval)) p cn :
  py_getitem (_channel_names h) p = Ok cn ->
  Forall (Forall (fun v => is_str v = false)) gs ->
  convert_names_to_indices h (PList (map PList gs)) p = Ok (PList (map PList gs)).
Proof.
  intros Hcn Hgs. unfold convert_names_to_indices. rewrite Hcn. cbn [rbind].
  rewrite forallb_is_list_groups.
  assert (Hmap : mapR (fun group => let* g := mapR (name_to_index cn) (items group) in
                                    Ok (PList g)) (map PList gs) = Ok (map PList gs)).
  { induction Hgs as [| grp gs Hgrp _ IH]; [reflexivity |].
    cbn [map mapR items]. rewrite (mapR_name_to_index_no_str cn grp Hgrp). cbn [rbind].
    rewrite IH. reflexivity. }
  rewrite Hmap. reflexivity.
Qed.

(** X9: a grouped assignment of index groups, all of one size [g] other
    than 1, with as many groups on either side, returns for any indices:
    they are not checked against the data.  The scale of organisation is
    [g], the group count is the number of groups, the initialise
    parameter is [(g, g)], [_roi] holds the groups, and the retained data
    and the channel count are left as they were. *)
Theorem roi_grouped_indices (h : HyperIT) (gx gy : list (list pyval)) (g : nat) :
  is_list (_channel_names h) = true -> 1 < length (items (_channel_names h)) ->
  gx <> [] -> length gx = length gy ->
  Forall (fun grp => length grp = g /\ Forall (fun v => is_str v = false) grp) (gx ++ gy) ->
  g <> 1 ->
  let roi_list := [PList (map PList gx); PList (map PList gy)] in
  exists h', roi_setter roi_list h = (h', Ok tt)
    /\ _scale_of_organisation h' = g /\ _soi_groups h' = Some (length gx)
    /\ _initialise_parameter h' = Some (PList [PInt (Z.of_nat g); PInt (Z.of_nat g)])
    /\ _roi h' = roi_list
    /\ _data1 h' = _data1 h /\ _data2 h' = _data2 h /\ n_chan h' = n_chan h.
Proof.
  intros Hlist Hcount Hne Hlen Hall Hg roi_list.
  assert (Hnames : exists cn0 cn1, py_getitem (_channel_names h) 0 = Ok cn0
                                   /\ py_getitem (_channel_names h) 1 = Ok cn1).
  { destruct (_channel_names h) as [| | [| cn0 [| cn1 cl]]]; try discriminate;
      simpl in Hcount; try lia. eauto. }
  destruct Hnames as (cn0 & cn1 & Hcn0 & Hcn1).
  apply Forall_app in Hall as [Hx Hy].
  assert (Hlens : remove_dups (group_lengths roi_list) = [g]).
  { unfold roi_list. rewrite group_lengths_halves. apply remove_dups_all_equal.
    - destruct gx; [congruence | discriminate].
    - apply Forall_app. split; apply Forall_fmap; eapply Forall_impl; eauto;
        intros grp [Hl _]; exact Hl. }
  assert (Hfirst : group_lengths roi_list !! 0 = Some g).
  { unfold roi_list. rewrite group_lengths_halves.
    destruct gx as [| g0 gx']; [congruence |]. simpl.
    apply Forall_cons in Hx as [[-> _] _]. reflexivity. }
  assert (H1 : forall h0, _channel_names h0 = _channel_names h ->
                          convert_names_to_indices h0 (PList (map PList gx)) 0
                          = Ok (PList (map PList gx))).
  { intros h0 E. eapply convert_groups; [rewrite E; exact Hcn0 |].
    eapply Forall_impl; eauto. intros grp [_ Hs]; exact Hs. }
  assert (H2 : forall h0, _channel_names h0 = _channel_names h ->
                          convert_names_to_indices h0 (PList (map PList gy)) 1
                          = Ok (PList (map PList gy))).
  { intros h0 E. eapply convert_groups; [rewrite E; exact Hcn1 |].
    eapply Forall_impl; eauto. intros grp [_ Hs]; exact Hs. }
  unfold roi_setter, bind, assign, self, lift, raise, ret, pointwise_structure,
    grouped_structure, roi_list in *.
  simpl. rewrite !existsb_is_list_groups, !forallb_is_list_groups. simpl.
  assert (Hnil : negb (negb (bool_decide (gx = [])))
                 && (negb (negb (bool_decide (gy = []))) && true) = false).
  { rewrite (bool_decide_eq_false_2 (gx = [])) by exact Hne. reflexivity. }
  rewrite Hnil. rewrite !length_map, Hlen, Nat.eqb_refl. simpl.
  rewrite Hlens. simpl. rewrite Hfirst. simpl.
  destruct (verbose h); cbv beta iota; rewrite H1, H2 by reflexivity; simpl;
    (destruct (g =? 1) eqn:Eg; [apply Nat.eqb_eq in Eg; contradiction |]);
    eexists; repeat split; reflexivity.
Qed.

Lemma roi_grouped_indices_witness :
  exists h', roi_setter [PList [PList []]; PList [PList []]] demo_h = (h', Ok tt)
    /\ _scale_of_organisation h' = 0 /\ _soi_groups h' = Some 1
    /\ _data1 h' = demo_a /\ n_chan h' = 3.
Proof.
  destruct (roi_grouped_indices demo_h [[]] [[]] 0)
    as (h' & Hrun & H1 & H2 & _ & _ & H3 & _ & H4); try reflexivity.
  - simpl. lia.
  - discriminate.
  - repeat constructor.
  - discriminate.
  - exists h'. repeat split; assumption.
Defined.





(** ** The engine, further *)

Lemma foldM_unchanged {St X} (f : St -> X -> result St) st l :
  (forall x, x ∈ l -> f st x = Ok st) -> foldM f st l = Ok st.
Proof.
  induction l as [| x l IH]; intros Hf; [reflexivity |]. cbn.
  rewrite Hf by (apply elem_of_cons; left; reflexivity). cbn.
  apply IH. intros y Hy. apply Hf, elem_of_cons. right. exact Hy.
Qed.

(** The double loop raises what the body raises at the first position of
    the first row where it does not leave the state as it is. *)
Lemma double_loop_raises_first {St} (body : St -> nat -> nat -> result St) n st0 j0 e :
  j0 < n -> (forall j, j < j0 -> body st0 0 j = Ok st0) -> body st0 0 j0 = Raise e ->
  double_loop body n st0 = Raise e.
Proof.
  intros Hj Hskip Hraise. unfold double_loop.
  set (inner := fun st i => foldM (fun st j => body st i j) st (seq 0 n)).
  assert (Hin : inner st0 0 = Raise e).
  { unfold inner. replace n with (j0 + S (n - S j0)) by lia.
    rewrite seq_app, foldM_app, foldM_unchanged.
    - cbn. rewrite Hraise. reflexivity.
    - intros j Hj'. apply elem_of_seq in Hj'. apply Hskip. lia. }
  assert (Hseq : exists l, seq 0 n = 0 :: l) by (destruct n; [lia | eexists; reflexivity]).
  destruct Hseq as [l ->]. cbn [foldM]. rewrite Hin. reflexivity.
Qed.



Lemma shape_positive a n m sh : shape a = n :: m :: sh -> 0 < n.
Proof. destruct a as [q | [| x l]]; simpl; try discriminate. intros [= <- _]. lia. Qed.

Section EngineFurther.
Context {Calc : Type} `{JIDT Calc}.

Lemma which_mi_estimator_tokens et sig kw :
  (et ∈ mi_estimators -> exists c, which_mi_estimator et sig kw = Ok (mi_sigstats et sig, c))
  /\ (et ∉ mi_estimators -> which_mi_estimator et sig kw = Raise (mi_unsupported et)).
Proof.
  split.
  - unfold mi_estimators. intros Hin.
    repeat (apply elem_of_cons in Hin as [-> | Hin]); [.. | apply elem_of_nil in Hin as []].
    all: eexists; reflexivity.
  - intros Hn. unfold which_mi_estimator, is_histogram, is_symbolic.
    repeat (case_bool_decide as E; [exfalso; apply Hn; subst et; unfold mi_estimators; in_list |];
            clear E). reflexivity.
Qed.

Lemma which_te_estimator_tokens et kw h :
  (et ∈ te_estimators -> exists h' c, which_te_estimator et kw h = (h', Ok c)
                                     /\ (h' = h \/ et = "symbolic"
                                         /\ h' = set_initialise_parameter (Some (PInt 2)) h))
  /\ (et ∉ te_estimators -> which_te_estimator et kw h = (h, Raise (te_unsupported et))).
Proof.
  split.
  - unfold te_estimators. intros Hin.
    repeat (apply elem_of_cons in Hin as [-> | Hin]); [.. | apply elem_of_nil in Hin as []].
    all: unfold which_te_estimator, bind, assign, ret; simpl; eexists _, _; split;
      [reflexivity | auto].
  - intros Hn. unfold which_te_estimator, is_symbolic.
    repeat (case_bool_decide as E; [exfalso; apply Hn; subst et; unfold te_estimators; in_list |];
            clear E). reflexivity.
Qed.


End EngineFurther.



Section EngineErrors.
Context {Calc : Type} `{JIDT Calc}.

(** With an integer as initialise parameter the first epoch of
    [__estimate_it] raises: the call of [initialise] cannot unpack it. *)
Lemma estimate_it_type_error h sig perm (c : Calc) s1 s2 z :
  _initialise_parameter h = Some (PInt z) -> z <> 0%Z -> 0 < n_epo h ->
  epochs_ready h s1 s2 ->
  estimate_it h sig perm c s1 s2 = Raise TypeError.
Proof.
  intros Hp Hz He Hready. unfold estimate_it.
  destruct (n_epo h) as [| k] eqn:Hk; [lia |]. cbn [seq foldM].
  unfold estimate_epoch at 1. rewrite Hp.
  assert (Hxy : exists X Y, (if _is_epoched h
                             then let* X := take0 s1 0 in let* Y := take0 s2 0 in Ok (X, Y)
                             else Ok (s1, s2)) = Ok (X, Y)).
  { destruct (_is_epoched h) eqn:Hep; [| eauto].
    destruct (Hready Hep 0) as (X & Y & -> & ->); [lia |]. simpl. eauto. }
  destruct Hxy as (X & Y & ->). cbn.
  destruct (z =? 0)%Z eqn:E; [apply Z.eqb_eq in E; contradiction |].
  case_match; reflexivity.
Qed.

Lemma mi_body_first_raises h et sig perm (st : option Calc * tensor) e n :
  first_pair h < n ->
  (forall s1 s2, pair_samples h 0 (first_pair h) = Ok (s1, s2) ->
                 mi_estimate h et sig perm (fst st) s1 s2 = Raise e) ->
  (forall e', pair_samples h 0 (first_pair h) = Raise e' -> e' = e) ->
  double_loop (mi_body h et sig perm) n st = Raise e.
Proof.
  intros Hn Hest Hpair. destruct st as [c M]. simpl in Hest.
  apply (double_loop_raises_first _ n (c, M) (first_pair h)); [exact Hn | |].
  - intros j Hj. unfold first_pair in Hj. unfold mi_body.
    destruct (_inter_brain h); [lia |]. assert (j = 0) as -> by lia. reflexivity.
  - unfold mi_body.
    assert (Hgo : _inter_brain h || negb (0 =? first_pair h) = true).
    { unfold first_pair. destruct (_inter_brain h); reflexivity. }
    rewrite Hgo. destruct (pair_samples h 0 (first_pair h)) as [[s1 s2] | e'] eqn:Hs; cbn.
    + rewrite (Hest s1 s2 eq_refl). reflexivity.
    + rewrite (Hpair e' eq_refl). reflexivity.
Qed.

Lemma te_body_first_raises h sig perm (st : Calc * tensor * tensor) e n :
  first_pair h < n ->
  (forall s1 s2, pair_samples h 0 (first_pair h) = Ok (s1, s2) ->
                 estimate_it h sig perm (fst (fst st)) s1 s2 = Raise e) ->
  (forall e', pair_samples h 0 (first_pair h) = Raise e' -> e' = e) ->
  double_loop (te_body h sig perm) n st = Raise e.
Proof.
  intros Hn Hest Hpair. destruct st as [[c xy] yx]. simpl in Hest.
  apply (double_loop_raises_first _ n (c, xy, yx) (first_pair h)); [exact Hn | |].
  - intros j Hj. unfold first_pair in Hj. unfold te_body.
    destruct (_inter_brain h); [lia |]. assert (j = 0) as -> by lia. reflexivity.
  - unfold te_body.
    assert (Hgo : _inter_brain h || negb (0 =? first_pair h) = true).
    { unfold first_pair. destruct (_inter_brain h); reflexivity. }
    rewrite Hgo. destruct (pair_samples h 0 (first_pair h)) as [[s1 s2] | e'] eqn:Hs; cbn.
    + rewrite (Hest s1 s2 eq_refl). reflexivity.
    + rewrite (Hpair e' eq_refl). reflexivity.
Qed.

Lemma which_te_estimator_symbolic kw h :
  exists c : Calc, which_te_estimator "symbolic" kw h
                   = (set_initialise_parameter (Some (PInt 2)) h, Ok c).
Proof. unfold which_te_estimator, bind, assign, ret. simpl. eexists. reflexivity. Qed.

(** X12: the scale of organisation 0, which a grouped assignment of empty
    groups sets, is handled by neither branch of the sample selection:
    with at least one pair to compute, [compute_mi] and [compute_te]
    raise [UnboundLocalError] for every accepted estimator. *)
Theorem compute_scale_zero (h : HyperIT) (n : nat) :
  _scale_of_organisation h = 0 -> _soi_groups h = Some n -> first_pair h < n ->
  (forall et sig kw, lower et ∈ mi_estimators ->
                     compute_mi h et sig kw = Raise UnboundLocalError)
  /\ (forall et sig kw, lower et ∈ te_estimators ->
                        exists h', compute_te et sig kw h = (h', Raise UnboundLocalError)).
Proof.
  intros Hs Hg Hn.
  assert (Hpair : forall h0 i j, _scale_of_organisation h0 = 0 ->
                                 pair_samples h0 i j = Raise UnboundLocalError).
  { intros h0 i j E. unfold pair_samples. rewrite E. reflexivity. }
  split.
  - intros et sig kw Het.
    destruct (proj1 (which_mi_estimator_tokens _ sig kw) Het) as [c Hw].
    unfold compute_mi. rewrite Hw. cbn [rbind].
    unfold mi_alloc, loop_range. rewrite Hs, Hg. cbn [Nat.eqb of_option rbind].
    destruct (is_histogram (lower et) || is_symbolic (lower et)); cbn [rbind];
      rewrite (mi_body_first_raises h _ _ _ _ UnboundLocalError n Hn); try reflexivity;
      try (intros s1 s2; rewrite Hpair by exact Hs; discriminate);
      try (intros e'; rewrite Hpair by exact Hs; congruence).
  - intros et sig kw Het.
    destruct (proj1 (which_te_estimator_tokens _ kw h) Het) as (h' & c & Hw & Hh').
    assert (Hsame : _scale_of_organisation h' = 0 /\ _soi_groups h' = Some n
                    /\ first_pair h' = first_pair h).
    { destruct Hh' as [-> | [_ ->]]; auto. }
    destruct Hsame as (Hs' & Hg' & Hf').
    exists h'. unfold compute_te, bind, self, lift. rewrite Hw.
    unfold te_alloc, loop_range. rewrite Hs', Hg'. cbn [Nat.eqb of_option rbind].
    rewrite (te_body_first_raises h' _ _ _ UnboundLocalError n); try reflexivity.
    + rewrite Hf'. exact Hn.
    + intros s1 s2. rewrite Hpair by exact Hs'. discriminate.
    + intros e'. rewrite Hpair by exact Hs'. congruence.
Qed.

(** X13: the symbolic estimator of [compute_te] stores the integer 2 as
    initialise parameter, which the first estimate cannot unpack.  On a
    constructed object with a pair to compute the call raises
    [TypeError] and leaves the parameter behind, so that every later
    [compute_mi] or [compute_te] with a JIDT estimator raises it too. *)
Theorem compute_te_symbolic d1 d2 channel_names v (h : HyperIT) :
  rect d1 = true -> rect d2 = true -> init d1 d2 channel_names v = Ok h ->
  first_pair h < n_chan h ->
  let h' := set_initialise_parameter (Some (PInt 2)) h in
  (forall et sig kw, lower et = "symbolic" ->
                     compute_te et sig kw h = (h', Raise TypeError))
  /\ (forall et sig kw, lower et ∈ mi_jidt_estimators ->
                        compute_mi h' et sig kw = Raise TypeError)
  /\ (forall et sig kw, lower et ∈ te_estimators ->
                        compute_te et sig kw h' = (h', Raise TypeError)).
Proof.
  intros Hr1 Hr2 Hinit Hn h'. apply init_fresh in Hinit as Hfresh.
  pose proof Hfresh as (Hd1 & Hd2 & Hscale & _ & Hshape & _ & Hdims).
  assert (Hepo : 0 < n_epo h).
  { destruct Hdims as [(_ & _ & ->) | (_ & Hs)]; [lia |].
    rewrite <- Hd1 in Hs. eapply shape_positive, Hs. }
  assert (Hfirst : exists s1 s2, pair_samples h' 0 (first_pair h) = Ok (s1, s2)
                                 /\ epochs_ready h' s1 s2).
  { destruct (fresh_pair_samples d1 d2 h 0 (first_pair h) Hfresh Hr1 Hr2) as (s1 & s2 & Hs & Hrd);
      [lia | exact Hn |]. exists s1, s2. split; [exact Hs | exact Hrd]. }
  destruct Hfirst as (s1 & s2 & Hs & Hready).
  assert (Hest : forall sig perm (c : Calc) t1 t2,
             pair_samples h' 0 (first_pair h') = Ok (t1, t2) ->
             estimate_it h' sig perm c t1 t2 = Raise TypeError).
  { intros sig perm c t1 t2 Ht. change (first_pair h') with (first_pair h) in Ht.
    rewrite Hs in Ht. injection Ht as <- <-.
    apply (estimate_it_type_error h' sig perm c s1 s2 2); [reflexivity | lia | exact Hepo |].
    exact Hready. }
  assert (Hpair : forall e', pair_samples h' 0 (first_pair h') = Raise e' -> e' = TypeError).
  { intros e'. change (first_pair h') with (first_pair h). rewrite Hs. discriminate. }
  assert (Hte : forall sig perm (c : Calc) xy yx,
             double_loop (te_body h' sig perm) (n_chan h) (c, xy, yx) = Raise TypeError).
  { intros sig perm c xy yx. apply te_body_first_raises; [exact Hn | | exact Hpair].
    intros t1 t2. apply Hest. }
  assert (Hscale' : _scale_of_organisation h' = 1) by exact Hscale.
  assert (Hchan : n_chan h' = n_chan h) by reflexivity.
  split; [| split].
  - intros et sig kw Het. unfold compute_te, bind, self, lift. rewrite Het.
    destruct (which_te_estimator_symbolic kw h) as [c ->]. fold h'.
    unfold te_alloc, loop_range. rewrite Hscale', Hchan. cbn [Nat.eqb rbind].
    rewrite Hte. reflexivity.
  - intros et sig kw Het.
    destruct (which_mi_estimator_jidt _ sig kw Het) as (Hh & Hsy & c & Hw).
    unfold compute_mi. rewrite Hw. cbn [rbind].
    unfold mi_alloc, loop_range. rewrite Hh, Hsy, Hscale', Hchan. cbn [orb Nat.eqb rbind].
    rewrite (mi_body_first_raises h' _ _ _ _ TypeError (n_chan h)); [reflexivity | exact Hn | |].
    + intros t1 t2 Ht. unfold mi_estimate. rewrite Hh, Hsy. cbn [fst of_option rbind].
      rewrite (Hest _ _ _ _ _ Ht). reflexivity.
    + exact Hpair.
  - intros et sig kw Het.
    destruct (proj1 (which_te_estimator_tokens _ kw h') Het) as (h'' & c & Hw & Hh'').
    assert (h'' = h') as -> by (destruct Hh'' as [-> | [_ ->]]; reflexivity).
    unfold compute_te, bind, self, lift. rewrite Hw.
    unfold te_alloc, loop_range. rewrite Hscale', Hchan. cbn [Nat.eqb rbind].
    rewrite Hte. reflexivity.
Qed.

End EngineErrors.

Lemma compute_scale_zero_witness :
  compute_mi (fst (roi_setter [PList [PList []]; PList [PList []]] demo_h))
             "kernel" false no_kwargs
  = Raise UnboundLocalError.
Proof.
  destruct (compute_scale_zero (fst (roi_setter [PList [PList []]; PList [PList []]] demo_h)) 1)
    as [Hmi _].
  - reflexivity.
  - reflexivity.
  - vm_compute. lia.
  - apply Hmi. vm_compute. in_list.
Defined.

Lemma compute_te_symbolic_witness :
  compute_te "Symbolic" false no_kwargs demo_h
  = (set_initialise_parameter (Some (PInt 2)) demo_h, Raise TypeError)
  /\ compute_mi (set_initialise_parameter (Some (PInt 2)) demo_h) "kernel" false no_kwargs
     = Raise TypeError.
Proof.
  destruct (compute_te_symbolic demo_a demo_b demo_names false demo_h)
    as (Hte & Hmi & _).
  - reflexivity.
  - reflexivity.
  - vm_compute. reflexivity.
  - vm_compute. lia.
  - split; [apply Hte; reflexivity | apply Hmi; vm_compute; in_list].
Defined.


Section EnginePairs.
Context {Calc : Type} `{JIDT Calc}.

(** One pass of the body of [compute_mi] at a pair that is computed. *)
Lemma mi_body_step h et sig perm (c : option Calc) M c' M' i j :
  mi_body h et sig perm (c, M) i j = Ok (c', M') ->
  _inter_brain h || negb (i =? j) = true ->
  exists s1 s2 v,
    pair_samples h i j = Ok (s1, s2)
    /\ mi_estimate h et sig perm c s1 s2 = Ok (v, c')
    /\ lookup2 M' i j = Some v
    /\ (if _inter_brain h
        then forall a b, (a, b) <> (i, j) -> lookup2 M' a b = lookup2 M a b
        else lookup2 M' j i = Some v
             /\ forall a b, (a, b) <> (i, j) -> (a, b) <> (j, i) ->
                            lookup2 M' a b = lookup2 M a b).
Proof.
  intros Hrun Hgo. unfold mi_body in Hrun. rewrite Hgo in Hrun.
  apply rbind_ok in Hrun as ([s1 s2] & Hs & Hrun).
  apply rbind_ok in Hrun as ([v c1] & Hv & Hrun).
  apply rbind_ok in Hrun as (M1 & Hset1 & Hrun).
  pose proof (setitem2_lookup2 _ _ _ _ _ Hset1) as L1.
  exists s1, s2, v. split; [exact Hs |].
  destruct (_inter_brain h); simpl in Hrun.
  - injection Hrun as <- <-. split; [exact Hv |]. split.
    + rewrite L1, bool_decide_eq_true_2 by auto. reflexivity.
    + intros a b Hne. rewrite L1, bool_decide_eq_false_2; [reflexivity |].
      intros [-> ->]. congruence.
  - apply rbind_ok in Hrun as (w & Hw & Hrun).
    apply rbind_ok in Hrun as (M2 & Hset2 & [= <- <-]).
    apply getitem2_ok in Hw. rewrite L1, bool_decide_eq_true_2 in Hw by auto.
    injection Hw as <-.
    pose proof (setitem2_lookup2 _ _ _ _ _ Hset2) as L2.
    split; [exact Hv |]. split; [| split].
    + rewrite L2. case_bool_decide as E; [reflexivity |].
      rewrite L1, bool_decide_eq_true_2 by auto. reflexivity.
    + rewrite L2, bool_decide_eq_true_2 by auto. reflexivity.
    + intros a b H1 H2. rewrite L2, bool_decide_eq_false_2 by (intros [-> ->]; congruence).
      rewrite L1, bool_decide_eq_false_2 by (intros [-> ->]; congruence). reflexivity.
Qed.

Lemma compute_mi_unfold h et sig kw M :
  compute_mi h et sig kw = Ok M ->
  exists c M0 n c',
    which_mi_estimator (lower et) sig kw = Ok (mi_sigstats (lower et) sig, c)
    /\ mi_alloc h (lower et) = Ok M0 /\ loop_range h = Ok n
    /\ double_loop (mi_body h (lower et) (mi_sigstats (lower et) sig)
                            (default 100%Z (kw_stat_sig_perm_num kw)))
                   n (c, M0) = Ok (c', M).
Proof.
  intros Hrun. unfold compute_mi in Hrun.
  apply rbind_ok in Hrun as ([sig' c] & Hw & Hrun).
  apply rbind_ok in Hrun as (M0 & Halloc & Hrun).
  apply rbind_ok in Hrun as (n & Hn & Hrun).
  apply rbind_ok in Hrun as ([c' M'] & Hloop & [= <-]).
  pose proof (which_mi_estimator_sigstats _ _ _ _ _ Hw) as ->.
  exists c, M0, n, c'. auto.
Qed.

(** The cell of a pair, once computed, is not written again by a later
    pass on two sources. *)
Lemma compute_mi_inter_cells h et sig kw M :
  _inter_brain h = true -> compute_mi h et sig kw = Ok M ->
  exists n, loop_range h = Ok n
            /\ forall i j, i < n -> j < n ->
                 mi_cell_from h (lower et) (mi_sigstats (lower et) sig)
                              (default 100%Z (kw_stat_sig_perm_num kw)) M i j i j.
Proof.
  intros Hinter Hrun.
  apply compute_mi_unfold in Hrun as (c & M0 & n & c' & _ & _ & Hn & Hloop).
  exists n. split; [exact Hn |].
  set (perm := default 100%Z (kw_stat_sig_perm_num kw)) in *.
  set (sig' := mi_sigstats (lower et) sig) in *.
  assert (Hinv : forall i j, (i < n /\ j < n) \/ (i = n /\ j < 0) ->
                             mi_cell_from h (lower et) sig' perm M i j i j).
  { revert Hloop.
    apply (double_loop_inv _ n
             (fun i0 j0 st => forall i j, (i < i0 /\ j < n) \/ (i = i0 /\ j < j0) ->
                              mi_cell_from h (lower et) sig' perm (snd st) i j i j)).
    - intros i0 st _ HI i j [[Hlt Hj] | [_ Hj]]; [| lia].
      apply HI. destruct (decide (i = i0)) as [-> | Hne]; [right | left]; split; lia.
    - simpl. intros i j [[Hlt _] | [_ Hlt]]; lia.
    - intros i0 j0 [c1 M1] [c2 M2] _ _ HI Hbody. simpl in *.
      destruct (mi_body_step _ _ _ _ _ _ _ _ _ _ Hbody) as (s1 & s2 & v & Hs & Hv & Hl & Hold).
      { rewrite Hinter. reflexivity. }
      rewrite Hinter in Hold. intros i j Hpos.
      destruct (decide ((i, j) = (i0, j0))) as [[= -> ->] | Hne].
      + exists s1, s2, c1, v, c2. auto.
      + destruct (HI i j) as (t1 & t2 & ca & w & cb & Ht & Hw & Hlw).
        { destruct Hpos as [Hpos | [-> Hj]]; [left; exact Hpos | right].
          split; [reflexivity |]. assert (j <> j0) by congruence. lia. }
        exists t1, t2, ca, w, cb. rewrite (Hold i j Hne). auto. }
  intros i j Hi Hj. apply Hinv. left. auto.
Qed.

(** On one source every pair is visited twice, at [(b, a)] and later at
    [(a, b)] for [b < a]; the second visit overwrites both cells. *)
Lemma compute_mi_intra_cells h et sig kw M :
  _inter_brain h = false -> compute_mi h et sig kw = Ok M ->
  exists n, loop_range h = Ok n
            /\ forall a b, b < a -> a < n ->
                 let from := mi_cell_from h (lower et) (mi_sigstats (lower et) sig)
                                          (default 100%Z (kw_stat_sig_perm_num kw)) M in
                 from a b a b /\ from b a a b.
Proof.
  intros Hintra Hrun.
  apply compute_mi_unfold in Hrun as (c & M0 & n & c' & _ & _ & Hn & Hloop).
  exists n. split; [exact Hn |].
  set (perm := default 100%Z (kw_stat_sig_perm_num kw)) in *.
  set (sig' := mi_sigstats (lower et) sig) in *.
  assert (Hinv : forall a b, b < a -> (a < n /\ b < n) \/ (a = n /\ b < 0) ->
                             mi_cell_from h (lower et) sig' perm M a b a b
                             /\ mi_cell_from h (lower et) sig' perm M b a a b).
  { revert Hloop.
    apply (double_loop_inv _ n
             (fun i0 j0 st => forall a b, b < a -> (a < i0 /\ b < n) \/ (a = i0 /\ b < j0) ->
                              mi_cell_from h (lower et) sig' perm (snd st) a b a b
                              /\ mi_cell_from h (lower et) sig' perm (snd st) b a a b)).
    - intros i0 st _ HI a b Hba [[Hlt Hb] | [_ Hb]]; [| lia].
      apply HI; [exact Hba |].
      destruct (decide (a = i0)) as [-> | Hne]; [right | left]; split; lia.
    - simpl. intros a b _ [[Hlt _] | [_ Hlt]]; lia.
    - intros i0 j0 [c1 M1] [c2 M2] Hi0 Hj0 HI Hbody. cbn [snd fst] in HI |- *.
      destruct (decide (i0 = j0)) as [-> | Hij].
      + rewrite mi_body_diagonal in Hbody by exact Hintra. injection Hbody as <- <-.
        intros a b Hba Hpos. apply HI; [exact Hba |].
        destruct Hpos as [Hpos | [-> Hb]]; [left; exact Hpos | right; split; lia].
      + destruct (mi_body_step _ _ _ _ _ _ _ _ _ _ Hbody)
          as (s1 & s2 & v & Hs & Hv & Hl & Hold).
        { rewrite Hintra. simpl. apply negb_true_iff, Nat.eqb_neq, Hij. }
        rewrite Hintra in Hold. destruct Hold as [Hmirror Hold].
        intros a b Hba Hpos.
        destruct (decide ((a, b) = (i0, j0))) as [[= -> ->] | Hne].
        * split; exists s1, s2, c1, v, c2; auto.
        * assert (Hbefore : (a < i0 /\ b < n) \/ (a = i0 /\ b < j0)).
          { destruct Hpos as [Hpos | [-> Hb]]; [left; exact Hpos | right].
            split; [reflexivity |]. assert (b <> j0) by congruence. lia. }
          destruct (HI a b Hba Hbefore)
            as [(t1 & t2 & ca & w & cb & Ht & Hw & Hlw) (u1 & u2 & cc & x & cd & Hu & Hx & Hlx)].
          assert (Ha : a <= i0) by lia.
          split.
          -- exists t1, t2, ca, w, cb. rewrite Hold; auto.
             intros [= -> ->]. lia.
          -- exists u1, u2, cc, x, cd. rewrite Hold; auto.
             ++ intros [= -> ->]. lia.
             ++ intros [= -> ->]. congruence. }
  intros a b Hba Ha. apply Hinv; [exact Hba |]. left. lia.
Qed.

(** X14: on two sources [compute_mi] computes every pair of the loop
    range, the pairs [(i, i)] included: cell [(i, j)] of the returned
    tensor holds the estimate made on source unit [i] and target unit
    [j], with significance testing as the estimator allows it.  For a
    constructed object and a JIDT estimator the call returns. *)
Theorem compute_mi_inter_pairs (h : HyperIT) :
  _inter_brain h = true ->
  (forall et sig kw M,
      compute_mi h et sig kw = Ok M ->
      exists n, loop_range h = Ok n
                /\ forall i j, i < n -> j < n ->
                     mi_cell_from h (lower et) (mi_sigstats (lower et) sig)
                                  (default 100%Z (kw_stat_sig_perm_num kw)) M i j i j)
  /\ (forall d1 d2 channel_names v et sig kw,
        rect d1 = true -> rect d2 = true -> init d1 d2 channel_names v = Ok h ->
        lower et ∈ mi_jidt_estimators ->
        exists M, compute_mi h et sig kw = Ok M).
Proof.
  intros Hinter. split.
  - intros et sig kw M. apply compute_mi_inter_cells, Hinter.
  - intros d1 d2 channel_names v et sig kw. apply compute_mi_returns.
Qed.

(** X15: on one source [compute_mi] estimates every pair twice and keeps
    the second estimate: for [b < a] the cells [(a, b)] and [(b, a)] of
    the returned tensor both hold the estimate made at the later visit,
    with unit [a] as source and unit [b] as target.  For a constructed
    object and a JIDT estimator the call returns. *)
Theorem compute_mi_intra_later_visit (h : HyperIT) :
  _inter_brain h = false ->
  (forall et sig kw M,
      compute_mi h et sig kw = Ok M ->
      exists n, loop_range h = Ok n
                /\ forall a b, b < a -> a < n ->
                     let from := mi_cell_from h (lower et) (mi_sigstats (lower et) sig)
                                              (default 100%Z (kw_stat_sig_perm_num kw)) M in
                     from a b a b /\ from b a a b)
  /\ (forall d1 d2 channel_names v et sig kw,
        rect d1 = true -> rect d2 = true -> init d1 d2 channel_names v = Ok h ->
        lower et ∈ mi_jidt_estimators ->
        exists M, compute_mi h et sig kw = Ok M).
Proof.
  intros Hintra. split.
  - intros et sig kw M. apply compute_mi_intra_cells, Hintra.
  - intros d1 d2 channel_names v et sig kw. apply compute_mi_returns.
Qed.

End EnginePairs.

Lemma compute_mi_inter_pairs_witness :
  exists M, compute_mi demo_h "ksg" true no_kwargs = Ok M
            /\ forall i j, i < 3 -> j < 3 -> mi_cell_from demo_h "ksg" true 100 M i j i j.
Proof.
  destruct (compute_mi_inter_pairs demo_h eq_refl) as [Hcells Hret].
  destruct (Hret demo_a demo_b demo_names false "ksg" true no_kwargs
              eq_refl eq_refl init_demo) as [M HM].
  { vm_compute. in_list. }
  exists M. split; [exact HM |].
  destruct (Hcells _ _ _ _ HM) as (n & Hn & Hall). injection Hn as <-. exact Hall.
Defined.

Lemma compute_mi_intra_later_visit_witness :
  exists M, compute_mi solo_h "kernel" false no_kwargs = Ok M
            /\ mi_cell_from solo_h "kernel" false 100 M 1 0 1 0
            /\ mi_cell_from solo_h "kernel" false 100 M 0 1 1 0.
Proof.
  destruct (compute_mi_intra_later_visit solo_h eq_refl) as [Hcells Hret].
  destruct (Hret solo solo solo_names false "kernel" false no_kwargs
              eq_refl eq_refl init_solo) as [M HM].
  { vm_compute. in_list. }
  exists M. split; [exact HM |].
  destruct (Hcells _ _ _ _ HM) as (n & Hn & Hall). injection Hn as <-.
  apply (Hall 1 0); lia.
Defined.


(** ** The symbolic estimator, further *)










Lemma Rsum_INR (l : list nat) : Rsum (map INR l) = INR (list_sum l).
Proof.
  induction l as [| n l IH]; simpl; [reflexivity |]. rewrite IH, plus_INR. reflexivity.
Qed.

Lemma symb_normalise_counts_values d :
  symb_normalise_counts d
  = map (fun v => (INR v / INR (list_sum (map snd d)))%R) (map snd d).
Proof. unfold symb_normalise_counts, count_total. rewrite map_map. reflexivity. Qed.





(** The stacking loop of [symb_symbolise] fills every row when the
    sequence has at least [(m - 1) * l] samples. *)
Lemma symbol_hashes_outcome x l m :
  let N := (Z.of_nat (length x) - (Z.of_nat m - 1) * Z.of_nat l)%Z in
  ((N < 0)%Z ->
   symbol_hashes (array1 x) l m = Raise (ValueError "negative dimensions are not allowed"))
  /\ ((0 <= N)%Z ->
      exists hs, symbol_hashes (array1 x) l m = Ok hs /\ Z.of_nat (length hs) = N).
Proof.
  intros N. unfold symbol_hashes. rewrite symb_symbolise_array1. fold N. cbv zeta. split.
  - intros HN. apply Z.ltb_lt in HN. rewrite HN. reflexivity.
  - intros HN. pose proof HN as HN'. apply Z.ltb_ge in HN'. rewrite HN'.
    destruct (mapR_succeeds (lagged_copy (Z.to_nat N) l x) (fun _ => True) (seq 0 m))
      as (Y & HY & _ & _).
    { intros i Hi. apply in_seq in Hi. unfold lagged_copy.
      assert (Hlen : length (take (Z.to_nat N) (drop (i * l) x)) = Z.to_nat N).
      { rewrite length_take, length_drop. unfold N in *. nia. }
      rewrite Hlen, Nat.eqb_refl. eauto. }
    rewrite HY. cbn [rbind]. eexists. split; [reflexivity |].
    rewrite !length_map, length_seq. lia.
Qed.

(** X18: sequences too short for the embedding.  With fewer than
    [(m - 1) * l] samples the stacking array has a negative dimension and
    the estimator raises; with [(m - 1) * l] or one more sample there is
    at most one window, the counting loop does not run, and the estimate
    is 0 whatever the samples are. *)
Theorem mi_symb_short (x y : list Q) (l m : nat) :
  1 <= m ->
  (length x < (m - 1) * l ->
   mi_symb_epoch (array1 x) (array1 y) l m
   = Raise (ValueError "negative dimensions are not allowed"))
  /\ ((m - 1) * l <= length x <= (m - 1) * l + 1 -> (m - 1) * l <= length y ->
      mi_symb_epoch (array1 x) (array1 y) l m = Ok 0%R).
Proof.
  intros Hm. unfold mi_symb_epoch. split.
  - intros Hx. rewrite (proj1 (symbol_hashes_outcome x l m)) by nia. reflexivity.
  - intros Hx Hy.
    destruct (proj2 (symbol_hashes_outcome x l m)) as (hX & -> & HlX); [nia |].
    destruct (proj2 (symbol_hashes_outcome y l m)) as (hY & -> & HlY); [nia |].
    cbn [rbind]. unfold symb_count.
    replace (length hX - 1) with 0 by nia. cbn. f_equal. unfold entropy. simpl. lra.
Qed.

Lemma mi_symb_short_witness :
  mi_symb_epoch (vec [5; 1; 4]%Z) (vec [2; 7; 1; 8; 2; 8]%Z) 1 3 = Ok 0%R.
Proof.
  destruct (mi_symb_short (map inject_Z [5; 1; 4]%Z) (map inject_Z [2; 7; 1; 8; 2; 8]%Z) 1 3)
    as [_ Hzero].
  - lia.
  - apply Hzero; simpl; lia.
Defined.


Lemma pretty_N_char_no_comma x : pretty_N_char x <> ","%char.
Proof. unfold pretty_N_char. repeat case_match; discriminate. Qed.

Lemma pretty_N_go_no_comma x s : no_comma s -> no_comma (pretty_N_go x s).
Proof.
  revert s. induction (N.lt_wf_0 x) as [x _ IH]; intros s Hs.
  assert (x = 0 \/ 0 < x)%N as [-> | Hx] by lia.
  - rewrite pretty_N_go_0. exact Hs.
  - rewrite pretty_N_go_step by exact Hx. apply IH.
    + apply N.div_lt; lia.
    + simpl. split; [apply pretty_N_char_no_comma | exact Hs].
Qed.

Lemma pretty_nat_no_comma (n : nat) : no_comma (pretty n).
Proof.
  unfold pretty, pretty_nat, pretty, pretty_N.
  case_decide; [simpl; split; [discriminate | exact I] |].
  apply pretty_N_go_no_comma. exact I.
Qed.

Lemma comma_split s1 s2 t1 t2 :
  no_comma s1 -> no_comma s2 ->
  s1 +:+ "," +:+ t1 = s2 +:+ "," +:+ t2 -> s1 = s2 /\ t1 = t2.
Proof.
  change ("," +:+ t1) with (String ","%char t1).
  change ("," +:+ t2) with (String ","%char t2).
  revert s2. induction s1 as [| c s1 IH]; intros [| c2 s2]; cbn [String.append no_comma].
  - intros _ _ Heq. injection Heq as Heq. auto.
  - intros _ [Hc _] Heq. injection Heq as Hc' _. congruence.
  - intros [Hc _] _ Heq. injection Heq as Hc' _. congruence.
  - intros [_ H1] [_ H2] Heq. injection Heq as Hc Heq.
    destruct (IH s2 H1 H2 Heq) as [-> ->]. subst. auto.
Qed.

Lemma joint_key_inj a b c d : joint_key a b = joint_key c d -> a = c /\ b = d.
Proof.
  unfold joint_key. intros Heq.
  apply comma_split in Heq as [H1 H2]; try apply pretty_nat_no_comma.
  split; eapply (inj pretty); eassumption.
Qed.

Lemma incr_parallel (P : string -> string -> Prop) k k' d d' :
  Forall2 (fun kv kv' : string * nat =>
             snd kv = snd kv' /\ P (fst kv) (fst kv') /\ (fst kv = k <-> fst kv' = k')) d d' ->
  P k k' ->
  Forall2 (fun kv kv' : string * nat => snd kv = snd kv' /\ P (fst kv) (fst kv'))
          (incr k d) (incr k' d').
Proof.
  intros Hd HP. induction Hd as [| [k0 v] [k0' v'] d d' (Hv & HP0 & Hiff) Hd IH]; simpl.
  - repeat constructor; assumption.
  - simpl in *. subst v'.
    case_bool_decide as E; case_bool_decide as E'; try tauto.
    + constructor; [simpl; auto |].
      eapply Forall2_impl; [exact Hd |]. intros ? ? (? & ? & _). auto.
    + constructor; [simpl; auto | exact IH].
Qed.

(** Two key functions that identify the same observations give
    dictionaries with the same counts in the same order. *)
Lemma tally_parallel {A} (f g : A -> string) (l : list A) :
  (forall a b, a ∈ l -> b ∈ l -> (f a = f b <-> g a = g b)) ->
  map snd (tally (map f l)) = map snd (tally (map g l)).
Proof.
  intros Hfg.
  assert (Hinv : forall l0, (forall a, a ∈ l0 -> a ∈ l) ->
             Forall2 (fun kv kv' : string * nat =>
                        snd kv = snd kv'
                        /\ exists a, a ∈ l /\ fst kv = f a /\ fst kv' = g a)
                     (tally (map f l0)) (tally (map g l0))).
  { induction l0 as [| a l0 IH] using rev_ind; intros Hsub; [constructor |].
    rewrite !map_app. simpl. rewrite !tally_snoc.
    assert (Ha : a ∈ l) by (apply Hsub, elem_of_app; right; apply elem_of_cons; left; reflexivity).
    apply (incr_parallel (fun s s' => exists a, a ∈ l /\ s = f a /\ s' = g a)); [| eauto].
    eapply Forall2_impl; [apply IH; intros b Hb; apply Hsub, elem_of_app; left; exact Hb |].
    intros [k v] [k' v'] (Hv & a0 & Ha0 & Hk & Hk'). simpl in *. subst k k'.
    split; [exact Hv |]. split; [eauto |]. apply Hfg; assumption. }
  specialize (Hinv l (fun a Ha => Ha)).
  induction Hinv as [| kv kv' d d' [Hv _] _ IH]; simpl; [reflexivity |]. congruence.
Qed.

Lemma zip_with_joint_key (f : nat -> nat -> string) (hX hY : list nat) :
  zip_with f hX hY = map (fun p => f (fst p) (snd p)) (zip hX hY).
Proof.
  revert hY. induction hX as [| a hX IH]; intros [| b hY]; simpl; try reflexivity.
  rewrite IH. reflexivity.
Qed.

Lemma zip_with_joint_key_swap (f : nat -> nat -> string) (hX hY : list nat) :
  zip_with f hY hX = map (fun p => f (snd p) (fst p)) (zip hX hY).
Proof.
  revert hY. induction hX as [| a hX IH]; intros [| b hY]; simpl; try reflexivity.
  rewrite IH. reflexivity.
Qed.

Lemma joint_counts_swap (hX hY : list nat) :
  symb_normalise_counts (tally (zip_with joint_key hX hY))
  = symb_normalise_counts (tally (zip_with joint_key hY hX)).
Proof.
  rewrite !symb_normalise_counts_values.
  rewrite zip_with_joint_key, zip_with_joint_key_swap.
  rewrite (tally_parallel (fun p => joint_key (fst p) (snd p))
                          (fun p => joint_key (snd p) (fst p))); [reflexivity |].
  intros [a b] [c d] _ _. simpl. split; intros Heq; apply joint_key_inj in Heq as [-> ->];
    reflexivity.
Qed.

(** X19: the symbolic estimate of one epoch does not depend on the order
    of its two sequences when they have the same number of samples:
    both orders return the same value or raise the same exception. *)
Theorem mi_symb_epoch_symmetric (x y : list Q) (l m : nat) :
  length x = length y ->
  mi_symb_epoch (array1 x) (array1 y) l m = mi_symb_epoch (array1 y) (array1 x) l m.
Proof.
  intros Hlen. unfold mi_symb_epoch.
  pose proof (symbol_hashes_outcome x l m) as [HxN HxP].
  pose proof (symbol_hashes_outcome y l m) as [HyN HyP].
  rewrite <- Hlen in HyN, HyP.
  destruct (Z_lt_le_dec (Z.of_nat (length x) - (Z.of_nat m - 1) * Z.of_nat l) 0) as [HN | HN].
  - rewrite (HxN HN), (HyN HN). reflexivity.
  - destruct (HxP HN) as (hX & -> & LX). destruct (HyP HN) as (hY & -> & LY).
    cbn [rbind].
    rewrite !symb_count_first by lia. cbn [rbind].
    replace (length hY - 1) with (length hX - 1) by lia.
    rewrite (joint_counts_swap (take (length hX - 1) hY)). f_equal. lra.
Qed.

Lemma mi_symb_epoch_symmetric_witness :
  mi_symb_epoch (vec [3; 1; 2; 5; 4]%Z) (vec [1; 1; 2; 0; 7]%Z) 1 3
  = mi_symb_epoch (vec [1; 1; 2; 0; 7]%Z) (vec [3; 1; 2; 5; 4]%Z) 1 3.
Proof.
  apply (mi_symb_epoch_symmetric (map inject_Z [3; 1; 2; 5; 4]%Z)
           (map inject_Z [1; 1; 2; 0; 7]%Z) 1 3).
  reflexivity.
Defined.


(** ** The functional module *)

Lemma obind_returns {A B} (m : outcome A) (k : A -> outcome B) b :
  obind m k = Returns b -> exists a, m = Returns a /\ k a = Returns b.
Proof. destruct m; simpl; [eauto | discriminate]. Qed.

Lemma of_result_returns {A} (r : result A) a : of_result r = Returns a -> r = Ok a.
Proof. destruct r; simpl; congruence. Qed.

Lemma ofoldM_app {St X} (f : St -> X -> outcome St) st l1 l2 :
  ofoldM f st (l1 ++ l2) = obind (ofoldM f st l1) (fun st' => ofoldM f st' l2).
Proof.
  revert st. induction l1 as [| x l1 IH]; intros st; simpl; [reflexivity |].
  destruct (f st x); simpl; auto.
Qed.

Lemma ofoldM_seq_inv {St} (P : nat -> St -> Prop) (f : St -> nat -> outcome St) n st0 st :
  P 0 st0 ->
  (forall k st st', k < n -> P k st -> f st k = Returns st' -> P (S k) st') ->
  ofoldM f st0 (seq 0 n) = Returns st -> P n st.
Proof.
  intros H0 Hstep. revert st. induction n as [| n IH]; intros st.
  - simpl. intros [= <-]. exact H0.
  - rewrite seq_S, ofoldM_app. simpl. intros Hrun.
    apply obind_returns in Hrun as (st1 & Hrun1 & Hrun2).
    apply obind_returns in Hrun2 as (st2 & Hf & [= <-]).
    apply (Hstep n st1); [lia | | exact Hf].
    apply IH; [| exact Hrun1]. intros k s s' Hk. apply Hstep. lia.
Qed.

Lemma rect_pair_shape x y l :
  rect (Ar (x :: y :: l)) = true -> shape y = shape x.
Proof.
  simpl. intros Hr. apply andb_true_iff in Hr as [_ Hr].
  apply andb_true_iff in Hr as [_ Hr]. apply andb_true_iff in Hr as [Hy _].
  apply bool_decide_eq_true in Hy. exact Hy.
Qed.

(** X20: [check_eeg_data] on an array.  It reads the first two entries
    along the first axis and the first axis of each, so an array with
    fewer than two axes, or with fewer than two entries along the first,
    raises [IndexError]; the assertion cannot fail on an array, whose
    entries have one shape.  Otherwise three axes without [is_epoched],
    and more than three axes, raise [ValueError], and the array is
    returned unchanged. *)
Theorem legacy_check_eeg_data (data : ndarray) (is_epoched : bool) :
  rect data = true ->
  Legacy.check_eeg_data data is_epoched =
    match shape data with
    | n :: _ :: _ =>
        if n <? 2 then Raises (Builtin IndexError)
        else if (ndim data =? 3) && negb is_epoched
             then Raises (Builtin (Legacy.unepoched_3d (ndim data)))
        else if 3 <? ndim data then Raises (Builtin (Legacy.too_many_axes (ndim data)))
        else Returns data
    | _ => Raises (Builtin IndexError)
    end.
Proof.
  intros Hr. unfold Legacy.check_eeg_data, axis.
  destruct data as [q | [| x [| y l]]]; try reflexivity.
  - cbn [take0 lookup list_lookup of_option of_result obind].
    cbn [shape length]. destruct (shape x) as [| m sh] eqn:Hx; reflexivity.
  - pose proof (rect_pair_shape _ _ _ Hr) as Hxy.
    cbn [take0 lookup list_lookup of_option of_result obind].
    cbn [shape length]. rewrite Hxy.
    destruct (shape x) as [| m sh] eqn:Hx; [reflexivity |].
    cbn [lookup list_lookup of_option of_result obind]. rewrite Nat.eqb_refl.
    cbn [negb]. reflexivity.
Qed.

Lemma legacy_check_eeg_data_witness :
  Legacy.check_eeg_data (Ar [mat [[1; 2]; [3; 4]]%Z]) true = Raises (Builtin IndexError).
Proof.
  rewrite (legacy_check_eeg_data (Ar [mat [[1; 2]; [3; 4]]%Z]) true); reflexivity.
Defined.


Lemma epoch_rows_pair h s1 s2 e :
  Legacy.epoch_rows (_is_epoched h) s1 s2 e = epoch_pair h s1 s2 e.
Proof. reflexivity. Qed.






Lemma setitem_entry2 M i j v M' :
  setitem M i j v = Ok M' ->
  forall a b, entry2 M' a b = if bool_decide (a = i /\ b = j) then Some v else entry2 M a b.
Proof.
  unfold setitem, entry2. destruct (M !! i) as [r |] eqn:Hr; [| discriminate].
  destruct (j <? length r) eqn:Hj; [| discriminate]. apply Nat.ltb_lt in Hj.
  intros [= <-] a b.
  destruct (decide (a = i)) as [-> | Ha].
  - rewrite list_lookup_insert_eq by (eapply lookup_lt_Some; eauto). simpl.
    destruct (decide (b = j)) as [-> | Hb].
    + rewrite list_lookup_insert_eq by exact Hj. rewrite bool_decide_eq_true_2; auto.
    + rewrite list_lookup_insert_ne by congruence. rewrite bool_decide_eq_false_2 by tauto.
      rewrite Hr. reflexivity.
  - rewrite list_lookup_insert_ne by congruence. rewrite bool_decide_eq_false_2 by tauto.
    reflexivity.
Qed.

Lemma entry2_zeros2 n i j : i < n -> j < n -> entry2 (zeros2 n) i j = Some 0%R.
Proof.
  intros Hi Hj. unfold entry2, zeros2. rewrite lookup_replicate_2 by exact Hi. simpl.
  apply lookup_replicate_2, Hj.
Qed.

(** Two nested loops over [range(n)] that return keep an invariant that
    is indexed by the position of the next pass. *)
Lemma onested_inv {St} (body : St -> nat -> nat -> outcome St) n
    (Inv : nat -> nat -> St -> Prop) st0 st :
  (forall i st, i < n -> Inv i n st -> Inv (S i) 0 st) ->
  Inv 0 0 st0 ->
  (forall i j st st', i < n -> j < n -> Inv i j st -> body st i j = Returns st' ->
                      Inv i (S j) st') ->
  ofoldM (fun st i => ofoldM (fun st j => body st i j) st (seq 0 n)) st0 (seq 0 n)
  = Returns st ->
  Inv n 0 st.
Proof.
  intros Hrow H0 Hstep.
  apply (ofoldM_seq_inv (fun i st => Inv i 0 st)); [exact H0 |].
  intros i s s' Hi HI Hrun. apply Hrow; [exact Hi |].
  revert Hrun. apply (ofoldM_seq_inv (fun j st => Inv i j st)); [exact HI |].
  intros j t t' Hj. apply Hstep; assumption.
Qed.

Lemma check_eeg_data_returns data is_epoched r :
  Legacy.check_eeg_data data is_epoched = Returns r -> r = data.
Proof.
  unfold Legacy.check_eeg_data. intros Hc.
  repeat match type of Hc with
         | obind ?m _ = _ => destruct m; cbn [obind] in Hc; [| discriminate]
         end.
  repeat match type of Hc with
         | (if ?b then _ else _) = _ => destruct b; [discriminate |]
         end.
  congruence.
Qed.

Section LegacyAssembly.
Context {K : Type}.
Variables te_ksg te_kernel te_gaussian te_symbolic : ndarray -> ndarray -> bool -> K -> outcome R.

Lemma legacy_te_body_step te_func inter is_epoched a b (kw : K) xy yx xy' yx' i j :
  Legacy.te_body te_func inter is_epoched a b kw (xy, yx) i j = Returns (xy', yx') ->
  if inter || negb (i =? j) then
    estimate_at te_func is_epoched kw a b xy' i j
    /\ (forall p q, (p, q) <> (i, j) -> entry2 xy' p q = entry2 xy p q)
    /\ (if inter
        then estimate_back_at te_func is_epoched kw a b yx' i j
             /\ forall p q, (p, q) <> (i, j) -> entry2 yx' p q = entry2 yx p q
        else yx' = yx)
  else xy' = xy /\ yx' = yx.
Proof.
  unfold Legacy.te_body. destruct (inter || negb (i =? j)); [| intros [= <- <-]; auto].
  intros Hrun.
  apply obind_returns in Hrun as (s1 & Hs1 & Hrun). apply of_result_returns in Hs1.
  apply obind_returns in Hrun as (s2 & Hs2 & Hrun). apply of_result_returns in Hs2.
  apply obind_returns in Hrun as (v & Hv & Hrun).
  apply obind_returns in Hrun as (xy1 & Hset & Hrun). apply of_result_returns in Hset.
  pose proof (setitem_entry2 _ _ _ _ _ Hset) as L1.
  assert (Hxy : estimate_at te_func is_epoched kw a b xy1 i j
                /\ forall p q, (p, q) <> (i, j) -> entry2 xy1 p q = entry2 xy p q).
  { split.
    - exists s1, s2, v. rewrite L1, bool_decide_eq_true_2 by auto. auto.
    - intros p q Hne. rewrite L1, bool_decide_eq_false_2; [reflexivity |].
      intros [-> ->]. congruence. }
  destruct inter.
  - apply obind_returns in Hrun as (w & Hw & Hrun).
    apply obind_returns in Hrun as (yx1 & Hset2 & [= <- <-]).
    apply of_result_returns in Hset2.
    pose proof (setitem_entry2 _ _ _ _ _ Hset2) as L2.
    destruct Hxy as [H1 H2]. split; [exact H1 |]. split; [exact H2 |]. split.
    + exists s1, s2, w. rewrite L2, bool_decide_eq_true_2 by auto. auto.
    + intros p q Hne. rewrite L2, bool_decide_eq_false_2; [reflexivity |].
      intros [-> ->]. congruence.
  - injection Hrun as <- <-. destruct Hxy as [H1 H2]. auto.
Qed.

(** X22: the matrix assembly of the module's [compute_te], for any
    estimator functions.  A call that returns was given a supported mode
    and arrays that pass [check_eeg_data].  With a second participant it
    returns two matrices, and entry [(i, j)] of the first is the estimate
    for channel [i] of the first array as source and channel [j] of the
    second as target, entry [(i, j)] of the second the estimate for the
    same two channels in the other order.  With one participant it
    returns a single matrix, whose diagonal is zero and whose other
    entries are the estimates for source channel [i] and target
    channel [j]. *)
Theorem legacy_compute_te (eeg_1 : ndarray) (eeg_2 : option ndarray) (is_epoched : bool)
    (mode : string) (kwargs : K) (r : Legacy.te_matrices) :
  Legacy.compute_te te_ksg te_kernel te_gaussian te_symbolic eeg_1 eeg_2 is_epoched mode kwargs
  = Returns r ->
  exists te_func n_chan,
    Legacy.te_estimation_methods te_ksg te_kernel te_gaussian te_symbolic mode = Some te_func
    /\ Legacy.check_eeg_data eeg_1 is_epoched = Returns eeg_1
    /\ axis eeg_1 (if is_epoched then 1 else 0) = Ok n_chan
    /\ match eeg_2 with
       | Some eeg_2 =>
           exists xy yx,
             r = Legacy.Both xy yx
             /\ forall i j, i < n_chan -> j < n_chan ->
                  estimate_at te_func is_epoched kwargs eeg_1 eeg_2 xy i j
                  /\ estimate_back_at te_func is_epoched kwargs eeg_1 eeg_2 yx i j
       | None =>
           exists xy,
             r = Legacy.Single xy
             /\ (forall i, i < n_chan -> entry2 xy i i = Some 0%R)
             /\ forall i j, i < n_chan -> j < n_chan -> i <> j ->
                  estimate_at te_func is_epoched kwargs eeg_1 eeg_1 xy i j
       end.
Proof.
  unfold Legacy.compute_te. intros Hrun.
  apply obind_returns in Hrun as (signal1 & Hc1 & Hrun).
  pose proof (check_eeg_data_returns _ _ _ Hc1) as ->.
  apply obind_returns in Hrun as (signal2 & Hc2 & Hrun).
  apply obind_returns in Hrun as (n & Hn & Hrun). apply of_result_returns in Hn.
  destruct (Legacy.te_estimation_methods _ _ _ _ mode) as [te_func |]; [| discriminate].
  apply obind_returns in Hrun as ([xy yx] & Hloop & Hrun).
  exists te_func, n. split; [reflexivity |]. split; [exact Hc1 |]. split; [exact Hn |].
  destruct eeg_2 as [eeg_2 |].
  - apply check_eeg_data_returns in Hc2 as ->.
    injection Hrun as <-. exists xy, yx. split; [reflexivity |].
    assert (Hinv : forall i j, (i < n /\ j < n) \/ (i = n /\ j < 0) ->
                               estimate_at te_func is_epoched kwargs eeg_1 eeg_2 xy i j
                               /\ estimate_back_at te_func is_epoched kwargs eeg_1 eeg_2 yx i j).
    { revert Hloop.
      apply (onested_inv _ n
               (fun i0 j0 st => forall i j, (i < i0 /\ j < n) \/ (i = i0 /\ j < j0) ->
                  estimate_at te_func is_epoched kwargs eeg_1 eeg_2 (fst st) i j
                  /\ estimate_back_at te_func is_epoched kwargs eeg_1 eeg_2 (snd st) i j)).
      - intros i0 st _ HI i j [[Hlt Hj] | [_ Hj]]; [| lia].
        apply HI. destruct (decide (i = i0)) as [-> | Hne]; [right | left]; split; lia.
      - intros i j [[Hlt _] | [_ Hlt]]; lia.
      - intros i0 j0 [xy1 yx1] [xy2 yx2] _ _ HI Hbody. cbn [fst snd] in HI |- *.
        apply legacy_te_body_step in Hbody. cbn [orb] in Hbody.
        destruct Hbody as (Hnew & Hold & Hback & Holdb).
        intros i j Hpos.
        destruct (decide ((i, j) = (i0, j0))) as [[= -> ->] | Hne]; [auto |].
        destruct (HI i j) as [(t1 & t2 & v & ? & ? & ? & Hv) (u1 & u2 & w & ? & ? & ? & Hw)].
        { destruct Hpos as [Hpos | [-> Hj]]; [left; exact Hpos | right].
          split; [reflexivity |]. assert (j <> j0) by congruence. lia. }
        split; [exists t1, t2, v | exists u1, u2, w];
          rewrite ?(Hold i j Hne), ?(Holdb i j Hne); auto. }
    intros i j Hi Hj. apply Hinv. left. auto.
  - injection Hc2 as <-. injection Hrun as <-. exists xy. split; [reflexivity |].
    assert (Hinv : (forall i, i < n -> entry2 xy i i = Some 0%R)
                   /\ forall i j, (i < n /\ j < n) \/ (i = n /\ j < 0) -> i <> j ->
                                  estimate_at te_func is_epoched kwargs eeg_1 eeg_1 xy i j).
    { revert Hloop.
      apply (onested_inv _ n
               (fun i0 j0 st =>
                  (forall i, i < n -> entry2 (fst st) i i = Some 0%R)
                  /\ forall i j, (i < i0 /\ j < n) \/ (i = i0 /\ j < j0) -> i <> j ->
                       estimate_at te_func is_epoched kwargs eeg_1 eeg_1 (fst st) i j)).
      - intros i0 st _ [Hd HI]. split; [exact Hd |].
        intros i j [[Hlt Hj] | [_ Hj]]; [| lia].
        apply HI. destruct (decide (i = i0)) as [-> | Hne]; [right | left]; split; lia.
      - cbn [fst]. split; [intros i Hi; apply entry2_zeros2; exact Hi |].
        intros i j [[Hlt _] | [_ Hlt]]; lia.
      - intros i0 j0 [xy1 yx1] [xy2 yx2] _ _ [Hd HI] Hbody. cbn [fst snd] in Hd, HI |- *.
        apply legacy_te_body_step in Hbody. cbn [orb] in Hbody.
        destruct (negb (i0 =? j0)) eqn:Hij.
        + apply negb_true_iff, Nat.eqb_neq in Hij.
          destruct Hbody as (Hnew & Hold & _). split.
          * intros i Hi. rewrite Hold by (intros [= -> ->]; congruence). apply Hd, Hi.
          * intros i j Hpos Hne.
            destruct (decide ((i, j) = (i0, j0))) as [[= -> ->] | Hne2]; [exact Hnew |].
            destruct (HI i j) as (t1 & t2 & v & ? & ? & ? & Hv); [| exact Hne |].
            { destruct Hpos as [Hpos | [-> Hj]]; [left; exact Hpos | right].
              split; [reflexivity |]. assert (j <> j0) by congruence. lia. }
            exists t1, t2, v. rewrite (Hold i j Hne2). auto.
        + apply negb_false_iff, Nat.eqb_eq in Hij. subst j0.
          destruct Hbody as [-> _]. split; [exact Hd |].
          intros i j Hpos Hne. apply HI; [| exact Hne].
          destruct Hpos as [Hpos | [-> Hj]]; [left; exact Hpos | right].
          split; [reflexivity |]. lia. }
    destruct Hinv as [Hd Hall]. split; [exact Hd |].
    intros i j Hi Hj Hne. apply Hall; [left; auto | exact Hne].
Qed.

End LegacyAssembly.

Lemma legacy_compute_te_witness :
  exists xy,
    Legacy.compute_te demo_estimator demo_estimator demo_estimator demo_estimator demo_a None false "kernel" tt
    = Returns (Legacy.Single xy)
    /\ entry2 xy 1 1 = Some 0%R
    /\ estimate_at demo_estimator false tt demo_a demo_a xy 2 1.
Proof.
  assert (Hrun : exists r, Legacy.compute_te demo_estimator demo_estimator demo_estimator demo_estimator demo_a None
                             false "kernel" tt = Returns r).
  { eexists. vm_compute. reflexivity. }
  destruct Hrun as [r Hrun].
  destruct (legacy_compute_te demo_estimator demo_estimator demo_estimator demo_estimator demo_a None false "kernel" tt
              r Hrun) as (te_func & n & Hf & _ & Hn & xy & -> & Hd & Hall).
  injection Hf as <-. injection Hn as <-.
  exists xy. split; [exact Hrun |]. split; [apply Hd; lia | apply Hall; lia].
Defined.


Lemma ofoldM_seq_from_inv {St} (P : nat -> St -> Prop) (f : St -> nat -> outcome St)
    a k st0 st :
  P a st0 ->
  (forall j st st', a <= j < a + k -> P j st -> f st j = Returns st' -> P (S j) st') ->
  ofoldM f st0 (seq a k) = Returns st -> P (a + k) st.
Proof.
  intros H0 Hstep. revert st. induction k as [| k IH]; intros st.
  - simpl. intros [= <-]. rewrite Nat.add_0_r. exact H0.
  - rewrite seq_S, ofoldM_app. simpl. intros Hrun.
    apply obind_returns in Hrun as (st1 & Hrun1 & Hrun2).
    apply obind_returns in Hrun2 as (st2 & Hf & [= <-]).
    rewrite Nat.add_succ_r. apply (Hstep (a + k) st1); [lia | | exact Hf].
    apply IH; [| exact Hrun1]. intros j s s' Hj. apply Hstep. lia.
Qed.

Section LegacyMiAssembly.
Context {K : Type}.
Variables mi_hist mi_ksg mi_kernel mi_gaussian mi_symbolic_kw
  : ndarray -> ndarray -> bool -> Legacy.mi_kwargs K -> outcome R.

Lemma legacy_mi_body_step mi_func inter is_epoched a b (kw : Legacy.mi_kwargs K) M M' i j :
  Legacy.mi_body mi_func inter is_epoched a b kw M i j = Returns M' ->
  if inter || negb (i =? j) then
    estimate_at mi_func is_epoched kw a b M' i j
    /\ (if inter
        then forall p q, (p, q) <> (i, j) -> entry2 M' p q = entry2 M p q
        else entry2 M' j i = entry2 M' i j
             /\ forall p q, (p, q) <> (i, j) -> (p, q) <> (j, i) ->
                            entry2 M' p q = entry2 M p q)
  else M' = M.
Proof.
  unfold Legacy.mi_body. destruct (inter || negb (i =? j)); [| intros [= <-]; auto].
  intros Hrun.
  apply obind_returns in Hrun as (s1 & Hs1 & Hrun). apply of_result_returns in Hs1.
  apply obind_returns in Hrun as (s2 & Hs2 & Hrun). apply of_result_returns in Hs2.
  apply obind_returns in Hrun as (v & Hv & Hrun).
  apply obind_returns in Hrun as (M1 & Hset & Hrun). apply of_result_returns in Hset.
  pose proof (setitem_entry2 _ _ _ _ _ Hset) as L1.
  assert (H1 : entry2 M1 i j = Some v).
  { rewrite L1, bool_decide_eq_true_2 by auto. reflexivity. }
  destruct inter; cbn [negb] in Hrun.
  - injection Hrun as <-. split; [exists s1, s2, v; auto |].
    intros p q Hne. rewrite L1, bool_decide_eq_false_2; [reflexivity |].
    intros [-> ->]. congruence.
  - apply obind_returns in Hrun as (w & Hw & Hset2).
    apply of_result_returns in Hw, Hset2. rewrite H1 in Hw. injection Hw as <-.
    pose proof (setitem_entry2 _ _ _ _ _ Hset2) as L2.
    assert (H2 : entry2 M' i j = Some v).
    { rewrite L2. case_bool_decide; [reflexivity | exact H1]. }
    split; [exists s1, s2, v; auto |]. split.
    + rewrite H2, L2, bool_decide_eq_true_2 by auto. reflexivity.
    + intros p q Hne1 Hne2. rewrite L2, bool_decide_eq_false_2.
      * rewrite L1, bool_decide_eq_false_2; [reflexivity |]. intros [-> ->]. congruence.
      * intros [-> ->]. congruence.
Qed.

(** X23: the matrix assembly of the module's [compute_mi], for any
    estimator functions.  A call that returns was given a supported
    mode; the estimator received the caller's keyword arguments, with
    [bins] filled in only for the mode [hist] called without it.  With a
    second participant entry [(i, j)] is the estimate for channel [i] of
    the first array and channel [j] of the second, for all [i] and [j].
    With one participant every pair of channels is estimated once, with
    the lower channel as first argument: for [i < j] entry [(i, j)] is
    that estimate and entry [(j, i)] is a copy of it, so the matrix is
    symmetric, and its diagonal is zero. *)
Theorem legacy_compute_mi (eeg_1 : ndarray) (eeg_2 : option ndarray) (is_epoched : bool)
    (mode : string) (kwargs : Legacy.mi_kwargs K) (M : list (list R)) :
  Legacy.compute_mi mi_hist mi_ksg mi_kernel mi_gaussian mi_symbolic_kw
                    eeg_1 eeg_2 is_epoched mode kwargs = Returns M ->
  exists mi_func n_chan kwargs',
    Legacy.mi_estimation_methods mi_hist mi_ksg mi_kernel mi_gaussian mi_symbolic_kw mode
    = Some mi_func
    /\ axis eeg_1 (if is_epoched then 1 else 0) = Ok n_chan
    /\ Legacy.kw_others kwargs' = Legacy.kw_others kwargs
    /\ (mode <> "hist" \/ Legacy.kw_bins kwargs <> None -> kwargs' = kwargs)
    /\ match eeg_2 with
       | Some eeg_2 =>
           forall i j, i < n_chan -> j < n_chan ->
                       estimate_at mi_func is_epoched kwargs' eeg_1 eeg_2 M i j
       | None =>
           (forall i, i < n_chan -> entry2 M i i = Some 0%R)
           /\ forall i j, i < j -> j < n_chan ->
                estimate_at mi_func is_epoched kwargs' eeg_1 eeg_1 M i j
                /\ entry2 M j i = entry2 M i j
       end.
Proof.
  unfold Legacy.compute_mi. intros Hrun.
  apply obind_returns in Hrun as (signal1 & Hc1 & Hrun).
  pose proof (check_eeg_data_returns _ _ _ Hc1) as ->.
  apply obind_returns in Hrun as (signal2 & Hc2 & Hrun).
  apply obind_returns in Hrun as (n & Hn & Hrun). apply of_result_returns in Hn.
  destruct (Legacy.mi_estimation_methods _ _ _ _ _ mode) as [mi_func |]; [| discriminate].
  apply obind_returns in Hrun as (kw' & Hkw & Hloop).
  exists mi_func, n, kw'. split; [reflexivity |]. split; [exact Hn |].
  assert (Hkw' : Legacy.kw_others kw' = Legacy.kw_others kwargs
                 /\ (mode <> "hist" \/ Legacy.kw_bins kwargs <> None -> kw' = kwargs)).
  { destruct (Legacy.kw_bins kwargs) as [b |] eqn:Hb.
    - injection Hkw as <-. auto.
    - case_bool_decide as Hm.
      + apply obind_returns in Hkw as (bins & _ & [= <-]). split; [reflexivity |].
        intros [Hne | Hne]; congruence.
      + injection Hkw as <-. auto. }
  destruct Hkw' as [Hothers Hsame]. split; [exact Hothers |]. split; [exact Hsame |].
  clear Hkw Hothers Hsame.
  destruct eeg_2 as [eeg_2 |].
  - apply check_eeg_data_returns in Hc2 as ->.
    cut (forall i j, i < 0 + n -> j < n ->
                     estimate_at mi_func is_epoched kw' eeg_1 eeg_2 M i j).
    { intros Hall i j Hi Hj. apply Hall; lia. }
    revert Hloop.
    apply (ofoldM_seq_from_inv
             (fun i0 M => forall i j, i < i0 -> j < n ->
                            estimate_at mi_func is_epoched kw' eeg_1 eeg_2 M i j)).
    + intros i j Hi. lia.
    + intros i0 M0 M1 Hi0 HI Hrow. cbv zeta in Hrow.
      cut (forall i j, (i < i0 /\ j < n) \/ (i = i0 /\ j < 0 + (n - 0)) ->
                       estimate_at mi_func is_epoched kw' eeg_1 eeg_2 M1 i j).
      { intros Hall i j Hi Hj. apply Hall.
        destruct (decide (i = i0)) as [-> | Hne]; [right | left]; split; lia. }
      revert Hrow.
      apply (ofoldM_seq_from_inv
               (fun j0 M => forall i j, (i < i0 /\ j < n) \/ (i = i0 /\ j < j0) ->
                              estimate_at mi_func is_epoched kw' eeg_1 eeg_2 M i j)).
      * intros i j [[Hi Hj] | [_ Hj]]; [apply HI; assumption | lia].
      * intros j0 Ma Mb Hj0 HJ Hbody. apply legacy_mi_body_step in Hbody.
        cbn [orb] in Hbody. destruct Hbody as [Hnew Hold].
        intros i j Hpos.
        destruct (decide ((i, j) = (i0, j0))) as [[= -> ->] | Hne]; [exact Hnew |].
        destruct (HJ i j) as (t1 & t2 & v & ? & ? & ? & Hv).
        { destruct Hpos as [Hpos | [-> Hj]]; [left; exact Hpos | right].
          split; [reflexivity |]. assert (j <> j0) by congruence. lia. }
        exists t1, t2, v. rewrite (Hold i j Hne). auto.
  - injection Hc2 as <-.
    pose (E := fun (M : list (list R)) i j =>
                 estimate_at mi_func is_epoched kw' eeg_1 eeg_1 M i j
                 /\ entry2 M j i = entry2 M i j).
    cut ((forall i, i < n -> entry2 M i i = Some 0%R)
         /\ forall i j, i < j -> j < n -> i < 0 + n -> E M i j).
    { intros [Hd Hall]. split; [exact Hd |]. intros i j Hij Hj. apply Hall; lia. }
    revert Hloop.
    apply (ofoldM_seq_from_inv
             (fun i0 M => (forall i, i < n -> entry2 M i i = Some 0%R)
                          /\ forall i j, i < j -> j < n -> i < i0 -> E M i j)).
    + split; [intros i Hi; apply entry2_zeros2; exact Hi | intros; lia].
    + intros i0 M0 M1 Hi0 [Hd HI] Hrow. cbv zeta in Hrow.
      cut ((forall i, i < n -> entry2 M1 i i = Some 0%R)
           /\ forall i j, i < j -> j < n -> i < i0 \/ (i = i0 /\ j < i0 + (n - i0)) ->
                          E M1 i j).
      { intros [Hd1 Hall]. split; [exact Hd1 |]. intros i j Hij Hj Hi. apply Hall; lia. }
      revert Hrow.
      apply (ofoldM_seq_from_inv
               (fun j0 M => (forall i, i < n -> entry2 M i i = Some 0%R)
                            /\ forall i j, i < j -> j < n -> i < i0 \/ (i = i0 /\ j < j0) ->
                                           E M i j)).
      * split; [exact Hd |]. intros i j Hij Hj [Hi | [-> Hlt]]; [apply HI; assumption | lia].
      * intros j0 Ma Mb Hj0 [Hda HJ] Hbody. apply legacy_mi_body_step in Hbody.
        cbn [orb] in Hbody. destruct (negb (i0 =? j0)) eqn:Hij0.
        -- apply negb_true_iff, Nat.eqb_neq in Hij0.
           destruct Hbody as (Hnew & Hsym & Hold). split.
           ++ intros i Hi. rewrite Hold by (intros [= -> ->]; congruence). apply Hda, Hi.
           ++ intros i j Hij Hj Hpos.
              destruct (decide ((i, j) = (i0, j0))) as [[= -> ->] | Hne];
                [split; assumption |].
              assert (Hne2 : (i, j) <> (j0, i0)) by (intros [= -> ->]; lia).
              assert (Hne3 : (j, i) <> (i0, j0)) by (intros [= -> ->]; lia).
              assert (Hne4 : (j, i) <> (j0, i0)) by (intros [= -> ->]; congruence).
              destruct (HJ i j Hij Hj) as [(t1 & t2 & v & ? & ? & ? & Hv) Hs].
              { destruct Hpos as [Hpos | [-> Hlt]]; [left; exact Hpos | right].
                split; [reflexivity |]. assert (j <> j0) by congruence. lia. }
              split; [exists t1, t2, v |]; rewrite ?(Hold i j Hne Hne2), ?(Hold j i Hne3 Hne4);
                auto.
        -- apply negb_false_iff, Nat.eqb_eq in Hij0. subst j0 Mb. split; [exact Hda |].
           intros i j Hij Hj Hpos. apply HJ; [exact Hij | exact Hj |].
           destruct Hpos as [Hpos | [-> Hlt]]; [left; exact Hpos | right].
           split; [reflexivity |]. lia.
Qed.

End LegacyMiAssembly.

Lemma legacy_compute_mi_witness :
  exists M,
    Legacy.compute_mi demo_estimator demo_estimator demo_estimator demo_estimator
                      demo_estimator demo_a None false "kernel" (Legacy.Kwargs None tt)
    = Returns M
    /\ entry2 M 1 1 = Some 0%R
    /\ estimate_at demo_estimator false (Legacy.Kwargs None tt) demo_a demo_a M 0 2
    /\ entry2 M 2 0 = entry2 M 0 2.
Proof.
  assert (Hrun : exists M, Legacy.compute_mi demo_estimator demo_estimator demo_estimator
                             demo_estimator demo_estimator demo_a None false "kernel"
                             (Legacy.Kwargs None tt) = Returns M).
  { eexists. vm_compute. reflexivity. }
  destruct Hrun as [M Hrun].
  destruct (legacy_compute_mi demo_estimator demo_estimator demo_estimator demo_estimator
              demo_estimator demo_a None false "kernel" (Legacy.Kwargs None tt) M Hrun)
    as (mi_func & n & kw' & Hf & Hn & _ & Hkw & Hd & Hall).
  injection Hf as <-. injection Hn as <-.
  rewrite Hkw in Hall by (left; discriminate).
  exists M. split; [exact Hrun |]. split; [apply Hd; lia |].
  destruct (Hall 0 2) as [He Hs]; [lia | lia |]. split; [exact He | exact Hs].
Defined.

(** Ties of [round] go to the even integer. *)
Example round_half_even_ties :
  map round_half_even [5 # 2; 7 # 2; 10 # 4; 11 # 4; 9 # 4; -(1 # 2); 3 # 1]%Q
  = [2; 4; 2; 3; 2; 0; 3]%Z.
Proof. vm_compute. reflexivity. Qed.
